(** * Client scripts of the beverage tracker: theme synchronisation,
      user search, order counter and PIN entry

    A shallow embedding of the client-side JavaScript of the repository
    ([app/static/js/main/user_search.js] with the theme client appended to it,
    [theme_switcher.js], and the consumption / PIN scripts) and the proofs of
    the properties stated about them.

    Conventions of the embedding:
    - a JS string is a [string]; each [ascii] stands for one code unit (the
      Latin-1 range);
    - a JS value that the code tests dynamically ([!x], [===], [x || 0]) is a
      [JS.value];
    - module-level variables, the parts of the DOM that the scripts touch and
      the list of externally visible effects form an explicit state; a
      callback of the event loop is a function on that state;
    - an exception is an outcome of the small monad [Eff.M]; [try]/[catch]
      and promise [.catch] are [Eff.try_catch]. *)

From Equations Require Import Equations.
From stdpp Require Import gmap strings list.
From Stdlib Require Import ZArith Lia Ascii String DecimalString DecimalPos.

Local Open Scope string_scope.
Local Open Scope Z_scope.

(** ** JavaScript values *)

Module JS.

(** The values a JSON field or a module variable of these scripts holds.
    [Num] carries integer-valued numbers; nested objects do not occur in the
    messages of the application. *)
Inductive value :=
| Undefined
| Null
| Bool (b : bool)
| Num (n : Z)
| Str (s : string).

#[global] Instance value_eq_dec : EqDecision value.
Proof. solve_decision. Defined.

(** ToBoolean *)
Definition truthy (v : value) : bool :=
  match v with
  | Undefined | Null => false
  | Bool b => b
  | Num n => negb (n =? 0)
  | Str s => negb (String.eqb s "")
  end.

(** [a === b]: the same type and the same value ([Num] has neither NaN
    nor a signed zero). *)
Definition strict_eq (a b : value) : bool :=
  match a, b with
  | Undefined, Undefined => true
  | Null, Null => true
  | Bool x, Bool y => Bool.eqb x y
  | Num x, Num y => x =? y
  | Str x, Str y => String.eqb x y
  | _, _ => false
  end.
#[global] Arguments strict_eq : simpl nomatch.

(** ToString; numbers print in decimal, as integers below 1e21 do. *)
Definition to_string (v : value) : string :=
  match v with
  | Undefined => "undefined"
  | Null => "null"
  | Bool true => "true"
  | Bool false => "false"
  | Num n => NilZero.string_of_int (Z.to_int n)
  | Str s => s
  end.

End JS.

(** ** Character classes and the string operations of the platform *)

Module Text.

Definition code (c : ascii) : N := N_of_ascii c.

(** ASCII whitespace of the DOM standard: TAB, LF, FF, CR, SPACE. *)
Definition is_ascii_whitespace (c : ascii) : bool :=
  let n := code c in
  ((n =? 9) || (n =? 10) || (n =? 12) || (n =? 13) || (n =? 32))%N.

(** WhiteSpace and LineTerminator of ECMAScript, as [String.prototype.trim]
    strips them: TAB, LF, VT, FF, CR, SPACE, NBSP. *)
Definition is_js_space (c : ascii) : bool :=
  let n := code c in
  (((9 <=? n) && (n <=? 13)) || (n =? 32) || (n =? 160))%N.

(** [\d] *)
Definition is_digit (c : ascii) : bool :=
  let n := code c in ((48 <=? n) && (n <=? 57))%N.

(** [\w] *)
Definition is_word (c : ascii) : bool :=
  let n := code c in
  (is_digit c || ((65 <=? n) && (n <=? 90)) || ((97 <=? n) && (n <=? 122))
   || (n =? 95))%N.

Fixpoint forallb_str (p : ascii -> bool) (s : string) : bool :=
  match s with
  | EmptyString => true
  | String c s' => p c && forallb_str p s'
  end.

Fixpoint existsb_str (p : ascii -> bool) (s : string) : bool :=
  match s with
  | EmptyString => false
  | String c s' => p c || existsb_str p s'
  end.

(** [s.trim()] *)
Fixpoint trimStart (s : string) : string :=
  match s with
  | EmptyString => EmptyString
  | String c s' => if is_js_space c then trimStart s' else s
  end.

Fixpoint trimEnd (s : string) : string :=
  match s with
  | EmptyString => EmptyString
  | String c s' =>
      let r := trimEnd s' in
      if is_js_space c && String.eqb r "" then "" else String c r
  end.

Definition trim (s : string) : string := trimEnd (trimStart s).

(** [strip_prefix p s] is the rest of [s] after the prefix [p], if [s]
    starts with [p]. *)
Fixpoint strip_prefix (p s : string) : option string :=
  match p, s with
  | EmptyString, _ => Some s
  | String a p', String b s' =>
      if Ascii.eqb a b then strip_prefix p' s' else None
  | String _ _, EmptyString => None
  end.

(** Length of the longest run of word characters at the head of [s]. *)
Fixpoint word_run (s : string) : nat :=
  match s with
  | String c s' => if is_word c then S (word_run s') else O
  | EmptyString => O
  end.

(** Length of the match of [/theme-\w+/] anchored at the head of [s]. *)
Definition match_theme_class (s : string) : option nat :=
  match strip_prefix "theme-" s with
  | Some rest =>
      match word_run rest with
      | O => None
      | S n => Some (6 + S n)%nat
      end
  | None => None
  end.

(** [s.replace(/theme-\w+/g, '')]: scanning from the left, each match is
    dropped and the scan resumes after it; [skip] counts the characters of
    the current match still to drop. *)
Fixpoint drop_theme_classes_from (skip : nat) (s : string) : string :=
  match s with
  | EmptyString => EmptyString
  | String c s' =>
      match skip with
      | S k => drop_theme_classes_from k s'
      | O =>
          match match_theme_class s with
          | Some n => drop_theme_classes_from (Nat.pred n) s'
          | None => String c (drop_theme_classes_from O s')
          end
      end
  end.

Definition drop_theme_classes (s : string) : string :=
  drop_theme_classes_from O s.

(** Split on ASCII whitespace; [cur] is the token being read. *)
Fixpoint split_ws_from (cur : string) (s : string) : list string :=
  match s with
  | EmptyString => if String.eqb cur "" then [] else [cur]
  | String c s' =>
      if is_ascii_whitespace c
      then (if String.eqb cur "" then split_ws_from "" s'
            else cur :: split_ws_from "" s')
      else split_ws_from (cur +:+ String c "") s'
  end.

Definition split_ws (s : string) : list string := split_ws_from "" s.

(** The ordered-set serializer: tokens joined by one SPACE. *)
Fixpoint join_sp (l : list string) : string :=
  match l with
  | [] => ""
  | [t] => t
  | t :: l' => t +:+ String " " (join_sp l')
  end.

End Text.

(** ** The part of the document that the theme scripts touch *)

Module Dom.

(** [document.body]: its [data-theme] attribute and its [class] attribute. *)
Record body := mkBody {
  data_theme : option string;
  className : string
}.

(** Appending to an ordered set: nothing happens if the item is present. *)
Definition ordered_append (set : list string) (t : string) : list string :=
  if bool_decide (t ∈ set) then set else (set ++ [t])%list.

(** The token set of [classList]: the [class] attribute split on ASCII
    whitespace, each token appended to an initially empty ordered set. *)
Definition classList (b : body) : list string :=
  fold_left ordered_append (Text.split_ws (className b)) [].

Definition setAttribute_theme (v : string) (b : body) : body :=
  mkBody (Some v) (className b).

Definition set_className (v : string) (b : body) : body :=
  mkBody (data_theme b) v.

(** [classList.add(token)]: [None] when the DOM raises (empty token:
    SyntaxError, token with ASCII whitespace: InvalidCharacterError);
    otherwise the token is appended to the token set unless present and the
    attribute is rewritten from the set. *)
Definition classList_add (token : string) (b : body) : option body :=
  if String.eqb token "" then None
  else if Text.existsb_str Text.is_ascii_whitespace token then None
  else
    Some (set_className (Text.join_sp (ordered_append (classList b) token)) b).

End Dom.

(** ** Callbacks with exceptions over an explicit state *)

Module Eff.
Section Monad.
Context {S : Type}.

(** A callback either completes or throws; the mutations made before a
    throw stay. *)
Inductive outcome (A : Type) :=
| Ret (a : A) (s : S)
| Throw (s : S).
#[global] Arguments Ret {A} a s.
#[global] Arguments Throw {A} s.

Definition M (A : Type) : Type := S -> outcome A.

Definition ret {A} (a : A) : M A := fun s => Ret a s.

Definition bind {A B} (m : M A) (k : A -> M B) : M B :=
  fun s => match m s with
           | Ret a s' => k a s'
           | Throw s' => Throw s'
           end.

Definition throw {A} : M A := fun s => Throw s.

Definition gets {A} (f : S -> A) : M A := fun s => Ret (f s) s.

Definition modify (f : S -> S) : M unit := fun s => Ret tt (f s).

(** [try { body } catch { handler }], and [promise.catch(handler)]. *)
Definition try_catch (body handler : M unit) : M unit :=
  fun s => match body s with
           | Ret a s' => Ret a s'
           | Throw s' => handler s'
           end.

(** The state a callback of the event loop leaves behind. *)
Definition final {A} (o : outcome A) : S :=
  match o with Ret _ s => s | Throw s => s end.

Definition run (m : M unit) (s : S) : S := final (m s).

Definition throws {A} (o : outcome A) : bool :=
  match o with Ret _ _ => false | Throw _ => true end.

End Monad.
#[global] Arguments outcome : clear implicits.
#[global] Arguments M : clear implicits.

End Eff.

Declare Scope eff_scope.
Delimit Scope eff_scope with eff.
Notation "'do' x <- m ; k" := (Eff.bind m (fun x => k))
  (at level 10, x name, m at level 100, k at level 200) : eff_scope.
Notation "m ;; k" := (Eff.bind m (fun _ => k))
  (at level 100, k at level 200, right associativity) : eff_scope.

(** ** The page: what the theme scripts share *)

Module Page.

(** Effects that leave the script. *)
Inductive event :=
| ConsoleLog (msg : string)
| ConsoleWarn (msg : string)
| ConsoleError (msg : string)
| Alert (msg : string)
| LocationReload                      (* location.reload() *)
| LocationReplace (v : string)        (* location.replace(href with v=...) *)
| FetchGet (url : string)
| FetchPost (url : string) (theme : string)
| EventSourceOpen (url : string)
| EventSourceClose
| ModalHide.

#[global] Instance event_eq_dec : EqDecision event.
Proof. solve_decision. Defined.

(** The [EventSource] of [initSSE]. *)
Inductive source := NoSource | SourceOpen | SourceClosed.

Record state := mkState {
  currentTheme : JS.value;          (* theme.js: let currentTheme *)
  currentVersion : JS.value;        (* theme.js: let currentVersion *)
  initialized : bool;               (* initSSE: let initialized *)
  es : source;                      (* initSSE: const es *)
  intervals : list Z;               (* timers installed by setInterval *)
  body : Dom.body;                  (* document.body *)
  LAST_THEME_SET : option Z;        (* window.__LAST_THEME_SET *)
  THEME_DEBUG : bool;               (* window.__THEME_DEBUG *)
  effects : list event              (* in the order they happened *)
}.

Definition set_currentTheme (v : JS.value) (s : state) : state :=
  mkState v (currentVersion s) (initialized s) (es s) (intervals s) (body s)
          (LAST_THEME_SET s) (THEME_DEBUG s) (effects s).
Definition set_currentVersion (v : JS.value) (s : state) : state :=
  mkState (currentTheme s) v (initialized s) (es s) (intervals s) (body s)
          (LAST_THEME_SET s) (THEME_DEBUG s) (effects s).
Definition set_initialized (v : bool) (s : state) : state :=
  mkState (currentTheme s) (currentVersion s) v (es s) (intervals s) (body s)
          (LAST_THEME_SET s) (THEME_DEBUG s) (effects s).
Definition set_es (v : source) (s : state) : state :=
  mkState (currentTheme s) (currentVersion s) (initialized s) v (intervals s)
          (body s) (LAST_THEME_SET s) (THEME_DEBUG s) (effects s).
Definition set_intervals (v : list Z) (s : state) : state :=
  mkState (currentTheme s) (currentVersion s) (initialized s) (es s) v
          (body s) (LAST_THEME_SET s) (THEME_DEBUG s) (effects s).
Definition set_body (v : Dom.body) (s : state) : state :=
  mkState (currentTheme s) (currentVersion s) (initialized s) (es s)
          (intervals s) v (LAST_THEME_SET s) (THEME_DEBUG s) (effects s).
Definition set_LAST_THEME_SET (v : option Z) (s : state) : state :=
  mkState (currentTheme s) (currentVersion s) (initialized s) (es s)
          (intervals s) (body s) v (THEME_DEBUG s) (effects s).
Definition set_effects (v : list event) (s : state) : state :=
  mkState (currentTheme s) (currentVersion s) (initialized s) (es s)
          (intervals s) (body s) (LAST_THEME_SET s) (THEME_DEBUG s) v.

(** The page as it is when theme.js starts: nothing recorded, no source,
    no timer; the markup decides [body], the page decides the debug flag. *)
Definition fresh (b : Dom.body) (debug : bool) : state :=
  mkState JS.Null JS.Null false NoSource [] b None debug [].

Definition emit (e : event) : Eff.M state unit :=
  Eff.modify (fun s => set_effects (effects s ++ [e])%list s).

(** [if(window.__THEME_DEBUG){ console.log(msg) }] *)
Definition debug_log (msg : string) : Eff.M state unit :=
  fun s => if THEME_DEBUG s then emit (ConsoleLog msg) s else Eff.ret tt s.

(** What a JSON text denotes for these scripts: [null], or something whose
    properties can be read (a missing property reads [Undefined], and so
    does every property of a number, a string or a boolean). *)
Inductive json :=
| JsonNull
| JsonFields (success theme version : JS.value).

(** The outcome of [JSON.parse] / [response.json()]. *)
Inductive parsed :=
| Malformed
| Parsed (d : json).

Definition JSON_parse (raw : parsed) : Eff.M state json :=
  match raw with
  | Malformed => Eff.throw
  | Parsed d => Eff.ret d
  end.

(** [data.success], [data.theme], [data.version]: a TypeError on [null]. *)
Definition get_success (d : json) : Eff.M state JS.value :=
  match d with JsonNull => Eff.throw | JsonFields s _ _ => Eff.ret s end.
Definition get_theme (d : json) : Eff.M state JS.value :=
  match d with JsonNull => Eff.throw | JsonFields _ t _ => Eff.ret t end.
Definition get_version (d : json) : Eff.M state JS.value :=
  match d with JsonNull => Eff.throw | JsonFields _ _ v => Eff.ret v end.

End Page.

(** ** theme.js: server-driven theme management *)

Module ThemeClient.
Import Page.
Local Open Scope eff_scope.

Definition POLL_INTERVAL : Z := 4000.

(** [let hardReloadArmed = true], never assigned again. *)
Definition hardReloadArmed : bool := true.

Definition applyTheme (theme : JS.value) : Eff.M state unit :=
  if negb (JS.truthy theme) then Eff.ret tt
  else
    Eff.modify (fun s =>
      set_body (Dom.setAttribute_theme (JS.to_string theme) (body s)) s) ;;
    Eff.modify (fun s =>
      set_body (Dom.set_className
                  (Text.drop_theme_classes (Dom.className (body s)))
                  (body s)) s) ;;
    do b <- Eff.gets body ;
    match Dom.classList_add ("theme-" +:+ JS.to_string theme) b with
    | None => Eff.throw
    | Some b' => Eff.modify (set_body b')
    end ;;
    debug_log "[theme] applied".

(** [fetchTheme]: the request it issues. *)
Definition fetchTheme : Eff.M state unit :=
  emit (FetchGet "/api/get-theme").

(** How the request of [fetchTheme] ends. *)
Inductive fetched :=
| NetworkFailed
| Received (raw : parsed).

(** The body of the second [.then] of [fetchTheme]. *)
Definition fetchTheme_then (data : json) : Eff.M state unit :=
  do success <- get_success data ;
  if negb (JS.truthy success) then Eff.ret tt
  else
    do cv <- Eff.gets currentVersion ;
    if JS.strict_eq cv JS.Null then
      do v <- get_version data ;
      Eff.modify (set_currentVersion v) ;;
      do t <- get_theme data ;
      Eff.modify (set_currentTheme t) ;;
      do ct <- Eff.gets currentTheme ;
      applyTheme ct
    else
      do v <- get_version data ;
      do cv <- Eff.gets currentVersion ;
      if negb (JS.strict_eq v cv) then
        Eff.modify (set_currentVersion v) ;;
        do t <- get_theme data ;
        Eff.modify (set_currentTheme t) ;;
        do ct <- Eff.gets currentTheme ;
        applyTheme ct ;;
        if hardReloadArmed then emit LocationReload else Eff.ret tt
      else
        do t <- get_theme data ;
        do ct <- Eff.gets currentTheme ;
        if negb (JS.strict_eq t ct) then
          Eff.modify (set_currentTheme t) ;;
          do ct <- Eff.gets currentTheme ;
          applyTheme ct
        else Eff.ret tt.

(** The promise chain of [fetchTheme] once the request has ended:
    [.then(r=>r.json()).then(data=>{...}).catch(()=>{})]. *)
Definition fetchTheme_settled (r : fetched) : Eff.M state unit :=
  Eff.try_catch
    (do data <- match r with
                | NetworkFailed => Eff.throw
                | Received raw => JSON_parse raw
                end ;
     fetchTheme_then data)
    (Eff.ret tt).

(** [window.__setLocalTheme(theme, version)]; [now] is [Date.now()]. *)
Definition setLocalTheme (now : Z) (theme version : JS.value)
  : Eff.M state unit :=
  (if JS.truthy theme then applyTheme theme else Eff.ret tt) ;;
  if JS.truthy version then Eff.modify (set_currentVersion version)
  else
    let newVersion := JS.to_string (JS.Num now) in
    Eff.modify (set_currentVersion (JS.Str newVersion)) ;;
    emit (LocationReplace newVersion).

Definition initPolling : Eff.M state unit :=
  fetchTheme ;;
  Eff.modify (fun s => set_intervals (intervals s ++ [POLL_INTERVAL])%list s).

(** [window.__LAST_THEME_SET && (Date.now() - window.__LAST_THEME_SET < 500)],
    as the condition of [if(!justChanged)] reads it. *)
Definition justChanged (now : Z) (last : option Z) : bool :=
  match last with
  | None => false
  | Some l => negb (l =? 0) && (now - l <? 500)
  end.

(** The listener of the "theme" event; [now] is [Date.now()], [raw] what
    [JSON.parse(evt.data)] does. *)
Definition onThemeEvent (now : Z) (raw : parsed) : Eff.M state unit :=
  Eff.try_catch
    (do data <- JSON_parse raw ;
     do init <- Eff.gets initialized ;
     if negb init then
       do v <- get_version data ;
       Eff.modify (set_currentVersion v) ;;
       do t <- get_theme data ;
       Eff.modify (set_currentTheme t) ;;
       do ct <- Eff.gets currentTheme ;
       applyTheme ct ;;
       Eff.modify (set_initialized true) ;;
       debug_log "[theme] initial SSE payload"
     else
       do v <- get_version data ;
       do cv <- Eff.gets currentVersion ;
       if negb (JS.strict_eq v cv) then
         Eff.modify (set_currentVersion v) ;;
         do t <- get_theme data ;
         Eff.modify (set_currentTheme t) ;;
         do ct <- Eff.gets currentTheme ;
         applyTheme ct ;;
         do last <- Eff.gets LAST_THEME_SET ;
         if negb (justChanged now last) then
           debug_log "[theme] version change reload" ;;
           emit LocationReload
         else
           debug_log "[theme] version change but skip reload (originator)"
       else
         do t <- get_theme data ;
         do ct <- Eff.gets currentTheme ;
         if negb (JS.strict_eq t ct) then
           Eff.modify (set_currentTheme t) ;;
           do ct <- Eff.gets currentTheme ;
           applyTheme ct
         else Eff.ret tt)
    (emit (ConsoleWarn "Bad theme event payload")).

(** [es.onerror] *)
Definition es_onerror : Eff.M state unit :=
  Eff.modify (set_es SourceClosed) ;;
  emit EventSourceClose ;;
  initPolling.

(** [initSSE]; [constructs] tells whether [new EventSource('/events')]
    returns (it throws where the constructor is missing). *)
Definition initSSE (constructs : bool) : Eff.M state unit :=
  Eff.try_catch
    (if constructs then
       Eff.modify (set_es SourceOpen) ;;
       emit (EventSourceOpen "/events") ;;
       Eff.modify (set_initialized false)
     else Eff.throw)
    initPolling.

(** A timer installed by [setInterval(fetchTheme, ms)] fires. *)
Definition interval_fires (ms : Z) : Eff.M state unit :=
  fun s => if bool_decide (ms ∈ intervals s) then fetchTheme s
           else Eff.ret tt s.

End ThemeClient.

(** ** theme_switcher.js: the admin's theme selection *)

Module ThemeSwitcher.
Import Page.
Local Open Scope eff_scope.

(** [selectTheme(theme)]: the request it issues. *)
Definition selectTheme (theme : string) : Eff.M state unit :=
  emit (FetchPost "/api/set-theme" theme).

(** How that request ends. *)
Inductive answered :=
| SetFailed                           (* the fetch rejects *)
| RedirectedToLogin                   (* r.redirected, url has /admin/login *)
| Answered (raw : parsed).            (* r.json() *)

(** The text of the alert, shortened to its headline. *)
Definition login_alert : string :=
  "Admin Authentication Required".

(** The two [.then] and the [.catch] of [selectTheme]; [nowSet] is the
    [Date.now()] read inside [__setLocalTheme], [nowRec] the one stored in
    [window.__LAST_THEME_SET]. theme.js is loaded on the page, so
    [window.__setLocalTheme] is defined. *)
Definition selectTheme_settled (nowSet nowRec : Z) (r : answered)
  : Eff.M state unit :=
  Eff.try_catch
    (do data <- match r with
                | SetFailed => Eff.throw
                | RedirectedToLogin =>
                    emit (Alert login_alert) ;; Eff.ret None
                | Answered raw =>
                    do d <- JSON_parse raw ; Eff.ret (Some d)
                end ;
     match data with
     | None | Some JsonNull => emit (ConsoleWarn "Theme update failed")
     | Some (JsonFields success theme version) =>
         if negb (JS.truthy success)
         then emit (ConsoleWarn "Theme update failed")
         else
           ThemeClient.setLocalTheme nowSet theme version ;;
           Eff.modify (set_LAST_THEME_SET (Some nowRec)) ;;
           debug_log "[theme] admin set" ;;
           emit ModalHide
     end)
    (emit (ConsoleError "Theme update error")).

End ThemeSwitcher.

(** ** user_search.js: the filter of the user grid *)

Module UserSearch.
Section Fuzzy.
(** [A] is the type of code units; [text[i] === pattern[j]] compares two
    of them. *)
Context {A : Type} `{EqDecision A}.

(** The [while] loop of [fuzzyMatch]; its value is [patternIdx] at exit. *)
Equations? fuzzyLoop (text pattern : list A) (textIdx patternIdx : nat) : nat
  by wf (List.length text - textIdx)%nat lt :=
  fuzzyLoop text pattern textIdx patternIdx with
    decide (textIdx < List.length text
            ∧ patternIdx < List.length pattern)%nat => {
    | left _ =>
        fuzzyLoop text pattern (textIdx + 1)
          (if decide (text !! textIdx = pattern !! patternIdx)
           then (patternIdx + 1)%nat else patternIdx)
    | right _ => patternIdx }.
Proof. lia. Qed.

Definition fuzzyMatch (text pattern : list A) : bool :=
  bool_decide (fuzzyLoop text pattern 0 0 = List.length pattern).

End Fuzzy.

(** [fuzzyMatch] on strings. *)
Definition fuzzyMatch_string (text pattern : string) : bool :=
  fuzzyMatch (list_ascii_of_string text) (list_ascii_of_string pattern).

End UserSearch.

(** ** The order counter of the consumption page *)

Module BeverageConsumption.
Local Open Scope eff_scope.

(** The card of one beverage: the text of [.quantity-display] and the
    [disabled] flags of the two buttons, where these elements exist. *)
Record card := mkCard {
  quantity_display : option string;
  decrease_disabled : option bool;
  increase_disabled : option bool;
  increase_originally_disabled : bool   (* data-originally-disabled *)
}.

(** Quantities are JS numbers that hold integers; [Z] is exact for them as
    long as they stay below 2^53, the range of a counter moved by clicks. *)
Record state := mkState {
  order : gmap string Z;                (* this.order: beverage_id -> quantity *)
  cards : gmap string card              (* the cards, by data-beverage-id *)
}.

(** The constructor: [this.order = new Map()]. *)
Definition init (cs : gmap string card) : state := mkState ∅ cs.

(** [this.order.get(beverageId) || 0] *)
Definition get_or_zero (o : option Z) : Z :=
  match o with
  | Some q => if q =? 0 then 0 else q
  | None => 0
  end.

Definition updateQuantityDisplay (beverageId : string) (quantity : Z)
  : Eff.M state unit :=
  do item <- Eff.gets (fun s => cards s !! beverageId) ;
  match item with
  | None => Eff.throw                 (* beverageItem is null *)
  | Some c =>
      match quantity_display c with
      | None => Eff.throw             (* quantityDisplay is null *)
      | Some _ =>
          let c1 := mkCard (Some (JS.to_string (JS.Num quantity)))
                           (decrease_disabled c) (increase_disabled c)
                           (increase_originally_disabled c) in
          let c2 := mkCard (quantity_display c1)
                           (match decrease_disabled c1 with
                            | Some _ => Some (quantity =? 0)
                            | None => None
                            end)
                           (increase_disabled c1)
                           (increase_originally_disabled c1) in
          let c3 := mkCard (quantity_display c2) (decrease_disabled c2)
                           (match increase_disabled c2 with
                            | Some d =>
                                if negb (increase_originally_disabled c2)
                                then Some false else Some d
                            | None => None
                            end)
                           (increase_originally_disabled c2) in
          Eff.modify (fun s => mkState (order s) (<[beverageId := c3]> (cards s)))
      end
  end.

Definition updateQuantity (beverageId action : string) : Eff.M state unit :=
  do currentQuantity <- Eff.gets (fun s => get_or_zero (order s !! beverageId)) ;
  let newQuantity :=
    if String.eqb action "increase" then currentQuantity + 1
    else if String.eqb action "decrease" && (0 <? currentQuantity)
         then currentQuantity - 1
         else currentQuantity in
  Eff.modify (fun s => mkState (<[beverageId := newQuantity]> (order s)) (cards s)) ;;
  updateQuantityDisplay beverageId newQuantity.

(** A sequence of calls, each one a callback of its own. *)
Definition updateQuantities (calls : list (string * string)) (s : state)
  : state :=
  fold_left (fun s c => Eff.run (updateQuantity c.1 c.2) s) calls s.

(** The quantity the page holds for a beverage. *)
Definition quantity (s : state) (beverageId : string) : Z :=
  get_or_zero (order s !! beverageId).

End BeverageConsumption.

(** ** PIN entry: what both overlays share *)

Module Pin.

Inductive event :=
| Fetch (url : string) (user_id : JS.value) (pin : string)
| Alert (msg : string)
| ConsoleError (msg : string)
| Focus                               (* this.pinInput.focus() *)
| LocationReload
| LocationAssign (url : string).      (* window.location.href = url *)

Definition is_request (e : event) : bool :=
  match e with Fetch _ _ _ => true | _ => false end.

(** [/^\d{4}$/.test(pin)] *)
Definition four_digits_regex (pin : string) : bool :=
  match pin with
  | String a (String b (String c (String d EmptyString))) =>
      Text.is_digit a && Text.is_digit b && Text.is_digit c && Text.is_digit d
  | _ => false
  end.

(** [pin.length !== 4 || !/^\d{4}$/.test(pin)] *)
Definition rejected (pin : string) : bool :=
  negb (Nat.eqb (String.length pin) 4) || negb (four_digits_regex pin).

(** The JSON of the answer: [null], or something with [success], [error]. *)
Inductive json :=
| JsonNull
| JsonFields (success error : JS.value).

(** How the request ends: the fetch rejects, or a response arrives whose
    body parses or not. *)
Inductive settled :=
| Failed
| Response (ok : bool) (body : option json).

End Pin.

(** ** PinManagement: creating a PIN *)

Module PinManagement.
Import Pin.
Local Open Scope eff_scope.

(** A pending [setTimeout]. *)
Inductive timeout :=
| HideError (ms : Z)
| HideOverlay (ms : Z).

Record state := mkState {
  pinInput_value : string;
  pinSubmit_disabled : bool;
  pinSubmit_innerHTML : string;
  pinError_text : string;             (* the span inside pinError *)
  pinError_display : string;
  pinOverlay_display : string;
  pinOverlay_animation : string;
  body_overflow : string;
  userId : JS.value;                  (* window.userId *)
  timeouts : list timeout;
  effects : list event
}.

Definition emit (e : event) : Eff.M state unit :=
  Eff.modify (fun s =>
    mkState (pinInput_value s) (pinSubmit_disabled s) (pinSubmit_innerHTML s)
            (pinError_text s) (pinError_display s) (pinOverlay_display s)
            (pinOverlay_animation s) (body_overflow s) (userId s)
            (timeouts s) (effects s ++ [e])%list).

Definition showError (message : string) : Eff.M state unit :=
  Eff.modify (fun s =>
    mkState (pinInput_value s) (pinSubmit_disabled s) (pinSubmit_innerHTML s)
            message "flex" (pinOverlay_display s)
            (pinOverlay_animation s) (body_overflow s) (userId s)
            (timeouts s ++ [HideError 3000])%list (effects s)).

Definition hideOverlay : Eff.M state unit :=
  Eff.modify (fun s =>
    mkState (pinInput_value s) (pinSubmit_disabled s) (pinSubmit_innerHTML s)
            (pinError_text s) (pinError_display s) (pinOverlay_display s)
            "fadeOut 0.3s ease forwards" "" (userId s)
            (timeouts s ++ [HideOverlay 300])%list (effects s)).

Definition set_submit (disabled : bool) (html : string) : Eff.M state unit :=
  Eff.modify (fun s =>
    mkState (pinInput_value s) disabled html
            (pinError_text s) (pinError_display s) (pinOverlay_display s)
            (pinOverlay_animation s) (body_overflow s) (userId s)
            (timeouts s) (effects s)).

Definition clear_input : Eff.M state unit :=
  Eff.modify (fun s =>
    mkState "" (pinSubmit_disabled s) (pinSubmit_innerHTML s)
            (pinError_text s) (pinError_display s) (pinOverlay_display s)
            (pinOverlay_animation s) (body_overflow s) (userId s)
            (timeouts s) (effects s)).

(** The markup put into the submit button (attribute quotes written [']). *)
Definition spinner_html : string := "<i class='fas fa-spinner fa-spin'></i>".
Definition check_html : string := "<i class='fas fa-check'></i>".

(** [submitPin] up to its first [await]: the checks, and the request. *)
Definition submitPin : Eff.M state unit :=
  do pin <- Eff.gets (fun s => Text.trim (pinInput_value s)) ;
  if String.eqb pin "" then showError "Please enter a PIN"
  else if rejected pin then showError "PIN must be exactly 4 digits"
  else
    set_submit true spinner_html ;;
    do uid <- Eff.gets userId ;
    emit (Fetch "/create_user_pin" uid pin).

(** The rest of [submitPin], run when the request has ended. *)
Definition submitPin_settled (r : settled) : Eff.M state unit :=
  Eff.try_catch
    (match r with
     | Failed | Response _ None | Response _ (Some JsonNull) => Eff.throw
     | Response ok (Some (JsonFields success error)) =>
         if ok && JS.truthy success then
           hideOverlay ;;
           emit (Alert "PIN created successfully!") ;;
           emit LocationReload
         else
           showError (if JS.truthy error then JS.to_string error
                      else "Error creating PIN") ;;
           clear_input ;;
           emit Focus
     end)
    (emit (ConsoleError "PIN creation error:") ;;
     showError "Network error. Please try again.") ;;
  set_submit false check_html.

End PinManagement.

(** ** PinAuth: verifying a user's PIN *)

Module PinAuth.
Import Pin.
Local Open Scope eff_scope.

Record user := mkUser { id : JS.value; name : string }.

Record state := mkState {
  pinInput_value : string;
  pinError_text : string;
  pinError_display : string;
  pinOverlay_display : string;
  pinUserInfo_text : string;
  body_overflow : string;
  currentUser : option user;          (* null until showPinForUser *)
  effects : list event
}.

Definition emit (e : event) : Eff.M state unit :=
  Eff.modify (fun s =>
    mkState (pinInput_value s) (pinError_text s) (pinError_display s)
            (pinOverlay_display s) (pinUserInfo_text s) (body_overflow s)
            (currentUser s) (effects s ++ [e])%list).

Definition showError (message : string) : Eff.M state unit :=
  Eff.modify (fun s =>
    mkState (pinInput_value s) message "block"
            (pinOverlay_display s) (pinUserInfo_text s) (body_overflow s)
            (currentUser s) (effects s)).

Definition clear_input : Eff.M state unit :=
  Eff.modify (fun s =>
    mkState "" (pinError_text s) (pinError_display s)
            (pinOverlay_display s) (pinUserInfo_text s) (body_overflow s)
            (currentUser s) (effects s)).

Definition showPinForUser (userId : JS.value) (userName : string)
  : Eff.M state unit :=
  Eff.modify (fun s =>
    mkState "" (pinError_text s) "none" "flex"
            ("Please enter PIN for " +:+ userName) "hidden"
            (Some (mkUser userId userName)) (effects s)) ;;
  emit Focus.

Definition hideOverlay : Eff.M state unit :=
  Eff.modify (fun s =>
    mkState (pinInput_value s) (pinError_text s) (pinError_display s)
            "none" (pinUserInfo_text s) "auto" None (effects s)).

(** [this.currentUser.id]: a TypeError when [currentUser] is [null]. *)
Definition currentUser_id : Eff.M state JS.value :=
  do u <- Eff.gets currentUser ;
  match u with
  | Some u => Eff.ret (id u)
  | None => Eff.throw
  end.

Definition network_error : Eff.M state unit :=
  showError "Network error. Please try again." ;;
  emit (ConsoleError "PIN verification error:").

(** [submitPin] up to its first [await]; the request body is built inside
    the [try]. *)
Definition submitPin : Eff.M state unit :=
  do pin <- Eff.gets (fun s => Text.trim (pinInput_value s)) ;
  if String.eqb pin "" then showError "Please enter a PIN"
  else if rejected pin then showError "PIN must be exactly 4 digits"
  else
    Eff.try_catch
      (do uid <- currentUser_id ;
       emit (Fetch "/verify_pin" uid pin))
      network_error.

(** The rest of [submitPin], run when the request has ended. *)
Definition submitPin_settled (r : settled) : Eff.M state unit :=
  Eff.try_catch
    (match r with
     | Failed | Response _ None | Response _ (Some JsonNull) => Eff.throw
     | Response ok (Some (JsonFields success error)) =>
         if ok && JS.truthy success then
           do uid <- currentUser_id ;
           emit (LocationAssign ("/entries?user_id=" +:+ JS.to_string uid))
         else
           showError (if JS.truthy error then JS.to_string error
                      else "Invalid PIN") ;;
           clear_input ;;
           emit Focus
     end)
    network_error.

End PinAuth.

(** ** UserSearch: the search field over the user grid *)

Module UserSearchPage.
Local Open Scope eff_scope.

(** [toLowerCase] on one code unit of the Latin-1 range: A-Z, and the
    accented capitals except the multiplication sign. *)
Definition lower_unit (c : ascii) : ascii :=
  let n := Text.code c in
  if (((65 <=? n) && (n <=? 90)) || ((192 <=? n) && (n <=? 214))
      || ((216 <=? n) && (n <=? 222)))%N
  then ascii_of_N (n + 32) else c.

Fixpoint toLowerCase (s : string) : string :=
  match s with
  | EmptyString => EmptyString
  | String c s' => String (lower_unit c) (toLowerCase s')
  end.

(** A [.user-card-container]: its three data attributes, whether its class
    list holds [hidden], and its animation delay in steps of 0.1s (the [n]
    of the last [`${n * 0.1}s`] written, if any). *)
Record card := mkCard {
  userName : string;
  userFirst : string;
  userLast : string;
  hidden : bool;
  animationDelay : option nat
}.

Record state := mkState {
  searchInput_value : string;
  clearButton_display : string;
  userGrid : bool;                    (* the element with id userGrid exists *)
  noResultsMessage : bool;            (* the element with that id exists *)
  cards : list card;                  (* getUserCards(), in document order *)
  focused : nat                       (* calls of searchInput.focus() *)
}.

Definition set_cards (cs : list card) (s : state) : state :=
  mkState (searchInput_value s) (clearButton_display s) (userGrid s)
          (noResultsMessage s) cs (focused s).

Definition set_clearButton (d : string) (s : state) : state :=
  mkState (searchInput_value s) d (userGrid s) (noResultsMessage s)
          (cards s) (focused s).

Definition set_noResults (b : bool) (s : state) : state :=
  mkState (searchInput_value s) (clearButton_display s) (userGrid s) b
          (cards s) (focused s).

Definition isMatch (searchTerm : string) (c : card) : bool :=
  UserSearch.fuzzyMatch_string (toLowerCase (userName c)) searchTerm
  || UserSearch.fuzzyMatch_string (toLowerCase (userFirst c)) searchTerm
  || UserSearch.fuzzyMatch_string (toLowerCase (userLast c)) searchTerm.

(** The [forEach] of [filterCards], from a given [visibleCount]; it returns
    the cards and the count at the end. *)
Fixpoint filter_from (visibleCount : nat) (searchTerm : string)
    (cs : list card) : list card * nat :=
  match cs with
  | [] => ([], visibleCount)
  | c :: cs' =>
      if isMatch searchTerm c then
        let c' := mkCard (userName c) (userFirst c) (userLast c) false
                         (Some visibleCount) in
        let r := filter_from (S visibleCount) searchTerm cs' in
        (c' :: r.1, r.2)
      else
        let c' := mkCard (userName c) (userFirst c) (userLast c) true
                         (animationDelay c) in
        let r := filter_from visibleCount searchTerm cs' in
        (c' :: r.1, r.2)
  end.

(** [toggleNoResultsMessage(show)]; creating the message appends it to the
    grid, which throws where the grid is missing. *)
Definition toggleNoResultsMessage (show : bool) : Eff.M state unit :=
  do present <- Eff.gets noResultsMessage ;
  if show && negb present then
    do grid <- Eff.gets userGrid ;
    if grid then Eff.modify (set_noResults true) else Eff.throw
  else if negb show && present then Eff.modify (set_noResults false)
  else Eff.ret tt.

Definition filterCards (searchTerm : string) : Eff.M state unit :=
  do cs <- Eff.gets cards ;
  let r := filter_from 0 searchTerm cs in
  Eff.modify (set_cards r.1) ;;
  toggleNoResultsMessage (Nat.eqb r.2 0).

(** The [forEach] of [showAllCards], from a given index. *)
Fixpoint show_from (index : nat) (cs : list card) : list card :=
  match cs with
  | [] => []
  | c :: cs' =>
      mkCard (userName c) (userFirst c) (userLast c) false (Some index)
      :: show_from (S index) cs'
  end.

Definition showAllCards : Eff.M state unit :=
  Eff.modify (fun s => set_cards (show_from 0 (cards s)) s).

(** [getVisibleCards()] *)
Definition getVisibleCards (s : state) : list card :=
  filter (fun c => hidden c = false) (cards s).

(** [handleSearch(query)]; [updateResultsCount] does nothing. *)
Definition handleSearch (query : string) : Eff.M state unit :=
  let searchTerm := Text.trim (toLowerCase query) in
  if String.eqb searchTerm "" then
    showAllCards ;;
    Eff.modify (set_clearButton "none") ;;
    toggleNoResultsMessage false
  else
    filterCards searchTerm ;;
    Eff.modify (set_clearButton "block").

(** The user edits the field so that it holds [value]; the input event
    then calls [handleSearch] with it. *)
Definition input (value : string) : Eff.M state unit :=
  Eff.modify (fun s =>
    mkState value (clearButton_display s) (userGrid s) (noResultsMessage s)
            (cards s) (focused s)) ;;
  handleSearch value.

Definition clearSearch : Eff.M state unit :=
  Eff.modify (fun s =>
    mkState "" (clearButton_display s) (userGrid s) (noResultsMessage s)
            (cards s) (focused s)) ;;
  showAllCards ;;
  Eff.modify (set_clearButton "none") ;;
  toggleNoResultsMessage false ;;
  Eff.modify (fun s =>
    mkState (searchInput_value s) (clearButton_display s) (userGrid s)
            (noResultsMessage s) (cards s) (S (focused s))).

Definition handleKeydown (key : string) : Eff.M state unit :=
  if String.eqb key "Escape" then clearSearch else Eff.ret tt.

End UserSearchPage.

(** ** The buttons of the consumption page *)

Module QuantityButtons.
Import BeverageConsumption.
Local Open Scope eff_scope.

(** The two quantity buttons of a card. They are the elements that
    [updateQuantityDisplay] finds by their [data-action]; the listener is
    attached to them through their class [quantity-btn]. *)
Inductive button := Decrease | Increase.

Definition action (b : button) : string :=
  match b with Decrease => "decrease" | Increase => "increase" end.

(** A pending [setTimeout] of the click listener: the card, the button and
    the [originalDisabled] it has captured. *)
Record timer := mkTimer {
  timer_card : string;
  timer_button : button;
  originalDisabled : bool
}.

Record state := mkState {
  page : BeverageConsumption.state;
  timers : list timer
}.

Definition disabled (b : button) (c : card) : option bool :=
  match b with
  | Decrease => decrease_disabled c
  | Increase => increase_disabled c
  end.

(** [button.disabled = d], for a button that exists. *)
Definition set_disabled (b : button) (d : bool) (c : card) : card :=
  match b with
  | Decrease =>
      mkCard (quantity_display c)
             (match decrease_disabled c with
              | Some _ => Some d | None => None end)
             (increase_disabled c) (increase_originally_disabled c)
  | Increase =>
      mkCard (quantity_display c) (decrease_disabled c)
             (match increase_disabled c with
              | Some _ => Some d | None => None end)
             (increase_originally_disabled c)
  end.

Definition set_button (beverageId : string) (b : button) (d : bool)
  : Eff.M state unit :=
  Eff.modify (fun s =>
    mkState
      (BeverageConsumption.mkState (order (page s))
         (match cards (page s) !! beverageId with
          | Some c => <[beverageId := set_disabled b d c]> (cards (page s))
          | None => cards (page s)
          end))
      (timers s)).

(** A method of the page object runs. *)
Definition on_page {A} (m : Eff.M BeverageConsumption.state A)
  : Eff.M state A :=
  fun s =>
    match m (page s) with
    | Eff.Ret a p => Eff.Ret a (mkState p (timers s))
    | Eff.Throw p => Eff.Throw (mkState p (timers s))
    end.

(** The click listener of a quantity button, for a click on button [b] of
    the card [beverageId]. Without such a button there is no click. *)
Definition click (beverageId : string) (b : button) : Eff.M state unit :=
  do c <- Eff.gets (fun s => cards (page s) !! beverageId) ;
  match c with
  | None => Eff.ret tt
  | Some c =>
      match disabled b c with
      | None => Eff.ret tt
      | Some true => Eff.ret tt       (* if (e.currentTarget.disabled) return *)
      | Some false =>
          if String.eqb beverageId "" then Eff.ret tt
          else
            (* const originalDisabled = button.disabled, read after the
               check above has let an enabled button through *)
            let originalDisabled := false in
            set_button beverageId b true ;;
            on_page (updateQuantity beverageId (action b)) ;;
            Eff.modify (fun s =>
              mkState (page s)
                      (timers s
                       ++ [mkTimer beverageId b originalDisabled])%list)
      end
  end.

(** The callback of the timer, 300ms later. *)
Definition timer_fires (t : timer) : Eff.M state unit :=
  if negb (originalDisabled t)
  then set_button (timer_card t) (timer_button t) false
  else Eff.ret tt.

(** [Array.from(this.order.values()).some(qty => qty > 0)] *)
Definition hasItems (s : BeverageConsumption.state) : bool :=
  existsb (fun qty => 0 <? qty) (map_to_list (order s)).*2.

Inductive done := GoHome | ShowConfirmationModal.

(** [handleDoneClick]: to the index page, or the confirmation modal. *)
Definition handleDoneClick (s : BeverageConsumption.state) : done :=
  if negb (hasItems s) then GoHome else ShowConfirmationModal.

End QuantityButtons.

(** ** The other handlers of the PIN overlays *)

Module PinKeys.

(** [value.replace(/[^0-9]/g, '')] *)
Fixpoint digits_only (s : string) : string :=
  match s with
  | EmptyString => EmptyString
  | String c s' =>
      if Text.is_digit c then String c (digits_only s') else digits_only s'
  end.

End PinKeys.

Module PinManagementHandlers.
Import Pin PinManagement.
Local Open Scope eff_scope.

Definition set_input (value : string) : Eff.M state unit :=
  Eff.modify (fun s =>
    mkState value (pinSubmit_disabled s) (pinSubmit_innerHTML s)
            (pinError_text s) (pinError_display s) (pinOverlay_display s)
            (pinOverlay_animation s) (body_overflow s) (userId s)
            (timeouts s) (effects s)).

(** [handleInput(e)]; the target of the event is the PIN field. *)
Definition handleInput : Eff.M state unit :=
  do value <- Eff.gets pinInput_value ;
  set_input (PinKeys.digits_only value).

(** The user edits the field so that it holds [value]; the browser then
    fires the input event. *)
Definition input (value : string) : Eff.M state unit :=
  set_input value ;; handleInput.

Definition showCreatePinOverlay : Eff.M state unit :=
  Eff.modify (fun s =>
    mkState "" (pinSubmit_disabled s) (pinSubmit_innerHTML s)
            (pinError_text s) "none" "flex"
            (pinOverlay_animation s) (body_overflow s) (userId s)
            (timeouts s) (effects s)) ;;
  emit Focus ;;
  Eff.modify (fun s =>
    mkState (pinInput_value s) (pinSubmit_disabled s) (pinSubmit_innerHTML s)
            (pinError_text s) (pinError_display s) (pinOverlay_display s)
            (pinOverlay_animation s) "hidden" (userId s)
            (timeouts s) (effects s)).

Definition cancelPin : Eff.M state unit := hideOverlay.

(** [handleKeydown(e)] for [e.key]; [preventDefault] has no part in what is
    modelled. *)
Definition handleKeydown (key : string) : Eff.M state unit :=
  if String.eqb key "Enter" then submitPin
  else if String.eqb key "Escape" then cancelPin
  else Eff.ret tt.

End PinManagementHandlers.

Module PinAuthHandlers.
Import Pin PinAuth.
Local Open Scope eff_scope.

Definition set_input (value : string) : Eff.M state unit :=
  Eff.modify (fun s =>
    mkState value (pinError_text s) (pinError_display s)
            (pinOverlay_display s) (pinUserInfo_text s) (body_overflow s)
            (currentUser s) (effects s)).

Definition handleInput : Eff.M state unit :=
  do value <- Eff.gets pinInput_value ;
  set_input (PinKeys.digits_only value).

Definition input (value : string) : Eff.M state unit :=
  set_input value ;; handleInput.

Definition handleKeydown (key : string) : Eff.M state unit :=
  if String.eqb key "Enter" then submitPin
  else if String.eqb key "Escape" then hideOverlay
  else Eff.ret tt.

End PinAuthHandlers.

(** ** UserClickHandler: a click on a user card *)

Module UserClickHandler.
Local Open Scope eff_scope.

(** The longest run of digits at the head of [s]: what [(\d+)] captures. *)
Fixpoint digit_run (s : string) : string :=
  match s with
  | String c s' => if Text.is_digit c then String c (digit_run s') else ""
  | EmptyString => ""
  end.

(** [href.match(/user_id=(\d+)/)]: the capture of the leftmost match. *)
Fixpoint match_user_id (href : string) : option string :=
  match href with
  | EmptyString => None
  | String _ rest =>
      match Text.strip_prefix "user_id=" href with
      | Some tail =>
          if String.eqb (digit_run tail) "" then match_user_id rest
          else Some (digit_run tail)
      | None => match_user_id rest
      end
  end.

Definition digit_value (c : ascii) : Z := Z.of_N (Text.code c) - 48.

(** [parseInt] on a string of digits, reading from the left; the number is
    exact below 2^53. *)
Fixpoint parseInt_from (acc : Z) (digits : string) : Z :=
  match digits with
  | EmptyString => acc
  | String c rest => parseInt_from (acc * 10 + digit_value c) rest
  end.

Definition parseInt (digits : string) : Z := parseInt_from 0 digits.

Definition extractUserIdFromHref (href : string) : JS.value :=
  match match_user_id href with
  | Some digits => JS.Num (parseInt digits)
  | None => JS.Null
  end.

Inductive event :=
| FetchCheck (user_id : JS.value)     (* POST /check_user_pin *)
| LocationAssign (href : string).     (* window.location.href = href *)

(** The handler owns the PIN overlay. *)
Record state := mkState {
  pinAuth : PinAuth.state;
  effects : list event
}.

Definition emit (e : event) : Eff.M state unit :=
  Eff.modify (fun s => mkState (pinAuth s) (effects s ++ [e])%list).

(** A method of [this.pinAuth] runs on the overlay. *)
Definition on_pinAuth {A} (m : Eff.M PinAuth.state A) : Eff.M state A :=
  fun s =>
    match m (pinAuth s) with
    | Eff.Ret a p => Eff.Ret a (mkState p (effects s))
    | Eff.Throw p => Eff.Throw (mkState p (effects s))
    end.

(** The JSON of the answer: [null], or something with [success] and
    [has_pin]. *)
Inductive json :=
| JsonNull
| JsonFields (success has_pin : JS.value).

Inductive settled :=
| Failed
| Response (ok : bool) (body : option json).

(** [handleUserClick] up to its [await], for a card with this [href]
    inside a container that carries [data-user-name]. *)
Definition handleUserClick (href : string) : Eff.M state unit :=
  emit (FetchCheck (extractUserIdFromHref href)).

(** The rest of [handleUserClick], run when the request has ended. *)
Definition handleUserClick_settled (href userName : string) (r : settled)
  : Eff.M state unit :=
  let userId := extractUserIdFromHref href in
  Eff.try_catch
    (match r with
     | Failed | Response _ None | Response _ (Some JsonNull) => Eff.throw
     | Response ok (Some (JsonFields success has_pin)) =>
         if ok && JS.truthy success then
           if JS.truthy has_pin
           then on_pinAuth (PinAuth.showPinForUser userId userName)
           else emit (LocationAssign href)
         else emit (LocationAssign href)
     end)
    (emit (LocationAssign href)).

End UserClickHandler.

(** ** Vocabulary of the properties *)

Module Spec.
Import Page.

(** The number of units of [pattern] that one left-to-right pass over
    [text] consumes, taking the first occurrence each time. *)
Fixpoint consumed {A} `{EqDecision A} (text pattern : list A) : nat :=
  match text, pattern with
  | c :: text', d :: pattern' =>
      if decide (c = d) then S (consumed text' pattern')
      else consumed text' pattern
  | _, _ => O
  end.

(** A token: non-empty and free of ASCII whitespace. *)
Definition token (t : string) : Prop :=
  t ≠ "" ∧ Text.existsb_str Text.is_ascii_whitespace t = false.

(** A theme name is an identifier, such as "coffee" or "winter": a token. *)
Definition theme_name (t : string) : Prop := token t.

(** The theme [t] is the one shown: the root attribute carries it and the
    root has its class. *)
Definition applied (t : string) (s : state) : Prop :=
  Dom.data_theme (body s) = Some t
  ∧ ("theme-" +:+ t) ∈ Dom.classList (body s).

(** The state after [if(window.__THEME_DEBUG){ console.log(msg) }]. *)
Definition logged (msg : string) (s : state) : state :=
  if THEME_DEBUG s then set_effects (effects s ++ [ConsoleLog msg])%list s
  else s.

Definition console_log (e : event) : Prop := exists msg, e = ConsoleLog msg.

(** The body that [applyTheme] leaves for a theme name [t]: attribute
    written, former theme classes dropped, class of [t] added. *)
Definition themed (t : string) (b : Dom.body) : Dom.body :=
  let b1 := Dom.setAttribute_theme t b in
  let b2 := Dom.set_className (Text.drop_theme_classes (Dom.className b1)) b1 in
  Dom.set_className
    (Text.join_sp (Dom.ordered_append (Dom.classList b2) ("theme-" +:+ t))) b2.

(** The state after one more effect. *)
Definition note (e : event) (s : state) : state :=
  set_effects (effects s ++ [e])%list s.

(** The state after the client has recorded version [v] and theme name [t]
    and has applied [t]. *)
Definition shown (t : string) (v : JS.value) (s : state) : state :=
  logged "[theme] applied"
    (set_body (themed t (body s))
       (set_currentTheme (JS.Str t) (set_currentVersion v s))).

(** The effects that happened between [s] and a later state [s']. *)
Definition emitted (s s' : state) : list event :=
  drop (List.length (effects s)) (effects s').

(** Leaving the page: a reload or a navigation. *)
Definition navigation (e : event) : bool :=
  match e with
  | LocationReload | LocationReplace _ => true
  | _ => false
  end.

(** The two ways a theme message reaches the client. *)
Inductive path :=
| ViaSSE (now : Z)                    (* a "theme" event, handled at [now] *)
| ViaPoll.                            (* the answer to a poll *)

Inductive channel := SSE | Poll.

Definition via (c : channel) (now : Z) : path :=
  match c with SSE => ViaSSE now | Poll => ViaPoll end.

(** A message [{success, theme, version}] arrives on a path. *)
Definition receive (p : path) (success theme version : JS.value)
    (s : state) : state :=
  match p with
  | ViaSSE now =>
      Eff.run (ThemeClient.onThemeEvent now
                 (Parsed (JsonFields success theme version))) s
  | ViaPoll =>
      Eff.run (ThemeClient.fetchTheme_settled
                 (ThemeClient.Received
                    (Parsed (JsonFields success theme version)))) s
  end.

(** A theme message on the path: the poll answers carry a true [success];
    the events of the push channel are [{theme, version}] and are not
    tested for it. *)
Definition theme_message (p : path) (success : JS.value) : Prop :=
  match p with
  | ViaSSE _ => True
  | ViaPoll => JS.truthy success = true
  end.

(** The quantity a call of the order counter is to store, given the
    current one. *)
Definition stored (action : string) (q : Z) : Z :=
  if decide (action = "increase") then q + 1
  else if decide (action = "decrease" ∧ 0 < q) then q - 1
  else q.

(** Exactly four decimal digits. *)
Definition four_digits (pin : string) : Prop :=
  String.length pin = 4%nat ∧ Text.forallb_str Text.is_digit pin = true.

(** The requests that a PIN overlay made between two states of its list of
    effects. *)
Definition requests_made (before after : list Pin.event) : list Pin.event :=
  filter (fun e => Pin.is_request e = true) (drop (List.length before) after).

End Spec.

(** ** Vocabulary for runs of the theme client *)

Module Runs.
Import Page.

(** [applyTheme] completes on this value: there is nothing to apply, or the
    class token built from it is accepted by [classList.add]. *)
Definition applies (theme : JS.value) : bool :=
  negb (JS.truthy theme)
  || negb (Text.existsb_str Text.is_ascii_whitespace (JS.to_string theme)).

(** The number of reloads among some effects. *)
Definition reloads (es : list event) : nat :=
  List.length (filter (fun e => e = LocationReload) es).

(** The answers [{success: true, theme, version}] of successive polls, each
    handled by [fetchTheme]. *)
Definition poll_run (answers : list (string * JS.value)) (s : state) : state :=
  fold_left
    (fun s a => Spec.receive Spec.ViaPoll (JS.Bool true) (JS.Str a.1) a.2 s)
    answers s.

(** The answer to [selectTheme] does not carry an accepted change: the
    request fails, is redirected to the login page, cannot be parsed, is
    [null], or has a false [success]. *)
Definition refused (r : ThemeSwitcher.answered) : bool :=
  match r with
  | ThemeSwitcher.Answered (Parsed (JsonFields success _ _)) =>
      negb (JS.truthy success)
  | _ => true
  end.

(** The ordered set of some tokens, as [classList] builds it. *)
Definition ordered_set (tokens : list string) : list string :=
  fold_left Dom.ordered_append tokens [].

(** What is left of the class tokens of an attribute value when each one's
    matches of [/theme-\w+/] are dropped; tokens that vanish are left out. *)
Definition remaining_classes (className : string) : list string :=
  filter (fun r => r ≠ "")
         (Text.drop_theme_classes <$> Text.split_ws className).

(** A name made of word characters only. *)
Definition word_name (t : string) : Prop :=
  t ≠ "" ∧ Text.forallb_str Text.is_word t = true.

(** What a theme handler may emit: lines on the console and a reload. *)
Definition handler_effect (e : event) : Prop :=
  Spec.console_log e ∨ e = ConsoleWarn "Bad theme event payload"
  ∨ e = LocationReload.

End Runs.

(** ** Vocabulary for the theme that the page shows *)

Module Look.
Import Page.

(** The class of a theme whose name is made of word characters. *)
Definition theme_class (c : string) : Prop :=
  exists w, Runs.word_name w ∧ c = "theme-" +:+ w.

(** A class without theme part: the text "theme-" does not occur in it. *)
Definition plain (c : string) : Prop :=
  forall a b : string, c ≠ a +:+ "theme-" +:+ b.

(** Every class of the body is a plain one or the class of a theme. *)
Definition tidy (b : Dom.body) : Prop :=
  Forall (fun c => plain c ∨ theme_class c) (Dom.classList b).

(** The body [after] shows the theme [t] in place of what [before] showed:
    the root attribute holds [t] and the class of [t] is there; and where
    [before] was tidy, the classes are the plain classes of [before] and the
    class of [t], so that no class of another theme is left. *)
Definition switched_to (t : string) (before after : Dom.body) : Prop :=
  Dom.data_theme after = Some t
  ∧ ("theme-" +:+ t) ∈ Dom.classList after
  ∧ (tidy before ->
     forall c, c ∈ Dom.classList after
               ↔ (c ∈ Dom.classList before ∧ plain c) ∨ c = "theme-" +:+ t).

(** The handler of the path has nothing to compare a message with: the
    listener of the push channel has not handled an event, [fetchTheme]
    finds no version recorded. *)
Definition first_for (p : Spec.path) (s : state) : Prop :=
  match p with
  | Spec.ViaSSE _ => initialized s = false
  | Spec.ViaPoll => currentVersion s = JS.Null
  end.

(** A theme change made in this window: the answer
    [{success, theme, version}] to [selectTheme], the [Date.now()] read
    inside [__setLocalTheme] and the one stored in
    [window.__LAST_THEME_SET]. *)
Record local_change := mkChange {
  change_nowSet : Z;
  change_nowRec : Z;
  change_success : JS.value;
  change_theme : string;
  change_version : JS.value
}.

(** The version that the setter records for the change. *)
Definition recorded (l : local_change) : JS.value :=
  if JS.truthy (change_version l) then change_version l
  else JS.Str (JS.to_string (JS.Num (change_nowSet l))).

Definition change (l : local_change) (s : state) : state :=
  Eff.run
    (ThemeSwitcher.selectTheme_settled (change_nowSet l) (change_nowRec l)
       (ThemeSwitcher.Answered
          (Parsed (JsonFields (change_success l) (JS.Str (change_theme l))
                              (change_version l))))) s.

(** Attempts of the admin to change the theme in this window, one after
    the other: each one the [Date.now()] read inside [__setLocalTheme], the
    one stored in [window.__LAST_THEME_SET], and how the request of
    [selectTheme] ended. *)
Definition attempt : Type := Z * Z * ThemeSwitcher.answered.

Definition attempts (tries : list attempt) (s : state) : state :=
  fold_left
    (fun s a => Eff.run (ThemeSwitcher.selectTheme_settled a.1.1 a.1.2 a.2) s)
    tries s.

(** Messages [(path, success, theme)] that all carry the version [v],
    handled one after the other. *)
Definition receive_all (v : JS.value)
    (ms : list (Spec.path * JS.value * JS.value)) (s : state) : state :=
  fold_left (fun s m => Spec.receive m.1.1 m.1.2 m.2 v s) ms s.

End Look.

(** ** Vocabulary for the PIN overlays and the user cards *)

Module Flows.

(** What a list of effects has gained. *)
Definition added {A} (before after : list A) : list A :=
  drop (List.length before) after.

(** The server confirmed the PIN: an OK response whose JSON has a true
    [success]. *)
Definition confirmed (r : Pin.settled) : bool :=
  match r with
  | Pin.Response true (Some (Pin.JsonFields success _)) => JS.truthy success
  | _ => false
  end.

(** The server said that the user has a PIN. *)
Definition needs_pin (r : UserClickHandler.settled) : bool :=
  match r with
  | UserClickHandler.Response true
      (Some (UserClickHandler.JsonFields success has_pin)) =>
      JS.truthy success && JS.truthy has_pin
  | _ => false
  end.

(** The card shows the quantity [q]: its display holds the numeral, and
    its decrease button, if there is one, is disabled exactly at zero. *)
Definition in_sync (q : Z) (c : BeverageConsumption.card) : Prop :=
  BeverageConsumption.quantity_display c = Some (JS.to_string (JS.Num q))
  ∧ forall d, BeverageConsumption.decrease_disabled c = Some d ->
              d = (q =? 0).

(** The card after [updateQuantityDisplay] has written [q] to it. *)
Definition refreshed (q : Z) (c : BeverageConsumption.card)
  : BeverageConsumption.card :=
  BeverageConsumption.mkCard
    (Some (JS.to_string (JS.Num q)))
    (match BeverageConsumption.decrease_disabled c with
     | Some _ => Some (q =? 0)
     | None => None
     end)
    (match BeverageConsumption.increase_disabled c with
     | Some d =>
         if BeverageConsumption.increase_originally_disabled c
         then Some d else Some false
     | None => None
     end)
    (BeverageConsumption.increase_originally_disabled c).

(** Two cards of the user grid stand for the same person. *)
Definition same_person (c c' : UserSearchPage.card) : Prop :=
  UserSearchPage.userName c = UserSearchPage.userName c'
  ∧ UserSearchPage.userFirst c = UserSearchPage.userFirst c'
  ∧ UserSearchPage.userLast c = UserSearchPage.userLast c'.

(** [term] occurs in [field], letter case apart, as a subsequence. *)
Definition occurs_in (term field : string) : Prop :=
  sublist (list_ascii_of_string term)
          (list_ascii_of_string (UserSearchPage.toLowerCase field)).

(** The search term is found in one of the three names of the card. *)
Definition found (term : string) (c : UserSearchPage.card) : Prop :=
  occurs_in term (UserSearchPage.userName c)
  ∨ occurs_in term (UserSearchPage.userFirst c)
  ∨ occurs_in term (UserSearchPage.userLast c).

(** The animation delays 0, 1, 2, ... in steps of 0.1s. *)
Definition staggered (cs : list UserSearchPage.card) : Prop :=
  UserSearchPage.animationDelay <$> cs = Some <$> seq 0 (List.length cs).

(** The page of a user's entries, as a path. *)
Definition entries_path (n : Z) : string :=
  "/entries?user_id=" +:+ JS.to_string (JS.Num n).

End Flows.

(** * Proofs *)

(** ** The embedding on concrete inputs *)

Example drop_theme_classes_example :
  Text.drop_theme_classes "page theme-coffee my-theme-x_1-y theme- z"
  = "page  my--y theme- z".
Proof. reflexivity. Qed.

Example classList_example :
  Dom.classList (Dom.mkBody None "  a  theme-coffee b a ")
  = ["a"; "theme-coffee"; "b"].
Proof. reflexivity. Qed.

Example classList_add_example :
  Dom.classList_add "theme-winter" (Dom.mkBody None "  a  b a ")
  = Some (Dom.mkBody None "a b theme-winter")
  ∧ Dom.classList_add "theme-dark blue" (Dom.mkBody None "a") = None.
Proof. split; reflexivity. Qed.

Example trim_example : Text.trim "  12 34  " = "12 34".
Proof. reflexivity. Qed.

Example rejected_example :
  Pin.rejected "1234" = false ∧ Pin.rejected "12a4" = true
  ∧ Pin.rejected "12345" = true ∧ Pin.rejected "123" = true.
Proof. repeat split; reflexivity. Qed.

Example fuzzyMatch_example :
  UserSearch.fuzzyMatch_string "hello world" "hlwd" = true
  ∧ UserSearch.fuzzyMatch_string "hello world" "hdw" = false.
Proof. split; reflexivity. Qed.

Example applyTheme_example :
  Eff.run (ThemeClient.applyTheme (JS.Str "winter"))
          (Page.fresh (Dom.mkBody (Some "coffee") "page theme-coffee") false)
  = Page.fresh (Dom.mkBody (Some "winter") "page theme-winter") false.
Proof. reflexivity. Qed.

Example setLocalTheme_without_version_example :
  Page.effects
    (Eff.run (ThemeClient.setLocalTheme 1700000000000 (JS.Str "winter")
                                        JS.Undefined)
             (Page.fresh (Dom.mkBody None "") false))
  = [Page.LocationReplace "1700000000000"].
Proof. reflexivity. Qed.

Example updateQuantity_example :
  BeverageConsumption.order
    (BeverageConsumption.updateQuantities
       [("7", "decrease"); ("7", "increase"); ("7", "increase");
        ("7", "decrease"); ("9", "reset")]
       (BeverageConsumption.init ∅))
  = {[ "7" := 1; "9" := 0 ]}.
Proof. vm_compute. reflexivity. Qed.

(** ** fuzzyMatch *)

Section FuzzyMatch.
Context {A : Type} `{EqDecision A}.
Implicit Types text pattern : list A.

Lemma consumed_nil_r text : Spec.consumed text [] = O.
Proof. by destruct text. Qed.

(** The loop invariant: what is still to be consumed from the two
    suffixes is added to [patternIdx]. *)
Lemma fuzzyLoop_consumed text pattern i j :
  UserSearch.fuzzyLoop text pattern i j
  = (j + Spec.consumed (drop i text) (drop j pattern))%nat.
Proof.
  funelim (UserSearch.fuzzyLoop text pattern i j).
  - destruct a as [Hi Hj].
    destruct (lookup_lt_is_Some_2 _ _ Hi) as [c Hc].
    destruct (lookup_lt_is_Some_2 _ _ Hj) as [d Hd].
    rewrite H, (drop_S _ _ _ Hc), (drop_S _ _ _ Hd), Hc, Hd.
    replace (textIdx + 1)%nat with (S textIdx) by lia.
    cbn [Spec.consumed].
    destruct (decide (Some c = Some d)) as [E|E];
      destruct (decide (c = d)) as [E'|E']; try congruence.
    + replace (patternIdx + 1)%nat with (S patternIdx) by lia. lia.
    + by rewrite (drop_S _ _ _ Hd).
  - assert (drop textIdx text = [] ∨ drop patternIdx pattern = []) as [E|E].
    { destruct (decide (textIdx < List.length text)%nat).
      - right. apply drop_ge. lia.
      - left. apply drop_ge. lia. }
    + rewrite E. simpl. lia.
    + rewrite E, consumed_nil_r. lia.
Qed.

(** The pass consumes the whole pattern exactly when the pattern is a
    subsequence of the text. *)
Lemma consumed_all_iff_sublist text pattern :
  Spec.consumed text pattern = List.length pattern ↔ sublist pattern text.
Proof.
  revert pattern. induction text as [|c text IH]; intros pattern.
  - destruct pattern; simpl.
    + split; [constructor | done].
    + split; [done | intros Hs; by apply sublist_nil_r in Hs].
  - destruct pattern as [|d pattern]; simpl.
    + split; [intros _; apply sublist_nil_l | done].
    + destruct (decide (c = d)) as [->|Hne].
      * split.
        -- intros E. apply sublist_skip, IH. lia.
        -- intros Hs. f_equal. apply IH.
           apply sublist_cons_r in Hs as [Hs | (l' & E & Hs)].
           ++ etrans; [apply sublist_cons | exact Hs]. reflexivity.
           ++ by injection E as ->.
      * rewrite (IH (d :: pattern)). simpl. split.
        -- apply sublist_cons.
        -- intros Hs.
           apply sublist_cons_r in Hs as [Hs | (l' & E & Hs)]; [done|].
           congruence.
Qed.

End FuzzyMatch.

(** C8. [fuzzyMatch(text, pattern)] is true exactly when [pattern] is a
    subsequence of [text] (its units occur in [text] in order, gaps allowed);
    hence the empty pattern matches every text and a pattern longer than the
    text matches none. *)
Theorem fuzzyMatch_subsequence :
  forall (A : Type) (dec : EqDecision A),
    (forall text pattern : list A,
        UserSearch.fuzzyMatch text pattern = true ↔ sublist pattern text)
    ∧ (forall text : list A, UserSearch.fuzzyMatch text [] = true)
    ∧ (forall text pattern : list A,
          (List.length text < List.length pattern)%nat ->
          UserSearch.fuzzyMatch text pattern = false).
Proof.
  intros A dec.
  assert (Hiff : forall text pattern : list A,
             UserSearch.fuzzyMatch text pattern = true ↔ sublist pattern text).
  { intros text pattern. unfold UserSearch.fuzzyMatch.
    rewrite bool_decide_eq_true, fuzzyLoop_consumed, !drop_0. simpl.
    apply consumed_all_iff_sublist. }
  split; [exact Hiff|]. split.
  - intros text. apply Hiff, sublist_nil_l.
  - intros text pattern Hlen.
    destruct (UserSearch.fuzzyMatch text pattern) eqn:E; [|done].
    apply Hiff, sublist_length in E. lia.
Qed.

(** The same on the strings of the page. *)
Lemma fuzzyMatch_subsequence_witness :
  UserSearch.fuzzyMatch_string "ab" "abc" = false.
Proof.
  apply (proj2 (proj2 (fuzzyMatch_subsequence ascii _))). simpl. lia.
Defined.

(** ** updateQuantity *)

Section OrderCounter.
Import BeverageConsumption Spec.

(** Whatever the display does, the map holds the new quantity. *)
Lemma updateQuantity_order beverageId action s :
  order (Eff.run (updateQuantity beverageId action) s)
  = <[beverageId := stored action (quantity s beverageId)]> (order s).
Proof.
  assert (E : (if String.eqb action "increase"
               then quantity s beverageId + 1
               else if String.eqb action "decrease"
                       && (0 <? quantity s beverageId)
                    then quantity s beverageId - 1
                    else quantity s beverageId)
              = stored action (quantity s beverageId)).
  { unfold stored.
    destruct (String.eqb_spec action "increase") as [Hi|Hi];
      destruct (String.eqb_spec action "decrease") as [Hd|Hd];
      destruct (Z.ltb_spec 0 (quantity s beverageId));
      destruct (decide (action = "increase"));
      destruct (decide (action = "decrease" ∧ 0 < quantity s beverageId));
      simpl; try reflexivity; try lia; try congruence; exfalso; tauto. }
  unfold updateQuantity, updateQuantityDisplay, Eff.run, Eff.bind, Eff.gets,
    Eff.modify, Eff.throw. fold (quantity s beverageId). rewrite E. simpl.
  destruct (cards s !! beverageId) as [c|]; simpl; [|done].
  by destruct (quantity_display c).
Qed.

Lemma stored_bounds action q n : 0 <= q <= n -> 0 <= stored action q <= n + 1.
Proof.
  unfold stored. intros Hq.
  destruct (decide (action = "increase")); [lia|].
  destruct (decide (action = "decrease" ∧ 0 < q)); lia.
Qed.

Lemma get_or_zero_bounds (m : gmap string Z) k n :
  0 <= n ->
  map_Forall (fun _ q => 0 <= q <= n) m -> 0 <= get_or_zero (m !! k) <= n.
Proof.
  intros Hn Hm. unfold get_or_zero. destruct (m !! k) as [q|] eqn:E; [|lia].
  destruct (q =? 0); [lia|]. exact (Hm k q E).
Qed.

Lemma updateQuantity_bounds beverageId action s n :
  0 <= n ->
  map_Forall (fun _ q => 0 <= q <= n) (order s) ->
  map_Forall (fun _ q => 0 <= q <= n + 1)
             (order (Eff.run (updateQuantity beverageId action) s)).
Proof.
  intros Hn Hm. rewrite updateQuantity_order.
  apply map_Forall_insert_2.
  - by apply stored_bounds, get_or_zero_bounds.
  - eapply map_Forall_impl; [exact Hm|]. simpl. intros _ q Hq. lia.
Qed.

(** Each call moves a quantity by one at most: after the calls the
    quantities lie between 0 and the number of calls made. *)
Lemma updateQuantities_bounds calls s n :
  0 <= n ->
  map_Forall (fun _ q => 0 <= q <= n) (order s) ->
  map_Forall (fun _ q => 0 <= q <= n + Z.of_nat (List.length calls))
             (order (updateQuantities calls s)).
Proof.
  revert s n. induction calls as [|[beverageId action] calls IH];
    intros s n Hn Hm.
  - simpl. eapply map_Forall_impl; [exact Hm|]. simpl. intros _ q Hq. lia.
  - cbn [updateQuantities fold_left List.length]. fold (updateQuantities calls).
    eapply map_Forall_impl.
    + apply (IH _ (n + 1)); [lia|]. by apply updateQuantity_bounds.
    + simpl. intros _ q Hq. lia.
Qed.

End OrderCounter.

(** C9. After any sequence of [updateQuantity] calls on the freshly
    constructed page, every quantity in the order map is a non-negative
    integer (and at most the number of calls made); and a further call
    stores under the beverage id, where [q] is what the map holds there
    before the call (0 when it holds nothing): [q + 1] for 'increase',
    [q - 1] for 'decrease' when [q] is strictly positive, and [q] itself
    otherwise, leaving the other entries alone. *)
Theorem updateQuantity_quantities_nonneg :
  forall (cs : gmap string BeverageConsumption.card)
         (calls : list (string * string)),
    let s := BeverageConsumption.updateQuantities
               calls (BeverageConsumption.init cs) in
    map_Forall (fun _ q => 0 <= q <= Z.of_nat (List.length calls))
               (BeverageConsumption.order s)
    ∧ forall beverageId action : string,
        let q := default 0 (BeverageConsumption.order s !! beverageId) in
        let s' := Eff.run (BeverageConsumption.updateQuantity beverageId action) s in
        BeverageConsumption.order s' !! beverageId
        = Some (if decide (action = "increase") then q + 1
                else if decide (action = "decrease" ∧ 0 < q) then q - 1
                else q)
        ∧ 0 <= q
        ∧ forall other : string,
            other ≠ beverageId ->
            BeverageConsumption.order s' !! other
            = BeverageConsumption.order s !! other.
Proof.
  intros cs calls s.
  assert (Hs : map_Forall (fun _ q => 0 <= q <= Z.of_nat (List.length calls))
                          (BeverageConsumption.order s)).
  { apply (updateQuantities_bounds calls _ 0); [lia|].
    simpl. apply map_Forall_empty. }
  split; [exact Hs|].
  intros beverageId action q s'. subst s'.
  assert (Hq : BeverageConsumption.quantity s beverageId = q).
  { subst q. unfold BeverageConsumption.quantity, BeverageConsumption.get_or_zero.
    destruct (BeverageConsumption.order s !! beverageId) as [q0|]; [|done].
    simpl. destruct (Z.eqb_spec q0 0); congruence. }
  rewrite updateQuantity_order, Hq. split; [|split].
  - by rewrite lookup_insert_eq.
  - rewrite <- Hq. by eapply get_or_zero_bounds; [|exact Hs]; lia.
  - intros other Hne. by rewrite lookup_insert_ne.
Qed.

(** ** submitPin *)

Section PinSubmission.
Import Pin Spec.

Lemma rejected_false_iff pin : rejected pin = false ↔ four_digits pin.
Proof.
  unfold rejected, four_digits.
  destruct pin as [|a [|b [|c [|d [|e r]]]]]; simpl;
    try (split; [done | by intros [? _]]).
  destruct (Text.is_digit a), (Text.is_digit b), (Text.is_digit c),
    (Text.is_digit d); simpl; split; (done || by intros [_ ?]).
Qed.

Lemma four_digits_nonempty pin : four_digits pin -> String.eqb pin "" = false.
Proof. intros [Hl _]. by destruct pin. Qed.

Lemma requests_made_nil es : requests_made es es = [].
Proof. unfold requests_made. by rewrite drop_all. Qed.

Lemma requests_made_one es e :
  is_request e = true -> requests_made es (es ++ [e]) = [e].
Proof.
  intros He. unfold requests_made. rewrite drop_app_length.
  rewrite filter_cons_True by done. done.
Qed.

(** The three ways the checks of [submitPin] come out. *)
Lemma submitPin_cases pin :
  (String.eqb pin "" = true ∧ ¬ four_digits pin)
  ∨ (String.eqb pin "" = false ∧ rejected pin = true ∧ ¬ four_digits pin)
  ∨ (String.eqb pin "" = false ∧ rejected pin = false ∧ four_digits pin).
Proof.
  destruct (rejected pin) eqn:Hr.
  - assert (¬ four_digits pin) by (rewrite <- rejected_false_iff; congruence).
    destruct (String.eqb pin ""); auto.
  - apply rejected_false_iff in Hr as Hf.
    right; right. auto using four_digits_nonempty.
Qed.

End PinSubmission.

(** C10. Both PIN submission handlers, creation ([PinManagement]) and
    verification ([PinAuth], with the overlay open for a user), send a request
    exactly when the trimmed input is four digits, and then it is the one
    request with that PIN; otherwise they show a validation message in the
    error element, make no request and leave the rest of the overlay's state
    as it was. *)
Theorem submitPin_request_iff_four_digits :
  (forall s : PinManagement.state,
      let pin := Text.trim (PinManagement.pinInput_value s) in
      let s' := Eff.run PinManagement.submitPin s in
      let made := Spec.requests_made (PinManagement.effects s)
                                     (PinManagement.effects s') in
      (made ≠ [] ↔ Spec.four_digits pin)
      ∧ (Spec.four_digits pin ->
         made = [Pin.Fetch "/create_user_pin" (PinManagement.userId s) pin])
      ∧ (¬ Spec.four_digits pin ->
         PinManagement.effects s' = PinManagement.effects s
         ∧ PinManagement.pinError_display s' = "flex"
         ∧ (PinManagement.pinError_text s' = "Please enter a PIN"
            ∨ PinManagement.pinError_text s' = "PIN must be exactly 4 digits")
         ∧ PinManagement.pinInput_value s' = PinManagement.pinInput_value s
         ∧ PinManagement.pinSubmit_disabled s' = PinManagement.pinSubmit_disabled s
         ∧ PinManagement.pinSubmit_innerHTML s' = PinManagement.pinSubmit_innerHTML s
         ∧ PinManagement.pinOverlay_display s' = PinManagement.pinOverlay_display s
         ∧ PinManagement.pinOverlay_animation s' = PinManagement.pinOverlay_animation s
         ∧ PinManagement.body_overflow s' = PinManagement.body_overflow s
         ∧ PinManagement.userId s' = PinManagement.userId s))
  ∧ (forall (s : PinAuth.state) (u : PinAuth.user),
        PinAuth.currentUser s = Some u ->
        let pin := Text.trim (PinAuth.pinInput_value s) in
        let s' := Eff.run PinAuth.submitPin s in
        let made := Spec.requests_made (PinAuth.effects s) (PinAuth.effects s') in
        (made ≠ [] ↔ Spec.four_digits pin)
        ∧ (Spec.four_digits pin ->
           made = [Pin.Fetch "/verify_pin" (PinAuth.id u) pin])
        ∧ (¬ Spec.four_digits pin ->
           PinAuth.effects s' = PinAuth.effects s
           ∧ PinAuth.pinError_display s' = "block"
           ∧ (PinAuth.pinError_text s' = "Please enter a PIN"
              ∨ PinAuth.pinError_text s' = "PIN must be exactly 4 digits")
           ∧ PinAuth.pinInput_value s' = PinAuth.pinInput_value s
           ∧ PinAuth.pinOverlay_display s' = PinAuth.pinOverlay_display s
           ∧ PinAuth.pinUserInfo_text s' = PinAuth.pinUserInfo_text s
           ∧ PinAuth.body_overflow s' = PinAuth.body_overflow s
           ∧ PinAuth.currentUser s' = PinAuth.currentUser s)).
Proof.
  split.
  - intros s pin s' made. subst s' made.
    unfold PinManagement.submitPin, Eff.run, Eff.bind, Eff.gets. fold pin.
    destruct (submitPin_cases pin) as [[E N]|[(E & R & N)|(E & R & F)]];
      rewrite E, ?R; simpl.
    + rewrite requests_made_nil. split; [split; done|]. split; [done|].
      intros _. repeat split; auto.
    + rewrite requests_made_nil. split; [split; done|]. split; [done|].
      intros _. repeat split; auto.
    + rewrite requests_made_one by done. split; [split; done|]. split; done.
  - intros s u Hu pin s' made. subst s' made.
    unfold PinAuth.submitPin, Eff.run, Eff.bind, Eff.gets. fold pin.
    destruct (submitPin_cases pin) as [[E N]|[(E & R & N)|(E & R & F)]];
      rewrite E, ?R; simpl.
    + rewrite requests_made_nil. split; [split; done|]. split; [done|].
      intros _. repeat split; auto.
    + rewrite requests_made_nil. split; [split; done|]. split; [done|].
      intros _. repeat split; auto.
    + unfold Eff.try_catch, PinAuth.currentUser_id, Eff.bind, Eff.gets.
      rewrite Hu. simpl.
      rewrite requests_made_one by done. split; [split; done|]. split; done.
Qed.

(** The overlay opened for user 7, with " 1234 " typed: one request. *)
Lemma submitPin_request_iff_four_digits_witness :
  let s := Eff.run (PinAuth.showPinForUser (JS.Num 7) "Ada")
             (PinAuth.mkState "" "" "none" "none" "" "" None []) in
  let s1 := PinAuth.mkState " 1234 " (PinAuth.pinError_text s)
              (PinAuth.pinError_display s) (PinAuth.pinOverlay_display s)
              (PinAuth.pinUserInfo_text s) (PinAuth.body_overflow s)
              (PinAuth.currentUser s) (PinAuth.effects s) in
  Spec.requests_made (PinAuth.effects s1)
                     (PinAuth.effects (Eff.run PinAuth.submitPin s1))
  = [Pin.Fetch "/verify_pin" (JS.Num 7) "1234"].
Proof.
  intros s s1.
  refine (proj1 (proj2 (proj2 submitPin_request_iff_four_digits s1
                          (PinAuth.mkUser (JS.Num 7) "Ada") _)) _).
  - reflexivity.
  - vm_compute. split; reflexivity.
Defined.

(** ** Class tokens *)

Section Tokens.
Import Text Spec.

Lemma append_nil (s : string) : "" +:+ s = s.
Proof. reflexivity. Qed.

Lemma append_cons c (t s : string) : String c t +:+ s = String c (t +:+ s).
Proof. reflexivity. Qed.

Lemma append_empty_r (t : string) : t +:+ "" = t.
Proof.
  induction t as [|c t IH]; [done|]. by rewrite append_cons, IH.
Qed.

Lemma append_assoc (a b c : string) : (a +:+ b) +:+ c = a +:+ (b +:+ c).
Proof.
  induction a as [|x a IH]; [done|]. by rewrite !append_cons, IH.
Qed.

Lemma eqb_empty_false (t : string) : t ≠ "" -> String.eqb t "" = false.
Proof. by destruct t. Qed.

Lemma existsb_str_append p (a b : string) :
  existsb_str p (a +:+ b) = existsb_str p a || existsb_str p b.
Proof.
  induction a as [|c a IH]; [done|].
  rewrite append_cons. simpl. by rewrite IH, orb_assoc.
Qed.

(** Reading a whitespace-free stretch only extends the current token. *)
Lemma split_ws_from_append cur t rest :
  existsb_str is_ascii_whitespace t = false ->
  split_ws_from cur (t +:+ rest) = split_ws_from (cur +:+ t) rest.
Proof.
  revert cur. induction t as [|c t IH]; intros cur Ht.
  - by rewrite append_nil, append_empty_r.
  - simpl in Ht. apply orb_false_iff in Ht as [Hc Ht].
    rewrite append_cons. simpl. rewrite Hc, IH by done.
    by rewrite append_assoc.
Qed.

Lemma split_ws_join (l : list string) :
  Forall token l -> split_ws (join_sp l) = l.
Proof.
  unfold split_ws. induction 1 as [|t l [Hne Ht] Hl IH]; [done|].
  destruct l as [|t' l].
  - simpl. rewrite <- (append_empty_r t) at 1.
    rewrite split_ws_from_append, append_nil by done. simpl.
    by rewrite eqb_empty_false.
  - change (join_sp (t :: t' :: l)) with
      (t +:+ String " " (join_sp (t' :: l))).
    rewrite split_ws_from_append, append_nil by done.
    cbn [split_ws_from]. change (is_ascii_whitespace " ") with true.
    cbn iota. by rewrite eqb_empty_false, IH.
Qed.

Lemma split_ws_from_tokens cur s :
  existsb_str is_ascii_whitespace cur = false ->
  Forall token (split_ws_from cur s).
Proof.
  revert cur. induction s as [|c s IH]; intros cur Hcur; simpl.
  - destruct (String.eqb_spec cur ""); constructor; [done | constructor].
  - destruct (is_ascii_whitespace c) eqn:Hc.
    + destruct (String.eqb_spec cur "").
      * by apply IH.
      * constructor; [done | by apply IH].
    + apply IH. by rewrite existsb_str_append, Hcur; simpl; rewrite Hc.
Qed.

Lemma ordered_append_tokens set t :
  Forall token set -> token t -> Forall token (Dom.ordered_append set t).
Proof.
  intros Hs Ht. unfold Dom.ordered_append. case_bool_decide; [done|].
  apply Forall_app; auto.
Qed.

Lemma fold_ordered_append_tokens l set :
  Forall token set -> Forall token l ->
  Forall token (fold_left Dom.ordered_append l set).
Proof.
  revert set. induction l as [|t l IH]; intros set Hs Hl; simpl; [done|].
  inversion Hl; subst. apply IH; [by apply ordered_append_tokens | done].
Qed.

Lemma classList_tokens b : Forall token (Dom.classList b).
Proof.
  unfold Dom.classList. apply fold_ordered_append_tokens; [constructor|].
  by apply split_ws_from_tokens.
Qed.

Lemma elem_of_ordered_append set t x :
  x ∈ Dom.ordered_append set t ↔ x ∈ set ∨ x = t.
Proof.
  unfold Dom.ordered_append. case_bool_decide.
  - split; [auto | intros [?| ->]; done].
  - rewrite elem_of_app, list_elem_of_singleton. done.
Qed.

Lemma elem_of_fold_ordered_append l set x :
  x ∈ fold_left Dom.ordered_append l set ↔ x ∈ set ∨ x ∈ l.
Proof.
  revert set. induction l as [|t l IH]; intros set; simpl.
  - rewrite elem_of_nil. tauto.
  - rewrite IH, elem_of_ordered_append, elem_of_cons. tauto.
Qed.

Lemma theme_class_token t : theme_name t -> token ("theme-" +:+ t).
Proof.
  intros [_ Hws]. split; [done|]. by rewrite existsb_str_append, Hws.
Qed.

End Tokens.

(** ** applyTheme *)

Section ApplyTheme.
Import Page Spec.

Lemma debug_log_logged msg s :
  debug_log msg s = Eff.Ret tt (logged msg s).
Proof. unfold debug_log, logged. by destruct (THEME_DEBUG s). Qed.

Lemma theme_name_truthy t : theme_name t -> JS.truthy (JS.Str t) = true.
Proof. intros [Hne _]. simpl. by rewrite eqb_empty_false. Qed.

(** For a theme name, [applyTheme] completes; it writes the body and the
    debug line, nothing else. *)
Lemma applyTheme_name t s :
  theme_name t ->
  ThemeClient.applyTheme (JS.Str t) s
  = Eff.Ret tt (logged "[theme] applied" (set_body (themed t (body s)) s)).
Proof.
  intros Ht. unfold ThemeClient.applyTheme.
  rewrite theme_name_truthy by done. cbn [negb JS.to_string].
  unfold Eff.bind, Eff.modify, Eff.gets. cbn [body set_body].
  destruct (theme_class_token t Ht) as [Hne Hws].
  unfold Dom.classList_add. rewrite eqb_empty_false, Hws by done.
  rewrite debug_log_logged. unfold themed. by destruct s.
Qed.

Lemma themed_applied t b :
  theme_name t ->
  Dom.data_theme (themed t b) = Some t
  ∧ ("theme-" +:+ t) ∈ Dom.classList (themed t b).
Proof.
  intros Ht. split; [done|].
  unfold themed. unfold Dom.classList at 1. cbn [Dom.className Dom.set_className].
  rewrite split_ws_join.
  - apply elem_of_fold_ordered_append. right.
    apply elem_of_ordered_append. by right.
  - apply ordered_append_tokens;
      [apply classList_tokens | by apply theme_class_token].
Qed.

(** For any value, [applyTheme] touches the body only and adds debug lines
    only, whether it completes or throws. *)
Lemma applyTheme_frame v s :
  exists b' logs,
    let s' := set_effects (effects s ++ logs)%list (set_body b' s) in
    (ThemeClient.applyTheme v s = Eff.Ret tt s'
     ∨ ThemeClient.applyTheme v s = Eff.Throw s')
    ∧ Forall console_log logs.
Proof.
  unfold ThemeClient.applyTheme.
  destruct (JS.truthy v); cbn [negb].
  - unfold Eff.bind, Eff.modify, Eff.gets, Eff.throw. cbn [body set_body].
    match goal with
    | |- context [Dom.classList_add ?tok ?b] =>
        destruct (Dom.classList_add tok b) as [b'|] eqn:E
    end.
    + exists b'. rewrite debug_log_logged. unfold logged. cbn.
      destruct (THEME_DEBUG s) eqn:D.
      * exists [ConsoleLog "[theme] applied"]. split; [left; destruct s; reflexivity|].
        repeat constructor. by eexists.
      * exists []. split; [|constructor].
        left. destruct s; cbn in *. by rewrite app_nil_r.
    + match type of E with
      | Dom.classList_add _ ?b = _ => exists b, []
      end.
      split; [|constructor].
      right. cbn. destruct s; cbn. by rewrite app_nil_r.
  - exists (body s), []. split; [|constructor].
    left. unfold Eff.ret. destruct s; cbn. by rewrite app_nil_r.
Qed.

Lemma strict_eq_iff a b : JS.strict_eq a b = true ↔ a = b.
Proof.
  destruct a as [| |x|x|x], b as [| |y|y|y]; simpl; try (split; done).
  - rewrite Bool.eqb_true_iff. split; congruence.
  - rewrite Z.eqb_eq. split; congruence.
  - rewrite String.eqb_eq. split; congruence.
Qed.

Lemma strict_eq_refl v : JS.strict_eq v v = true.
Proof. by apply strict_eq_iff. Qed.

Lemma strict_eq_ne a b : a ≠ b -> JS.strict_eq a b = false.
Proof.
  intros Hne. destruct (JS.strict_eq a b) eqn:E; [|done].
  by apply strict_eq_iff in E.
Qed.

Lemma emitted_app s s' l :
  effects s' = (effects s ++ l)%list -> emitted s s' = l.
Proof. intros E. unfold emitted. by rewrite E, drop_app_length. Qed.

Lemma emitted_refl s : emitted s s = [].
Proof. apply emitted_app. by rewrite app_nil_r. Qed.

Lemma console_log_not_navigation l :
  Forall console_log l -> Forall (fun e => navigation e = false) l.
Proof.
  intros Hl. eapply Forall_impl; [exact Hl|]. by intros e [msg ->].
Qed.

End ApplyTheme.

(** ** Theme messages: what each branch of the handlers does *)

#[local] Opaque ThemeClient.applyTheme.

(** Unfolds a handler down to its calls of [applyTheme]. *)
Ltac handler_unfold :=
  unfold Spec.receive, ThemeClient.onThemeEvent,
    ThemeClient.fetchTheme_settled, ThemeClient.fetchTheme_then,
    ThemeSwitcher.selectTheme_settled, ThemeClient.setLocalTheme,
    Eff.run, Eff.try_catch, Eff.bind, Eff.gets, Eff.modify, Eff.ret,
    Page.JSON_parse, Page.get_version, Page.get_theme, Page.get_success,
    Page.emit.

Section Branches.
Import Page Spec.
Variables (t : string) (Ht : theme_name t).

(** Rewrites with the equations of the context. *)
Ltac use_equations :=
  repeat match goal with
         | H : _ = _ |- _ => rewrite H; cbn
         end.

(** Runs a handler on a message whose theme is [t], in an explicit state. *)
Ltac branch :=
  handler_unfold; cbn; use_equations;
  try rewrite (applyTheme_name _ _ Ht); unfold shown, logged, note; cbn;
  use_equations; rewrite ?debug_log_logged; unfold logged; cbn;
  repeat match goal with
         | |- context [if ?b then _ else _] => destruct b; cbn
         end;
  try reflexivity.

Lemma sse_initial now success v s :
  initialized s = false ->
  receive (ViaSSE now) success (JS.Str t) v s
  = logged "[theme] initial SSE payload" (set_initialized true (shown t v s)).
Proof.
  destruct s as [ct cv ini src ivs b last [|] eff]; cbn; intros ->; branch.
Qed.

Lemma sse_version_change now success v s :
  initialized s = true ->
  v ≠ currentVersion s ->
  receive (ViaSSE now) success (JS.Str t) v s
  = if ThemeClient.justChanged now (LAST_THEME_SET s)
    then logged "[theme] version change but skip reload (originator)"
           (shown t v s)
    else note LocationReload
           (logged "[theme] version change reload" (shown t v s)).
Proof.
  destruct s as [ct cv ini src ivs b last [|] eff]; cbn; intros -> Hne;
    apply strict_eq_ne in Hne;
    destruct (ThemeClient.justChanged now last) eqn:Hj; branch.
Qed.

Lemma sse_theme_change now success s :
  initialized s = true ->
  JS.Str t ≠ currentTheme s ->
  receive (ViaSSE now) success (JS.Str t) (currentVersion s) s
  = shown t (currentVersion s) s.
Proof.
  destruct s as [ct cv ini src ivs b last [|] eff]; cbn; intros -> Hne;
    apply strict_eq_ne in Hne; pose proof (strict_eq_refl cv) as Hv; branch.
Qed.

Lemma sse_no_change now success v s :
  initialized s = true ->
  v = currentVersion s ->
  currentTheme s = JS.Str t ->
  receive (ViaSSE now) success (JS.Str t) v s = s.
Proof.
  destruct s as [ct cv ini src ivs b last [|] eff]; cbn; intros -> -> ->;
    pose proof (strict_eq_refl cv) as Hv;
    pose proof (String.eqb_refl t) as Hs; branch.
Qed.

Lemma poll_initial success v s :
  JS.truthy success = true ->
  currentVersion s = JS.Null ->
  receive ViaPoll success (JS.Str t) v s = shown t v s.
Proof.
  destruct s as [ct cv ini src ivs b last [|] eff]; cbn; intros Hm ->; branch.
Qed.

Lemma poll_version_change success v s :
  JS.truthy success = true ->
  currentVersion s ≠ JS.Null ->
  v ≠ currentVersion s ->
  receive ViaPoll success (JS.Str t) v s = note LocationReload (shown t v s).
Proof.
  destruct s as [ct cv ini src ivs b last [|] eff]; cbn; intros Hm Hn Hne;
    apply strict_eq_ne in Hn, Hne; branch.
Qed.

Lemma poll_theme_change success s :
  JS.truthy success = true ->
  currentVersion s ≠ JS.Null ->
  JS.Str t ≠ currentTheme s ->
  receive ViaPoll success (JS.Str t) (currentVersion s) s
  = shown t (currentVersion s) s.
Proof.
  destruct s as [ct cv ini src ivs b last [|] eff]; cbn; intros Hm Hn Hne;
    apply strict_eq_ne in Hn, Hne; pose proof (strict_eq_refl cv) as Hv;
    branch.
Qed.

Lemma poll_no_change success v s :
  JS.truthy success = true ->
  currentVersion s ≠ JS.Null ->
  v = currentVersion s ->
  currentTheme s = JS.Str t ->
  receive ViaPoll success (JS.Str t) v s = s.
Proof.
  destruct s as [ct cv ini src ivs b last [|] eff]; cbn; intros Hm Hn -> ->;
    apply strict_eq_ne in Hn; pose proof (strict_eq_refl cv) as Hv;
    pose proof (String.eqb_refl t) as Hs; branch.
Qed.

End Branches.

Section AfterBranches.
Import Page Spec.
Variables (t : string) (Ht : theme_name t).

(** The state after the first event of the push channel. *)
Lemma after_sse_initial v s :
  let s1 := logged "[theme] initial SSE payload"
              (set_initialized true (shown t v s)) in
  initialized s1 = true
  ∧ currentVersion s1 = v
  ∧ currentTheme s1 = JS.Str t
  ∧ LAST_THEME_SET s1 = LAST_THEME_SET s
  ∧ applied t s1
  ∧ exists l, effects s1 = (effects s ++ l)%list ∧ Forall console_log l.
Proof.
  destruct (themed_applied t (body s) Ht) as [Ha Hc].
  unfold shown, logged, applied. cbn.
  destruct (THEME_DEBUG s) eqn:E; cbn; rewrite ?E; cbn;
    (do 4 (split; [done|])); (split; [done|]).
  - exists [ConsoleLog "[theme] applied";
            ConsoleLog "[theme] initial SSE payload"].
    rewrite <- app_assoc. split; [done|]. repeat constructor; by eexists.
  - exists []. by rewrite app_nil_r.
Qed.

(** The state after recording and applying, as the other branches do. *)
Lemma after_shown v s :
  let s1 := shown t v s in
  initialized s1 = initialized s
  ∧ currentVersion s1 = v
  ∧ currentTheme s1 = JS.Str t
  ∧ LAST_THEME_SET s1 = LAST_THEME_SET s
  ∧ applied t s1
  ∧ exists l, effects s1 = (effects s ++ l)%list ∧ Forall console_log l.
Proof.
  destruct (themed_applied t (body s) Ht) as [Ha Hc].
  unfold shown, logged, applied. cbn.
  destruct (THEME_DEBUG s) eqn:E; cbn; rewrite ?E; cbn;
    (do 4 (split; [done|])); (split; [done|]).
  - exists [ConsoleLog "[theme] applied"].
    split; [done|]. repeat constructor; by eexists.
  - exists []. by rewrite app_nil_r.
Qed.

(** The state after a reload on the push channel. *)
Lemma after_sse_reload v s :
  let s1 := note LocationReload
              (logged "[theme] version change reload" (shown t v s)) in
  initialized s1 = initialized s
  ∧ currentVersion s1 = v
  ∧ currentTheme s1 = JS.Str t
  ∧ applied t s1
  ∧ exists l, effects s1 = (effects s ++ l ++ [LocationReload])%list
              ∧ Forall console_log l.
Proof.
  destruct (themed_applied t (body s) Ht) as [Ha Hc].
  unfold shown, logged, note, applied. cbn.
  destruct (THEME_DEBUG s) eqn:E; cbn; rewrite ?E; cbn;
    (do 3 (split; [done|])); (split; [done|]).
  - exists [ConsoleLog "[theme] applied";
            ConsoleLog "[theme] version change reload"].
    rewrite <- !app_assoc. split; [done|]. repeat constructor; by eexists.
  - by exists [].
Qed.

(** The state after a skipped reload on the push channel. *)
Lemma after_sse_skip v s :
  let s1 := logged "[theme] version change but skip reload (originator)"
              (shown t v s) in
  exists l, effects s1 = (effects s ++ l)%list ∧ Forall console_log l.
Proof.
  unfold shown, logged. cbn.
  destruct (THEME_DEBUG s) eqn:E; cbn; rewrite ?E; cbn.
  - exists [ConsoleLog "[theme] applied";
            ConsoleLog "[theme] version change but skip reload (originator)"].
    rewrite <- app_assoc. split; [done|]. repeat constructor; by eexists.
  - exists []. by rewrite app_nil_r.
Qed.

(** The state after a reload on polling. *)
Lemma after_poll_reload v s :
  let s1 := note LocationReload (shown t v s) in
  initialized s1 = initialized s
  ∧ currentVersion s1 = v
  ∧ currentTheme s1 = JS.Str t
  ∧ applied t s1
  ∧ exists l, effects s1 = (effects s ++ l ++ [LocationReload])%list
              ∧ Forall console_log l.
Proof.
  destruct (themed_applied t (body s) Ht) as [Ha Hc].
  unfold shown, logged, note, applied. cbn.
  destruct (THEME_DEBUG s) eqn:E; cbn; rewrite ?E; cbn;
    (do 3 (split; [done|])); (split; [done|]).
  - exists [ConsoleLog "[theme] applied"].
    rewrite <- !app_assoc. split; [done|]. repeat constructor; by eexists.
  - by exists [].
Qed.

End AfterBranches.

Lemma console_log_not_reload l :
  Forall Spec.console_log l -> Page.LocationReload ∉ l.
Proof.
  intros Hl Hin. rewrite Forall_forall in Hl.
  destruct (Hl _ Hin) as [msg E]. discriminate.
Qed.

Lemma justChanged_old now last :
  (forall l, last = Some l -> 500 <= now - l) ->
  ThemeClient.justChanged now last = false.
Proof.
  intros H. destruct last as [l|]; [|done]. cbn.
  specialize (H l eq_refl). apply andb_false_iff. right. lia.
Qed.

Lemma theme_name_coffee : Spec.theme_name "coffee".
Proof. split; [done | reflexivity]. Qed.

Lemma theme_name_winter : Spec.theme_name "winter".
Proof. split; [done | reflexivity]. Qed.

(** ** Fallback and failures *)

(** Computes [Spec.emitted] between two explicit states. *)
Ltac emitted_eval :=
  unfold Spec.emitted; cbn;
  first [ rewrite drop_app_length
        | rewrite <- ?app_assoc; rewrite drop_app_length
        | rewrite drop_all ];
  reflexivity.

(** C5. On load the client first opens the event source on "/events" and
    does not poll. If the constructor throws, or when the connection reports
    an error (the source is then closed), the client polls: one fetch of
    "/api/get-theme" at once and a timer of 4000ms whose ticks fetch again. *)
Theorem sse_first_then_polling_every_4s :
  forall (b : Dom.body) (debug : bool) (s : Page.state),
    let fetch := Page.FetchGet "/api/get-theme" in
    (* the subscription is attempted first *)
    Eff.run (ThemeClient.initSSE true) (Page.fresh b debug)
    = Spec.note (Page.EventSourceOpen "/events")
        (Page.set_es Page.SourceOpen (Page.fresh b debug))
    (* the constructor throws *)
    ∧ (let s' := Eff.run (ThemeClient.initSSE false) (Page.fresh b debug) in
       Page.es s' = Page.NoSource
       ∧ Page.effects s' = [fetch]
       ∧ Page.intervals s' = [4000]
       ∧ Page.effects (Eff.run (ThemeClient.interval_fires 4000) s')
         = [fetch; fetch])
    (* the connection errors, in any state of the client *)
    ∧ (let s' := Eff.run ThemeClient.es_onerror s in
       Page.es s' = Page.SourceClosed
       ∧ Spec.emitted s s' = [Page.EventSourceClose; fetch]
       ∧ Page.intervals s' = (Page.intervals s ++ [4000])%list
       ∧ Spec.emitted s' (Eff.run (ThemeClient.interval_fires 4000) s')
         = [fetch]).
Proof.
  intros b debug s fetch. split; [reflexivity|]. split.
  - repeat split; reflexivity.
  - destruct s as [ct cv ini src ivs bd last dbg eff].
    unfold ThemeClient.es_onerror, ThemeClient.initPolling,
      ThemeClient.interval_fires, ThemeClient.fetchTheme, Eff.run, Eff.bind,
      Eff.modify, Page.emit. cbn.
    split; [done|]. split; [emitted_eval|]. split; [done|].
    rewrite bool_decide_eq_true_2 by (apply elem_of_app; right; left).
    cbn. emitted_eval.
Qed.

(** C6. A failed poll (the request fails, its body is not JSON, or the JSON
    is [null]) ends without an exception and leaves the whole state as it
    was, timers included, so that each installed timer fetches again at its
    next tick. A bad payload on the push channel ends without an exception;
    it leaves one console warning and nothing else changed, the subscription
    included. A connection error of the push channel leaves the theme, the
    version and the document as they were and starts polling. Nothing of this
    reaches the user: no alert, no reload, no change of the document. *)
Theorem theme_errors_are_swallowed :
  forall (s : Page.state) (now : Z),
    let fetch := Page.FetchGet "/api/get-theme" in
    let warn := Page.ConsoleWarn "Bad theme event payload" in
    (* polling *)
    ThemeClient.fetchTheme_settled ThemeClient.NetworkFailed s = Eff.Ret tt s
    ∧ ThemeClient.fetchTheme_settled (ThemeClient.Received Page.Malformed) s
      = Eff.Ret tt s
    ∧ ThemeClient.fetchTheme_settled
        (ThemeClient.Received (Page.Parsed Page.JsonNull)) s
      = Eff.Ret tt s
    ∧ Forall (fun ms =>
                Eff.run (ThemeClient.interval_fires ms) s = Spec.note fetch s)
             (Page.intervals s)
    (* the push channel: a payload that does not parse, or is null *)
    ∧ ThemeClient.onThemeEvent now Page.Malformed s
      = Eff.Ret tt (Spec.note warn s)
    ∧ ThemeClient.onThemeEvent now (Page.Parsed Page.JsonNull) s
      = Eff.Ret tt (Spec.note warn s)
    (* the push channel: the connection fails *)
    ∧ (let s' := Eff.run ThemeClient.es_onerror s in
       Eff.throws (ThemeClient.es_onerror s) = false
       ∧ Page.currentTheme s' = Page.currentTheme s
       ∧ Page.currentVersion s' = Page.currentVersion s
       ∧ Page.body s' = Page.body s
       ∧ Spec.emitted s s' = [Page.EventSourceClose; fetch]
       ∧ Page.intervals s' = (Page.intervals s ++ [4000])%list).
Proof.
  intros s now fetch warn.
  split; [reflexivity|]. split; [reflexivity|]. split; [reflexivity|]. split.
  { apply Forall_forall. intros ms Hms.
    unfold Eff.run, ThemeClient.interval_fires.
    by rewrite bool_decide_eq_true_2. }
  split; [reflexivity|]. split.
  { unfold ThemeClient.onThemeEvent, Eff.try_catch, Eff.bind, Eff.gets. cbn.
    by destruct (Page.initialized s). }
  destruct s as [ct cv ini src ivs bd last dbg eff].
  unfold ThemeClient.es_onerror, ThemeClient.initPolling,
    ThemeClient.fetchTheme, Eff.run, Eff.bind, Eff.modify, Page.emit. cbn.
  (do 4 (split; [done|])). split; [emitted_eval | done].
Qed.

(** ** The local setter and the grace window *)

Section LocalSetter.
Import Page Spec.

(** Inside the grace window the listener of the push channel never
    reloads, whatever the event carries. *)
Lemma sse_no_reload_in_window now raw s :
  ThemeClient.justChanged now (LAST_THEME_SET s) = true ->
  LocationReload ∉ emitted s (Eff.run (ThemeClient.onThemeEvent now raw) s).
Proof.
  intros Hj.
  enough (exists l,
             effects (Eff.run (ThemeClient.onThemeEvent now raw) s)
             = (effects s ++ l)%list
             ∧ LocationReload ∉ l) as (l & E & Hl)
    by (by rewrite (emitted_app _ _ _ E)).
  assert (Hlogs : forall logs l,
             Forall console_log logs -> LocationReload ∉ l ->
             LocationReload ∉ (logs ++ l)%list).
  { intros logs l H1 H2. rewrite elem_of_app.
    intros [H|H]; [by eapply console_log_not_reload | done]. }
  assert (Hone : forall e, e ≠ LocationReload -> LocationReload ∉ [e]).
  { intros e He H. apply list_elem_of_singleton in H. congruence. }
  assert (Hnil : LocationReload ∉ @nil event) by apply not_elem_of_nil.
  (* the ways the list of effects grows *)
  assert (H0 : forall eff : list event,
             exists l, eff = (eff ++ l)%list ∧ LocationReload ∉ l).
  { intros eff. exists []. by rewrite app_nil_r. }
  assert (H1 : forall (eff : list event) e, e ≠ LocationReload ->
             exists l, (eff ++ [e])%list = (eff ++ l)%list
                       ∧ LocationReload ∉ l).
  { intros eff e He. exists [e]. auto. }
  assert (H2 : forall (eff logs : list event), Forall console_log logs ->
             exists l, (eff ++ logs)%list = (eff ++ l)%list
                       ∧ LocationReload ∉ l).
  { intros eff logs Hl. exists logs. split; [done|].
    by apply console_log_not_reload. }
  assert (H3 : forall (eff logs : list event) e,
             Forall console_log logs -> e ≠ LocationReload ->
             exists l, ((eff ++ logs) ++ [e])%list = (eff ++ l)%list
                       ∧ LocationReload ∉ l).
  { intros eff logs e Hl He. exists (logs ++ [e])%list.
    rewrite app_assoc. auto. }
  destruct s as [ct cv ini src ivs b last dbg eff]. cbn in Hj.
  handler_unfold. cbn.
  destruct raw as [|[|success th v]]; cbn.
  - by apply H1.
  - destruct ini; cbn; by apply H1.
  - destruct ini; cbn.
    + destruct (JS.strict_eq v cv); cbn.
      * destruct (JS.strict_eq th ct); cbn; [apply H0|].
        match goal with
        | |- context [ThemeClient.applyTheme ?x ?y] =>
            destruct (applyTheme_frame x y) as (b' & logs & [E|E] & Hl)
        end; rewrite E; cbn; [by apply H2 | by apply H3].
      * match goal with
        | |- context [ThemeClient.applyTheme ?x ?y] =>
            destruct (applyTheme_frame x y) as (b' & logs & [E|E] & Hl)
        end; rewrite E; cbn; [|by apply H3].
        rewrite Hj. cbn. rewrite debug_log_logged. unfold logged. cbn.
        destruct dbg; cbn; [by apply H3 | by apply H2].
    + match goal with
      | |- context [ThemeClient.applyTheme ?x ?y] =>
          destruct (applyTheme_frame x y) as (b' & logs & [E|E] & Hl)
      end; rewrite E; cbn; [|by apply H3].
      rewrite debug_log_logged. unfold logged. cbn.
      destruct dbg; cbn; [by apply H3 | by apply H2].
Qed.

End LocalSetter.

(** ** When a message reloads the page *)

Section Reload.
Import Page Spec.
Variables (t : string) (Ht : theme_name t).

Lemma poll_ignored success theme v s :
  JS.truthy success = false ->
  receive ViaPoll success theme v s = s.
Proof. intros Hs. handler_unfold. cbn. by rewrite Hs. Qed.

Lemma no_reload_among l s s' :
  effects s' = (effects s ++ l)%list -> Forall console_log l ->
  LocationReload ∉ emitted s s'.
Proof.
  intros E Hl. rewrite (emitted_app _ _ _ E).
  by apply console_log_not_reload.
Qed.

Lemma reload_among l s s' :
  effects s' = (effects s ++ l ++ [LocationReload])%list ->
  LocationReload ∈ emitted s s'.
Proof.
  intros E. rewrite (emitted_app _ _ _ E). apply elem_of_app. right. left.
Qed.

(** On the push channel: a reload exactly for a later event with another
    version outside the grace window. *)
Lemma sse_reload_iff now success v s :
  LocationReload ∈ emitted s (receive (ViaSSE now) success (JS.Str t) v s)
  ↔ initialized s = true
    ∧ v ≠ currentVersion s
    ∧ ThemeClient.justChanged now (LAST_THEME_SET s) = false.
Proof.
  destruct (initialized s) eqn:Hi.
  - destruct (decide (v = currentVersion s)) as [->|Hv].
    + destruct (decide (JS.Str t = currentTheme s)) as [Hc|Hc].
      * rewrite (sse_no_change t) by done. rewrite emitted_refl.
        split; [by intros ?%not_elem_of_nil | by intros (_ & ? & _)].
      * rewrite (sse_theme_change t Ht) by done.
        destruct (after_shown t Ht (currentVersion s) s)
          as (_ & _ & _ & _ & _ & l & He & Hl).
        split; [|by intros (_ & ? & _)].
        intros Hin. by apply (no_reload_among l) in Hin.
    + rewrite (sse_version_change t Ht) by done.
      destruct (ThemeClient.justChanged now (LAST_THEME_SET s)).
      * destruct (after_sse_skip t v s) as (l & He & Hl).
        split; [|by intros (_ & _ & ?)].
        intros Hin. by apply (no_reload_among l) in Hin.
      * destruct (after_sse_reload t Ht v s) as (_ & _ & _ & _ & l & He & Hl).
        split; [done|]. intros _. by apply (reload_among l).
  - rewrite (sse_initial t Ht) by done.
    destruct (after_sse_initial t Ht v s)
      as (_ & _ & _ & _ & _ & l & He & Hl).
    split; [|by intros (? & _)].
    intros Hin. by apply (no_reload_among l) in Hin.
Qed.

(** On polling: a reload exactly for an answer with another version than
    the recorded one; [window.__LAST_THEME_SET] is not consulted. *)
Lemma poll_reload_iff success v s :
  LocationReload ∈ emitted s (receive ViaPoll success (JS.Str t) v s)
  ↔ JS.truthy success = true
    ∧ currentVersion s ≠ JS.Null
    ∧ v ≠ currentVersion s.
Proof.
  destruct (JS.truthy success) eqn:Hs.
  - destruct (decide (currentVersion s = JS.Null)) as [Hn|Hn].
    + rewrite (poll_initial t Ht) by done.
      destruct (after_shown t Ht v s) as (_ & _ & _ & _ & _ & l & He & Hl).
      split; [|by intros (_ & ? & _)].
      intros Hin. by apply (no_reload_among l) in Hin.
    + destruct (decide (v = currentVersion s)) as [->|Hv].
      * destruct (decide (JS.Str t = currentTheme s)) as [Hc|Hc].
        -- rewrite (poll_no_change t) by done. rewrite emitted_refl.
           split; [by intros ?%not_elem_of_nil | by intros (_ & _ & ?)].
        -- rewrite (poll_theme_change t Ht) by done.
           destruct (after_shown t Ht (currentVersion s) s)
             as (_ & _ & _ & _ & _ & l & He & Hl).
           split; [|by intros (_ & _ & ?)].
           intros Hin. by apply (no_reload_among l) in Hin.
      * rewrite (poll_version_change t Ht) by done.
        destruct (after_poll_reload t Ht v s)
          as (_ & _ & _ & _ & l & He & Hl).
        split; [done|]. intros _. by apply (reload_among l).
  - rewrite poll_ignored by done. rewrite emitted_refl.
    split; [by intros ?%not_elem_of_nil | by intros (? & _)].
Qed.

End Reload.

(** C1. The polling path reloads inside the grace window. A polling client
    has recorded version "1"; the admin changes the theme in this window at
    time 1000, which records version "2" and the time of the change; 100ms
    later a poll answers with version "3" (another change on the server).
    The version differs and the local change is 100ms old, yet the page
    reloads. On the push channel the same event in the same situation does
    not reload. *)
Theorem poll_reloads_inside_grace_window :
  let page := Page.fresh (Dom.mkBody None "page") false in
  let change :=
    ThemeSwitcher.selectTheme_settled 1000 1000
      (ThemeSwitcher.Answered
         (Page.Parsed
            (Page.JsonFields (JS.Bool true) (JS.Str "winter") (JS.Str "2")))) in
  (* polling *)
  let s1 := Spec.receive Spec.ViaPoll (JS.Bool true)
              (JS.Str "coffee") (JS.Str "1") page in
  let s2 := Eff.run change s1 in
  let s3 := Spec.receive Spec.ViaPoll (JS.Bool true)
              (JS.Str "spring") (JS.Str "3") s2 in
  (* the push channel *)
  let q1 := Spec.receive (Spec.ViaSSE 500) JS.Undefined
              (JS.Str "coffee") (JS.Str "1") page in
  let q2 := Eff.run change q1 in
  let q3 := Spec.receive (Spec.ViaSSE 1100) JS.Undefined
              (JS.Str "spring") (JS.Str "3") q2 in
  Page.currentVersion s2 = JS.Str "2"
  ∧ Page.LAST_THEME_SET s2 = Some 1000
  ∧ ThemeClient.justChanged 1100 (Page.LAST_THEME_SET s2) = true
  ∧ Spec.emitted s2 s3 = [Page.LocationReload]
  ∧ Page.currentVersion q2 = JS.Str "2"
  ∧ Page.LAST_THEME_SET q2 = Some 1000
  ∧ Spec.emitted q2 q3 = [].
Proof. vm_compute. repeat split; reflexivity. Qed.

(** * Further properties of the scripts *)

(** ** The theme handlers on arbitrary messages *)

Section HandlerFrames.
Import Page Spec Runs.

(** [applyTheme] on any value: it completes exactly on the values that
    [applies] accepts; either way it touches the body only and adds debug
    lines only. *)
Lemma applyTheme_cases v s :
  (applies v = true
   ∧ exists b' logs,
       ThemeClient.applyTheme v s
       = Eff.Ret tt (set_effects (effects s ++ logs)%list (set_body b' s))
       ∧ Forall console_log logs)
  ∨ (applies v = false
     ∧ exists b', ThemeClient.applyTheme v s = Eff.Throw (set_body b' s)).
Proof.
  Local Transparent ThemeClient.applyTheme.
  unfold ThemeClient.applyTheme, applies.
  destruct (JS.truthy v) eqn:Hv; cbn [negb orb].
  - unfold Eff.bind, Eff.modify, Eff.gets, Eff.throw. cbn [body set_body].
    unfold Dom.classList_add.
    rewrite (eqb_empty_false ("theme-" +:+ JS.to_string v)) by done.
    rewrite existsb_str_append.
    change (Text.existsb_str Text.is_ascii_whitespace "theme-") with false.
    cbn [orb].
    destruct (Text.existsb_str Text.is_ascii_whitespace (JS.to_string v));
      cbn [negb].
    + right. split; [done|].
      match goal with
      | |- context [Eff.Throw (set_body ?b _)] => exists b
      end.
      destruct s; reflexivity.
    + left. split; [done|]. rewrite debug_log_logged. unfold logged. cbn.
      match goal with
      | |- context [set_body ?b _] => exists b
      end.
      destruct (THEME_DEBUG s) eqn:D.
      * exists [ConsoleLog "[theme] applied"].
        split; [destruct s; reflexivity|]. repeat constructor. by eexists.
      * exists []. split; [|constructor].
        destruct s; cbn in *. by rewrite app_nil_r.
  - left. split; [done|]. exists (body s), []. split; [|constructor].
    unfold Eff.ret. destruct s; cbn. by rewrite app_nil_r.
  Local Opaque ThemeClient.applyTheme.
Qed.

(** What the listener of the push channel does with any message that has
    fields: the state it leaves and the effects it adds. *)
Lemma sse_frame now success theme v s :
  exists ini' b' logs tail,
    receive (ViaSSE now) success theme v s
    = mkState theme v ini' (es s) (intervals s) b' (LAST_THEME_SET s)
              (THEME_DEBUG s) (effects s ++ logs ++ tail)%list
    ∧ Forall console_log logs
    ∧ ((tail = [LocationReload]
        ∧ initialized s = true ∧ v ≠ currentVersion s
        ∧ ThemeClient.justChanged now (LAST_THEME_SET s) = false
        ∧ applies theme = true ∧ ini' = true)
       ∨ (tail = [ConsoleWarn "Bad theme event payload"]
          ∧ applies theme = false ∧ ini' = initialized s)
       ∨ (tail = [] ∧ ini' = true
          ∧ ¬ (initialized s = true ∧ v ≠ currentVersion s
               ∧ ThemeClient.justChanged now (LAST_THEME_SET s) = false
               ∧ applies theme = true))).
Proof.
  assert (Hlog : forall m, console_log (ConsoleLog m)) by (by eexists).
  destruct s as [ct cv ini src ivs b last dbg eff].
  handler_unfold. cbn.
  destruct ini; cbn.
  - destruct (JS.strict_eq v cv) eqn:Ev; cbn.
    + apply strict_eq_iff in Ev as ->.
      destruct (JS.strict_eq theme ct) eqn:Et; cbn.
      * apply strict_eq_iff in Et as ->.
        exists true, b, [], []. rewrite !app_nil_r.
        split; [done|]. split; [constructor|].
        right; right. split; [done|]. split; [done|]. by intros (_ & ? & _).
      * match goal with
        | |- context [ThemeClient.applyTheme ?x ?y] =>
            destruct (applyTheme_cases x y)
              as [(Ha & b' & logs & E & Hl)|(Ha & b' & E)]
        end; rewrite E; cbn.
        -- exists true, b', logs, []. rewrite app_nil_r.
           split; [done|]. split; [done|].
           right; right. split; [done|]. split; [done|]. by intros (_ & ? & _).
        -- exists true, b', [], [ConsoleWarn "Bad theme event payload"].
           split; [done|]. split; [constructor|]. right; left. done.
    + assert (Hne : v ≠ cv) by (intros ->; by rewrite strict_eq_refl in Ev).
      match goal with
      | |- context [ThemeClient.applyTheme ?x ?y] =>
          destruct (applyTheme_cases x y)
            as [(Ha & b' & logs & E & Hl)|(Ha & b' & E)]
      end; rewrite E; cbn.
      * destruct (ThemeClient.justChanged now last) eqn:Hj; cbn;
          rewrite debug_log_logged; unfold logged; cbn; destruct dbg; cbn.
        -- eexists true, b', (logs ++ [_])%list, [].
           rewrite app_nil_r, app_assoc. split; [done|].
           split; [apply Forall_app; split; [done | by repeat constructor]|].
           right; right. split; [done|]. split; [done|].
           by intros (_ & _ & ? & _).
        -- exists true, b', logs, []. rewrite app_nil_r.
           split; [done|]. split; [done|].
           right; right. split; [done|]. split; [done|].
           by intros (_ & _ & ? & _).
        -- eexists true, b', (logs ++ [_])%list, [LocationReload].
           rewrite <- !app_assoc. split; [done|].
           split; [apply Forall_app; split; [done | by repeat constructor]|].
           left. done.
        -- exists true, b', logs, [LocationReload].
           split; [by rewrite <- app_assoc|]. split; [done|]. left. done.
      * exists true, b', [], [ConsoleWarn "Bad theme event payload"].
        split; [done|]. split; [constructor|]. right; left. done.
  - match goal with
    | |- context [ThemeClient.applyTheme ?x ?y] =>
        destruct (applyTheme_cases x y)
          as [(Ha & b' & logs & E & Hl)|(Ha & b' & E)]
    end; rewrite E; cbn.
    + rewrite debug_log_logged. unfold logged. cbn. destruct dbg; cbn.
      * eexists true, b', (logs ++ [_])%list, [].
        rewrite app_nil_r, app_assoc. split; [done|].
        split; [apply Forall_app; split; [done | by repeat constructor]|].
        right; right. split; [done|]. split; [done|]. by intros (? & _).
      * exists true, b', logs, []. rewrite app_nil_r.
        split; [done|]. split; [done|].
        right; right. split; [done|]. split; [done|]. by intros (? & _).
    + exists false, b', [], [ConsoleWarn "Bad theme event payload"].
      split; [done|]. split; [constructor|]. right; left. done.
Qed.

(** What [fetchTheme] does with any successful answer that has fields. An
    exception of [applyTheme] is swallowed without a trace. *)
Lemma poll_frame success theme v s :
  JS.truthy success = true ->
  exists b' logs tail,
    receive ViaPoll success theme v s
    = mkState theme v (initialized s) (es s) (intervals s) b'
              (LAST_THEME_SET s) (THEME_DEBUG s)
              (effects s ++ logs ++ tail)%list
    ∧ Forall console_log logs
    ∧ ((tail = [LocationReload]
        ∧ currentVersion s ≠ JS.Null ∧ v ≠ currentVersion s
        ∧ applies theme = true)
       ∨ (tail = []
          ∧ ¬ (currentVersion s ≠ JS.Null ∧ v ≠ currentVersion s
               ∧ applies theme = true))).
Proof.
  intros Hs.
  destruct s as [ct cv ini src ivs b last dbg eff].
  handler_unfold. cbn. rewrite Hs. cbn.
  destruct (JS.strict_eq cv JS.Null) eqn:En; cbn.
  - apply strict_eq_iff in En as ->.
    match goal with
    | |- context [ThemeClient.applyTheme ?x ?y] =>
        destruct (applyTheme_cases x y)
          as [(Ha & b' & logs & E & Hl)|(Ha & b' & E)]
    end; rewrite E; cbn.
    + exists b', logs, []. rewrite app_nil_r. split; [done|]. split; [done|].
      right. split; [done|]. by intros (? & _).
    + exists b', [], []. rewrite app_nil_r. split; [done|].
      split; [constructor|]. right. split; [done|]. by intros (? & _).
  - assert (Hn : cv ≠ JS.Null) by (intros ->; by rewrite strict_eq_refl in En).
    destruct (JS.strict_eq v cv) eqn:Ev; cbn.
    + apply strict_eq_iff in Ev as ->.
      destruct (JS.strict_eq theme ct) eqn:Et; cbn.
      * apply strict_eq_iff in Et as ->.
        exists b, [], []. rewrite !app_nil_r. split; [done|].
        split; [constructor|]. right. split; [done|]. by intros (_ & ? & _).
      * match goal with
        | |- context [ThemeClient.applyTheme ?x ?y] =>
            destruct (applyTheme_cases x y)
              as [(Ha & b' & logs & E & Hl)|(Ha & b' & E)]
        end; rewrite E; cbn.
        -- exists b', logs, []. rewrite app_nil_r. split; [done|].
           split; [done|]. right. split; [done|]. by intros (_ & ? & _).
        -- exists b', [], []. rewrite app_nil_r. split; [done|].
           split; [constructor|]. right. split; [done|].
           by intros (_ & ? & _).
    + assert (Hne : v ≠ cv) by (intros ->; by rewrite strict_eq_refl in Ev).
      match goal with
      | |- context [ThemeClient.applyTheme ?x ?y] =>
          destruct (applyTheme_cases x y)
            as [(Ha & b' & logs & E & Hl)|(Ha & b' & E)]
      end; rewrite E; cbn.
      * exists b', logs, [LocationReload]. split; [by rewrite <- app_assoc|].
        split; [done|]. left. done.
      * exists b', [], []. rewrite app_nil_r. split; [done|].
        split; [constructor|]. right. split; [done|].
        intros (_ & _ & ?). congruence.
Qed.

Lemma sse_no_change_any now success theme v s :
  initialized s = true -> currentVersion s = v -> currentTheme s = theme ->
  receive (ViaSSE now) success theme v s = s.
Proof.
  destruct s as [ct cv ini src ivs b last dbg eff]; cbn. intros -> -> ->.
  handler_unfold. cbn. rewrite !strict_eq_refl. cbn.
  rewrite !strict_eq_refl. reflexivity.
Qed.

Lemma poll_no_change_any success theme v s :
  JS.truthy success = true -> v ≠ JS.Null ->
  currentVersion s = v -> currentTheme s = theme ->
  receive ViaPoll success theme v s = s.
Proof.
  destruct s as [ct cv ini src ivs b last dbg eff]; cbn. intros Hs Hn -> ->.
  handler_unfold. cbn. rewrite Hs. cbn.
  rewrite (strict_eq_ne v JS.Null) by done. cbn.
  rewrite !strict_eq_refl. cbn. rewrite !strict_eq_refl. reflexivity.
Qed.

End HandlerFrames.

Section HandlerRuns.
Import Page Spec Runs.

Lemma reloads_console l : Forall console_log l -> reloads l = 0%nat.
Proof.
  induction 1 as [|e l [msg ->] _ IH]; [done|].
  unfold reloads in *. rewrite filter_cons_False by done. exact IH.
Qed.

Lemma reloads_app l k : reloads (l ++ k) = (reloads l + reloads k)%nat.
Proof. unfold reloads. by rewrite filter_app, length_app. Qed.

Lemma not_reload_console l : Forall console_log l -> LocationReload ∉ l.
Proof.
  intros Hl Hin. rewrite Forall_forall in Hl.
  by destruct (Hl _ Hin) as [msg ?].
Qed.

(** [window.__setLocalTheme] on any arguments. *)
Lemma setLocalTheme_frame now theme version s :
  let stamp := JS.to_string (JS.Num now) in
  (applies theme = false
   ∧ exists b', ThemeClient.setLocalTheme now theme version s
                = Eff.Throw (set_body b' s))
  ∨ (applies theme = true
     ∧ exists b' logs,
         Forall console_log logs
         ∧ ThemeClient.setLocalTheme now theme version s
           = Eff.Ret tt
               (if JS.truthy version
                then set_currentVersion version
                       (set_effects (effects s ++ logs)%list (set_body b' s))
                else set_effects
                       (effects s ++ logs ++ [LocationReplace stamp])%list
                       (set_currentVersion (JS.Str stamp) (set_body b' s)))).
Proof.
  intros stamp. unfold ThemeClient.setLocalTheme.
  unfold applies. destruct (JS.truthy theme) eqn:Ht; cbn [negb orb].
  - destruct (applyTheme_cases theme s)
      as [(Ha & b' & logs & E & Hl)|(Ha & b' & E)];
      unfold applies in Ha; rewrite Ht in Ha; cbn [negb orb] in Ha;
      rewrite Ha.
    + right. split; [done|]. exists b', logs. split; [done|].
      unfold Eff.bind. rewrite E.
      destruct (JS.truthy version); [reflexivity|].
      unfold Eff.modify, emit. destruct s.
      unfold Eff.modify, set_effects, set_currentVersion, set_body. cbn.
      by rewrite <- app_assoc.
    + left. split; [done|]. exists b'. unfold Eff.bind. by rewrite E.
  - right. split; [done|]. exists (body s), []. split; [constructor|].
    unfold Eff.bind, Eff.ret.
    destruct (JS.truthy version); unfold Eff.modify, emit; destruct s;
      unfold Eff.modify, set_effects, set_currentVersion, set_body; cbn;
      by rewrite ?app_nil_r.
Qed.

(** No reload for a message with the recorded version, or with a theme
    that cannot be applied. *)
Lemma no_reload_when p success theme v s :
  v = currentVersion s ∨ applies theme = false ->
  LocationReload ∉ emitted s (receive p success theme v s).
Proof.
  intros Hc Hin. destruct p as [now|].
  - destruct (sse_frame now success theme v s)
      as (ini' & b' & logs & tail & E & Hl & Ht).
    rewrite E in Hin.
    rewrite (emitted_app s _ (logs ++ tail)) in Hin by done.
    apply elem_of_app in Hin as [Hin|Hin];
      [by apply not_reload_console in Hin|].
    destruct Ht as [(_ & _ & Hv & _ & Ha & _)|[(-> & _)|(-> & _)]].
    + destruct Hc; congruence.
    + inversion Hin as [|? ? ? Hin']; inversion Hin'.
    + by apply elem_of_nil in Hin.
  - destruct (JS.truthy success) eqn:Hs.
    + destruct (poll_frame success theme v s Hs)
        as (b' & logs & tail & E & Hl & Ht).
      rewrite E in Hin.
      rewrite (emitted_app s _ (logs ++ tail)) in Hin by done.
      apply elem_of_app in Hin as [Hin|Hin];
        [by apply not_reload_console in Hin|].
      destruct Ht as [(_ & _ & Hv & Ha)|(-> & _)].
      * destruct Hc; congruence.
      * by apply elem_of_nil in Hin.
    + rewrite poll_ignored, emitted_refl in Hin by done.
      by apply elem_of_nil in Hin.
Qed.

(** The version that [selectTheme] leaves recorded for an accepted change
    that carries a version, when its theme can be applied. *)
Lemma selectTheme_accepted_version nowSet nowRec success theme v s :
  JS.truthy success = true -> JS.truthy v = true -> applies theme = true ->
  currentVersion
    (Eff.run (ThemeSwitcher.selectTheme_settled nowSet nowRec
                (ThemeSwitcher.Answered
                   (Parsed (JsonFields success theme v)))) s) = v.
Proof.
  intros Hs Hv Ha.
  unfold ThemeSwitcher.selectTheme_settled, Eff.run, Eff.try_catch,
    JSON_parse. unfold Eff.bind at 1 2. unfold Eff.ret at 1 2.
  rewrite Hs. cbn [negb]. unfold Eff.bind at 1.
  destruct (setLocalTheme_frame nowSet theme v s)
    as [(Ha' & _)|(_ & b' & logs & Hl & E)]; [congruence|].
  rewrite E, Hv. unfold Eff.bind, Eff.modify. rewrite debug_log_logged.
  unfold logged, emit, Eff.modify. destruct s as [? ? ? ? ? ? ? [|] ?]; done.
Qed.

(** A message that carries the recorded version keeps it recorded and
    adds no reload, whatever its theme and its channel. *)
Lemma same_version_quiet p success theme s :
  let s' := receive p success theme (currentVersion s) s in
  currentVersion s' = currentVersion s
  ∧ exists l, effects s' = (effects s ++ l)%list ∧ reloads l = 0%nat.
Proof.
  intros s'. subst s'. destruct p as [now|].
  - destruct (sse_frame now success theme (currentVersion s) s)
      as (ini' & b' & logs & tail & E & Hl & Ht).
    rewrite E. split; [done|]. exists (logs ++ tail)%list. split; [done|].
    rewrite reloads_app, (reloads_console _ Hl).
    destruct Ht as [(_ & _ & Hv & _)|[(-> & _)|(-> & _)]]; done.
  - destruct (JS.truthy success) eqn:Hs.
    + destruct (poll_frame success theme (currentVersion s) s Hs)
        as (b' & logs & tail & E & Hl & Ht).
      rewrite E. split; [done|]. exists (logs ++ tail)%list. split; [done|].
      rewrite reloads_app, (reloads_console _ Hl).
      destruct Ht as [(_ & _ & Hv & _)|(-> & _)]; done.
    + rewrite poll_ignored by done. split; [done|]. exists [].
      by rewrite app_nil_r.
Qed.

Lemma same_version_run_quiet ms s :
  let s' := Look.receive_all (currentVersion s) ms s in
  currentVersion s' = currentVersion s
  ∧ exists l, effects s' = (effects s ++ l)%list ∧ reloads l = 0%nat.
Proof.
  revert s. induction ms as [|[[p success] theme] ms IH]; intros s.
  - cbn. split; [done|]. exists []. by rewrite app_nil_r.
  - cbn [Look.receive_all fold_left fst snd].
    destruct (same_version_quiet p success theme s) as (Hv & l & El & Hl).
    specialize (IH (receive p success theme (currentVersion s) s)).
    rewrite Hv in IH. unfold Look.receive_all in IH.
    destruct IH as (Hv' & k & Ek & Hk).
    split; [done|]. exists (l ++ k)%list. split.
    + by rewrite Ek, El, <- app_assoc.
    + by rewrite reloads_app, Hl, Hk.
Qed.

End HandlerRuns.

(** X1. Whatever a theme message carries, the client records its theme and
    its version, on both channels: also for values that are no theme name,
    and also when applying the theme fails. *)
Theorem theme_message_is_recorded p success theme v s :
  Spec.theme_message p success ->
  Page.currentTheme (Spec.receive p success theme v s) = theme
  ∧ Page.currentVersion (Spec.receive p success theme v s) = v.
Proof.
  destruct p as [now|]; intros Hs; cbn in Hs.
  - destruct (sse_frame now success theme v s)
      as (ini' & b' & logs & tail & -> & _). done.
  - destruct (poll_frame success theme v s Hs)
      as (b' & logs & tail & -> & _). done.
Qed.

Lemma theme_message_is_recorded_witness :
  let s := Page.fresh (Dom.mkBody None "page") false in
  Page.currentTheme
    (Spec.receive Spec.ViaPoll (JS.Bool true) (JS.Str "two words")
                  (JS.Num 7) s) = JS.Str "two words"
  ∧ Page.currentVersion
      (Spec.receive Spec.ViaPoll (JS.Bool true) (JS.Str "two words")
                    (JS.Num 7) s) = JS.Num 7.
Proof.
  intros s.
  apply (theme_message_is_recorded Spec.ViaPoll (JS.Bool true)
           (JS.Str "two words") (JS.Num 7) s).
  reflexivity.
Defined.

(** X2. The listener of the push channel reloads the page exactly when it
    has handled an event before, the version of this event is another one
    than the recorded one, the change was not made in this window less than
    500ms ago, and [applyTheme] completes on the theme. *)
Theorem sse_reloads_exactly_when now success theme v s :
  Page.LocationReload
    ∈ Spec.emitted s (Spec.receive (Spec.ViaSSE now) success theme v s)
  ↔ Page.initialized s = true
    ∧ v ≠ Page.currentVersion s
    ∧ ThemeClient.justChanged now (Page.LAST_THEME_SET s) = false
    ∧ Runs.applies theme = true.
Proof.
  destruct (sse_frame now success theme v s)
    as (ini' & b' & logs & tail & -> & Hl & Hc).
  rewrite (emitted_app s _ (logs ++ tail)) by done.
  rewrite elem_of_app.
  destruct Hc as [(-> & H)|[(-> & Ha & _)|(-> & _ & Hn)]].
  - split; [intros _; tauto|]. intros _. right. left.
  - split; [|intros (_ & _ & _ & ?); congruence].
    intros [Hin|Hin]; [by apply not_reload_console in Hin|].
    inversion Hin as [|? ? ? Hin']; inversion Hin'.
  - split; [|done].
    intros [Hin|Hin]; [by apply not_reload_console in Hin|].
    by apply elem_of_nil in Hin.
Qed.

(** X3. [fetchTheme] reloads the page exactly when the answer is a
    success, a version has been recorded, the answer's version is another
    one, and [applyTheme] completes on the theme; the time of a change made
    in this window plays no part. *)
Theorem poll_reloads_exactly_when success theme v s :
  Page.LocationReload
    ∈ Spec.emitted s (Spec.receive Spec.ViaPoll success theme v s)
  ↔ JS.truthy success = true
    ∧ Page.currentVersion s ≠ JS.Null
    ∧ v ≠ Page.currentVersion s
    ∧ Runs.applies theme = true.
Proof.
  destruct (JS.truthy success) eqn:Hs.
  - destruct (poll_frame success theme v s Hs)
      as (b' & logs & tail & -> & Hl & Hc).
    rewrite (emitted_app s _ (logs ++ tail)) by done.
    rewrite elem_of_app.
    destruct Hc as [(-> & H)|(-> & Hn)].
    + split; [intros _; tauto|]. intros _. right. left.
    + split; [|intros (_ & ?); tauto].
      intros [Hin|Hin]; [by apply not_reload_console in Hin|].
      by apply elem_of_nil in Hin.
  - rewrite poll_ignored by done. rewrite emitted_refl.
    split; [by intros ?%not_elem_of_nil | by intros (? & _)].
Qed.

(** X4. A theme message, whatever it carries and on either channel, leaves
    the event source, the timers, the time of the last local change and the
    debug switch alone; it only adds effects, each a console line or a
    reload, and at most one reload. *)
Theorem theme_message_frame p success theme v s :
  let s' := Spec.receive p success theme v s in
  Page.es s' = Page.es s
  ∧ Page.intervals s' = Page.intervals s
  ∧ Page.LAST_THEME_SET s' = Page.LAST_THEME_SET s
  ∧ Page.THEME_DEBUG s' = Page.THEME_DEBUG s
  ∧ Page.effects s' = (Page.effects s ++ Spec.emitted s s')%list
  ∧ Forall Runs.handler_effect (Spec.emitted s s')
  ∧ (Runs.reloads (Spec.emitted s s') <= 1)%nat.
Proof.
  assert (Hcl : forall l, Forall Spec.console_log l ->
                          Forall Runs.handler_effect l).
  { intros l Hl. eapply Forall_impl; [exact Hl|]. intros e He. by left. }
  destruct p as [now|]; cbn zeta.
  - destruct (sse_frame now success theme v s)
      as (ini' & b' & logs & tail & -> & Hl & Hc).
    rewrite (emitted_app s _ (logs ++ tail)) by done. cbn.
    (do 5 (split; [done|])).
    rewrite reloads_app, (reloads_console logs Hl).
    destruct Hc as [(-> & _)|[(-> & _)|(-> & _)]].
    + split; [|vm_compute; lia].
      apply Forall_app. split; [by apply Hcl|].
      apply Forall_cons; split; [right; by right | constructor].
    + split; [|vm_compute; lia].
      apply Forall_app. split; [by apply Hcl|].
      apply Forall_cons; split; [right; by left | constructor].
    + split; [|vm_compute; lia].
      apply Forall_app. split; [by apply Hcl | constructor].
  - destruct (JS.truthy success) eqn:Hs.
    + destruct (poll_frame success theme v s Hs)
        as (b' & logs & tail & -> & Hl & Hc).
      rewrite (emitted_app s _ (logs ++ tail)) by done. cbn.
      (do 5 (split; [done|])).
      rewrite reloads_app, (reloads_console logs Hl).
      destruct Hc as [(-> & _)|(-> & _)].
      * split; [|vm_compute; lia].
        apply Forall_app. split; [by apply Hcl|].
        apply Forall_cons; split; [right; by right | constructor].
      * split; [|vm_compute; lia].
        apply Forall_app. split; [by apply Hcl | constructor].
    + rewrite poll_ignored by done. rewrite emitted_refl, app_nil_r.
      (do 5 (split; [done|])). split; [constructor | vm_compute; lia].
Qed.

(** X5. A theme message that arrives a second time on the same channel
    changes nothing and has no effect, once its theme could be applied and
    its version is not [null]. *)
Theorem repeated_message_is_ignored c now1 now2 success theme v s :
  Spec.theme_message (Spec.via c now1) success ->
  v ≠ JS.Null ->
  Runs.applies theme = true ->
  Spec.receive (Spec.via c now2) success theme v
    (Spec.receive (Spec.via c now1) success theme v s)
  = Spec.receive (Spec.via c now1) success theme v s.
Proof.
  intros Hs Hv Ha. destruct c; cbn in Hs; cbn [Spec.via].
  - destruct (sse_frame now1 success theme v s)
      as (ini' & b' & logs & tail & -> & _ & Hc).
    assert (ini' = true) as ->.
    { destruct Hc as [(_ & H)|[(_ & ? & _)|(_ & ? & _)]];
        [tauto | congruence | done]. }
    by apply sse_no_change_any.
  - destruct (poll_frame success theme v s Hs)
      as (b' & logs & tail & -> & _).
    by apply poll_no_change_any.
Qed.

Lemma repeated_message_is_ignored_witness :
  let s := Page.fresh (Dom.mkBody None "page") true in
  Spec.receive (Spec.ViaSSE 9000) (JS.Bool true) (JS.Str "winter") (JS.Str "2")
    (Spec.receive (Spec.ViaSSE 5000) (JS.Bool true) (JS.Str "winter")
                  (JS.Str "2") s)
  = Spec.receive (Spec.ViaSSE 5000) (JS.Bool true) (JS.Str "winter")
                 (JS.Str "2") s.
Proof.
  intros s.
  apply (repeated_message_is_ignored Spec.SSE 5000 9000 (JS.Bool true)
           (JS.Str "winter") (JS.Str "2") s).
  - exact I.
  - discriminate.
  - reflexivity.
Defined.

(** X6. The echo of a change made in this window does not reload it: once
    [selectTheme] has handled an accepted answer that carries a version, the
    next theme message with that theme and version does not reload the page,
    on either channel and however long after the change it is handled; the
    500ms window is not needed for it. When the theme can be applied, the
    same holds for any run of messages that all carry that version, whatever
    their themes and channels: none of them reloads, and the version stays
    recorded. Nothing is said of an echo that is handled after a message of
    another version. *)
Theorem echo_of_own_change_never_reloads
    nowSet nowRec success theme v s :
  JS.truthy success = true ->
  JS.truthy v = true ->
  let s1 := Eff.run (ThemeSwitcher.selectTheme_settled nowSet nowRec
                       (ThemeSwitcher.Answered
                          (Page.Parsed (Page.JsonFields success theme v)))) s in
  (forall p success',
      Page.LocationReload ∉ Spec.emitted s1 (Spec.receive p success' theme v s1))
  ∧ (Runs.applies theme = true ->
     forall ms : list (Spec.path * JS.value * JS.value),
       let sn := Look.receive_all v ms s1 in
       Runs.reloads (Spec.emitted s1 sn) = 0%nat
       ∧ Page.currentVersion sn = v).
Proof.
  intros Hs Hv s1. split.
  - intros p success'. apply no_reload_when.
    destruct (Runs.applies theme) eqn:Ha; [left | by right].
    symmetry. by apply selectTheme_accepted_version.
  - intros Ha ms sn.
    assert (E : Page.currentVersion s1 = v)
      by (by apply selectTheme_accepted_version).
    destruct (same_version_run_quiet ms s1) as (Hv' & l & El & Hl).
    rewrite E in Hv', El. fold sn in Hv', El.
    by rewrite (emitted_app _ _ _ El).
Qed.

Lemma echo_of_own_change_never_reloads_witness :
  let s := Page.mkState (JS.Str "coffee") (JS.Str "1") true Page.SourceOpen []
             (Dom.mkBody (Some "coffee") "page theme-coffee") None false [] in
  let s1 := Eff.run (ThemeSwitcher.selectTheme_settled 1000 1001
                       (ThemeSwitcher.Answered
                          (Page.Parsed
                             (Page.JsonFields (JS.Bool true) (JS.Str "winter")
                                              (JS.Str "2"))))) s in
  let sn := Look.receive_all (JS.Str "2")
              [(Spec.ViaSSE 60000, JS.Undefined, JS.Str "winter");
               (Spec.ViaPoll, JS.Bool true, JS.Str "coffee");
               (Spec.ViaSSE 90000, JS.Undefined, JS.Str "winter")] s1 in
  bool_decide
    (Page.LocationReload
       ∈ Spec.emitted s1
           (Spec.receive (Spec.ViaSSE 60000) JS.Undefined (JS.Str "winter")
                         (JS.Str "2") s1)) = false
  ∧ Runs.reloads (Spec.emitted s1 sn) = 0%nat
  ∧ Page.currentVersion sn = JS.Str "2".
Proof.
  intros s.
  destruct (echo_of_own_change_never_reloads 1000 1001 (JS.Bool true)
              (JS.Str "winter") (JS.Str "2") s eq_refl eq_refl) as [H1 H2].
  split.
  - apply bool_decide_eq_false_2, H1.
  - apply H2. reflexivity.
Defined.

(** X7. [window.__setLocalTheme] never changes the recorded theme. It
    records the version it is given; without one, and only then, it records
    the time as the version and replaces the location with that stamp. When
    the theme cannot be applied it throws and records nothing. *)
Theorem local_setter_records_version now theme version s :
  let s' := Eff.run (ThemeClient.setLocalTheme now theme version) s in
  let stamp := JS.to_string (JS.Num now) in
  Page.currentTheme s' = Page.currentTheme s
  ∧ Page.currentVersion s'
    = (if Runs.applies theme
       then if JS.truthy version then version else JS.Str stamp
       else Page.currentVersion s)
  ∧ (forall e, e ∈ Spec.emitted s s' -> Spec.navigation e = true ->
               e = Page.LocationReplace stamp)
  ∧ (Page.LocationReplace stamp ∈ Spec.emitted s s'
     ↔ Runs.applies theme = true ∧ JS.truthy version = false).
Proof.
  intros s' stamp. subst s'. unfold Eff.run.
  destruct (setLocalTheme_frame now theme version s)
    as [(Ha & b' & E)|(Ha & b' & logs & Hl & E)];
    rewrite E, Ha; cbn [Eff.final]; fold stamp.
  - rewrite (emitted_app s _ []) by (destruct s; cbn; by rewrite app_nil_r).
    split; [by destruct s|]. split; [by destruct s|].
    split; [by intros e ?%elem_of_nil|].
    split; [by intros ?%elem_of_nil | by intros [? _]].
  - destruct (JS.truthy version).
    + rewrite (emitted_app s _ logs) by (by destruct s).
      split; [by destruct s|]. split; [by destruct s|]. split.
      * intros e Hin Hn. rewrite Forall_forall in Hl.
        destruct (Hl _ Hin) as [msg ->]. done.
      * split; [|by intros [_ ?]]. intros Hin. rewrite Forall_forall in Hl.
        by destruct (Hl _ Hin) as [msg ?].
    + rewrite (emitted_app s _ (logs ++ [Page.LocationReplace stamp]))
        by (by destruct s).
      split; [by destruct s|]. split; [by destruct s|]. split.
      * intros e [Hin|Hin]%elem_of_app Hn.
        -- rewrite Forall_forall in Hl. destruct (Hl _ Hin) as [msg ->]. done.
        -- inversion Hin as [|? ? ? Hin']; [done | inversion Hin'].
      * split; [done|]. intros _. apply elem_of_app. right. left.
Qed.

(** X8. A change that the server did not accept changes nothing on the
    page: when the request of [selectTheme] fails, is redirected to the
    login page, or is answered by something unreadable, by [null] or by a
    false [success], the theme state and the time of the last local change
    stay as they are, the modal stays open and the page is not left; only
    an alert or a console line is added. *)
Theorem refused_change_leaves_page nowSet nowRec r s :
  Runs.refused r = true ->
  exists log,
    Eff.run (ThemeSwitcher.selectTheme_settled nowSet nowRec r) s
    = Page.set_effects (Page.effects s ++ log)%list s
    ∧ Forall (fun e => Spec.navigation e = false ∧ e ≠ Page.ModalHide) log.
Proof.
  intros Hr. destruct r as [| |[|[|success theme v]]]; cbn in Hr.
  - exists [Page.ConsoleError "Theme update error"]. split; [done|].
    by repeat constructor.
  - exists [Page.Alert ThemeSwitcher.login_alert;
            Page.ConsoleWarn "Theme update failed"].
    split; [|by repeat constructor].
    handler_unfold. cbn. destruct s; cbn. by rewrite <- app_assoc.
  - exists [Page.ConsoleError "Theme update error"]. split; [done|].
    by repeat constructor.
  - exists [Page.ConsoleWarn "Theme update failed"]. split; [done|].
    by repeat constructor.
  - exists [Page.ConsoleWarn "Theme update failed"].
    split; [|by repeat constructor].
    handler_unfold. cbn. by rewrite Hr.
Qed.

Lemma refused_change_leaves_page_witness :
  let s := Page.fresh (Dom.mkBody (Some "coffee") "page theme-coffee") false in
  exists log,
    Eff.run (ThemeSwitcher.selectTheme_settled 1000 1001
               ThemeSwitcher.RedirectedToLogin) s
    = Page.set_effects (Page.effects s ++ log)%list s
    ∧ Forall (fun e => Spec.navigation e = false ∧ e ≠ Page.ModalHide) log.
Proof.
  intros s.
  apply (refused_change_leaves_page 1000 1001
           ThemeSwitcher.RedirectedToLogin s).
  reflexivity.
Defined.

(** X9. While the server's version stays the recorded one, polling never
    reloads the page, whatever themes the answers carry, and the recorded
    version stays. *)
Theorem polling_same_version_never_reloads answers s :
  Forall (fun a => a.2 = Page.currentVersion s) answers ->
  Runs.reloads (Spec.emitted s (Runs.poll_run answers s)) = 0%nat
  ∧ Page.currentVersion (Runs.poll_run answers s) = Page.currentVersion s.
Proof.
  intros Hall.
  enough (H : exists l, Page.effects (Runs.poll_run answers s)
                        = (Page.effects s ++ l)%list
                        ∧ Runs.reloads l = 0%nat
                        ∧ Page.currentVersion (Runs.poll_run answers s)
                          = Page.currentVersion s).
  { destruct H as (l & E & Hl & Hv). by rewrite (emitted_app _ _ _ E). }
  revert s Hall. induction answers as [|[t v] answers IH]; intros s Hall.
  - exists []. cbn. by rewrite app_nil_r.
  - apply Forall_cons in Hall as [Hv Hall]. cbn in Hv. subst v.
    cbn [Runs.poll_run fold_left]. cbn [fst snd].
    set (s1 := Spec.receive Spec.ViaPoll (JS.Bool true) (JS.Str t)
                 (Page.currentVersion s) s).
    destruct (poll_frame (JS.Bool true) (JS.Str t) (Page.currentVersion s) s
                eq_refl) as (b' & logs & tail & E & Hl & Hc).
    fold s1 in E.
    assert (tail = []) as ->.
    { destruct Hc as [(_ & _ & ? & _)|(? & _)]; done. }
    rewrite app_nil_r in E.
    assert (Hv1 : Page.currentVersion s1 = Page.currentVersion s)
      by (by rewrite E).
    assert (He1 : Page.effects s1 = (Page.effects s ++ logs)%list)
      by (by rewrite E).
    clearbody s1.
    destruct (IH s1) as (l & El & Hl0 & Hvl).
    { by rewrite Hv1. }
    exists (logs ++ l)%list. fold (Runs.poll_run answers s1).
    rewrite El, He1, <- app_assoc. split; [done|].
    rewrite reloads_app, (reloads_console logs Hl), Hl0. split; [done|].
    by rewrite Hvl.
Qed.

Lemma polling_same_version_never_reloads_witness :
  let s := Page.mkState (JS.Str "coffee") (JS.Str "1") false Page.SourceClosed
             [4000] (Dom.mkBody (Some "coffee") "page theme-coffee") None
             false [] in
  let answers := [("winter", JS.Str "1"); ("winter", JS.Str "1");
                  ("coffee", JS.Str "1")] in
  Runs.reloads (Spec.emitted s (Runs.poll_run answers s)) = 0%nat
  ∧ Page.currentVersion (Runs.poll_run answers s) = Page.currentVersion s.
Proof.
  intros s answers.
  apply (polling_same_version_never_reloads answers s).
  repeat constructor.
Defined.

(** ** The PIN overlays: keys, typing and answers *)

Ltac settled_unfold :=
  unfold PinManagement.submitPin_settled, PinAuth.submitPin_settled,
    PinAuth.network_error, PinAuth.currentUser_id,
    Eff.run, Eff.try_catch, Eff.bind, Eff.gets, Eff.throw, Eff.ret,
    PinManagement.hideOverlay, PinManagement.showError, PinManagement.emit,
    PinManagement.clear_input, PinManagement.set_submit,
    PinAuth.showError, PinAuth.emit, PinAuth.clear_input, Eff.modify.

Section PinFlows.
Import Pin Spec Flows.

Lemma digit_not_space c : Text.is_digit c = true -> Text.is_js_space c = false.
Proof. destruct c as [[] [] [] [] [] [] [] []]; vm_compute; congruence. Qed.

Lemma digits_only_digits v :
  Text.forallb_str Text.is_digit (PinKeys.digits_only v) = true.
Proof.
  induction v as [|c v IH]; [done|]. simpl.
  destruct (Text.is_digit c) eqn:E; [|done]. simpl. by rewrite E.
Qed.

Lemma trimStart_digits s :
  Text.forallb_str Text.is_digit s = true -> Text.trimStart s = s.
Proof.
  destruct s as [|c s]; [done|]. simpl. intros [Hc _]%andb_true_iff.
  by rewrite (digit_not_space c Hc).
Qed.

Lemma trimEnd_digits s :
  Text.forallb_str Text.is_digit s = true -> Text.trimEnd s = s.
Proof.
  induction s as [|c s IH]; [done|]. simpl. intros [Hc Hs]%andb_true_iff.
  by rewrite (digit_not_space c Hc), IH.
Qed.

Lemma trim_digits s :
  Text.forallb_str Text.is_digit s = true -> Text.trim s = s.
Proof.
  intros H. unfold Text.trim. by rewrite trimStart_digits, trimEnd_digits.
Qed.

Lemma rejected_digits s :
  Text.forallb_str Text.is_digit s = true ->
  rejected s = negb (Nat.eqb (String.length s) 4).
Proof.
  intros H. destruct (Nat.eqb (String.length s) 4) eqn:E.
  - apply rejected_false_iff. split; [by apply Nat.eqb_eq | done].
  - unfold rejected. by rewrite E.
Qed.

Lemma length_four_nonempty s :
  Nat.eqb (String.length s) 4 = true -> String.eqb s "" = false.
Proof. by destruct s. Qed.

(** What [submitPin] of the creation overlay requests when the field holds
    digits only. *)
Lemma create_request_of_digits (s : PinManagement.state) :
  Text.forallb_str Text.is_digit (PinManagement.pinInput_value s) = true ->
  requests_made (PinManagement.effects s)
    (PinManagement.effects (Eff.run PinManagement.submitPin s))
  = if Nat.eqb (String.length (PinManagement.pinInput_value s)) 4
    then [Fetch "/create_user_pin" (PinManagement.userId s)
                (PinManagement.pinInput_value s)]
    else [].
Proof.
  intros Hd.
  unfold PinManagement.submitPin, Eff.run, Eff.bind, Eff.gets.
  rewrite (trim_digits _ Hd), (rejected_digits _ Hd).
  destruct (Nat.eqb (String.length (PinManagement.pinInput_value s)) 4) eqn:E.
  - rewrite (length_four_nonempty _ E). simpl.
    by rewrite requests_made_one.
  - destruct (String.eqb (PinManagement.pinInput_value s) ""); simpl;
      by rewrite requests_made_nil.
Qed.

(** The same for the verification overlay, open for a user. *)
Lemma verify_request_of_digits (s : PinAuth.state) u :
  PinAuth.currentUser s = Some u ->
  Text.forallb_str Text.is_digit (PinAuth.pinInput_value s) = true ->
  requests_made (PinAuth.effects s)
    (PinAuth.effects (Eff.run PinAuth.submitPin s))
  = if Nat.eqb (String.length (PinAuth.pinInput_value s)) 4
    then [Fetch "/verify_pin" (PinAuth.id u) (PinAuth.pinInput_value s)]
    else [].
Proof.
  intros Hu Hd.
  unfold PinAuth.submitPin, Eff.run, Eff.bind, Eff.gets.
  rewrite (trim_digits _ Hd), (rejected_digits _ Hd).
  destruct (Nat.eqb (String.length (PinAuth.pinInput_value s)) 4) eqn:E.
  - rewrite (length_four_nonempty _ E). simpl.
    unfold Eff.try_catch, PinAuth.currentUser_id, Eff.bind, Eff.gets.
    rewrite Hu. simpl. by rewrite requests_made_one.
  - destruct (String.eqb (PinAuth.pinInput_value s) ""); simpl;
      by rewrite requests_made_nil.
Qed.

Lemma create_settled_confirmed r (s : PinManagement.state) :
  confirmed r = true ->
  Eff.run (PinManagement.submitPin_settled r) s
  = PinManagement.mkState
      (PinManagement.pinInput_value s) false PinManagement.check_html
      (PinManagement.pinError_text s) (PinManagement.pinError_display s)
      (PinManagement.pinOverlay_display s) "fadeOut 0.3s ease forwards" ""
      (PinManagement.userId s)
      (PinManagement.timeouts s ++ [PinManagement.HideOverlay 300])%list
      (PinManagement.effects s
       ++ [Alert "PIN created successfully!"; LocationReload])%list.
Proof.
  destruct r as [|[|] [[|success error]|]]; cbn; try done.
  intros Hs. settled_unfold. rewrite Hs. cbn. by rewrite <- app_assoc.
Qed.

Lemma create_settled_unconfirmed r (s : PinManagement.state) :
  confirmed r = false ->
  exists value msg logs,
    Eff.run (PinManagement.submitPin_settled r) s
    = PinManagement.mkState
        value false PinManagement.check_html msg "flex"
        (PinManagement.pinOverlay_display s)
        (PinManagement.pinOverlay_animation s)
        (PinManagement.body_overflow s) (PinManagement.userId s)
        (PinManagement.timeouts s ++ [PinManagement.HideError 3000])%list
        (PinManagement.effects s ++ logs)%list
    ∧ LocationReload ∉ logs.
Proof.
  assert (Hc : LocationReload ∉ [ConsoleError "PIN creation error:"]).
  { intros Hin. inversion Hin as [|? ? ? Hin']; inversion Hin'. }
  assert (Hf : LocationReload ∉ [Focus]).
  { intros Hin. inversion Hin as [|? ? ? Hin']; inversion Hin'. }
  intros Hr.
  destruct r as [|ok [[|success error]|]];
    try (exists (PinManagement.pinInput_value s),
           "Network error. Please try again.",
           [ConsoleError "PIN creation error:"]; split; [reflexivity|done]).
  exists "", (if JS.truthy error then JS.to_string error
              else "Error creating PIN"), [Focus].
  split; [|done]. settled_unfold.
  assert (ok && JS.truthy success = false) as ->
    by (destruct ok; [exact Hr | done]).
  reflexivity.
Qed.

End PinFlows.

(** X10. The input filter and the submission together: whatever is typed
    into the PIN field of either overlay, pressing Enter sends a request
    exactly when the digits among the typed characters are four, and the
    PIN sent is those digits; the field never holds anything else than
    digits once the input event has been handled. *)
Theorem typed_pin_is_sent_iff_four_digits typed :
  let pin := PinKeys.digits_only typed in
  (forall s : PinManagement.state,
      let s1 := Eff.run (PinManagementHandlers.input typed)
                  (Eff.run PinManagementHandlers.showCreatePinOverlay s) in
      let s2 := Eff.run (PinManagementHandlers.handleKeydown "Enter") s1 in
      PinManagement.pinInput_value s1 = pin
      ∧ Text.forallb_str Text.is_digit (PinManagement.pinInput_value s1) = true
      ∧ Spec.requests_made (PinManagement.effects s1)
                           (PinManagement.effects s2)
        = if Nat.eqb (String.length pin) 4
          then [Pin.Fetch "/create_user_pin" (PinManagement.userId s) pin]
          else [])
  ∧ (forall (s : PinAuth.state) userId userName,
        let s1 := Eff.run (PinAuthHandlers.input typed)
                    (Eff.run (PinAuth.showPinForUser userId userName) s) in
        let s2 := Eff.run (PinAuthHandlers.handleKeydown "Enter") s1 in
        PinAuth.pinInput_value s1 = pin
        ∧ Text.forallb_str Text.is_digit (PinAuth.pinInput_value s1) = true
        ∧ Spec.requests_made (PinAuth.effects s1) (PinAuth.effects s2)
          = if Nat.eqb (String.length pin) 4
            then [Pin.Fetch "/verify_pin" userId pin]
            else []).
Proof.
  intros pin. split.
  - intros s s1 s2.
    assert (Hv : PinManagement.pinInput_value s1 = pin) by reflexivity.
    assert (Hu : PinManagement.userId s1 = PinManagement.userId s)
      by reflexivity.
    assert (E : s2 = Eff.run PinManagement.submitPin s1) by reflexivity.
    clearbody s1 s2. subst s2.
    split; [done|]. rewrite Hv. split; [apply digits_only_digits|].
    rewrite create_request_of_digits by (rewrite Hv; apply digits_only_digits).
    by rewrite Hv, Hu.
  - intros s userId userName s1 s2.
    assert (Hv : PinAuth.pinInput_value s1 = pin) by reflexivity.
    assert (Hu : PinAuth.currentUser s1
                 = Some (PinAuth.mkUser userId userName)) by reflexivity.
    assert (E : s2 = Eff.run PinAuth.submitPin s1) by reflexivity.
    clearbody s1 s2. subst s2.
    split; [done|]. rewrite Hv. split; [apply digits_only_digits|].
    rewrite (verify_request_of_digits s1 _ Hu)
      by (rewrite Hv; apply digits_only_digits).
    by rewrite Hv.
Qed.

(** X11. Without a current user the verification overlay sends nothing:
    after the overlay has been dismissed ([currentUser] is [null] again),
    [submitPin] makes no request whatever the field holds; a well-formed
    PIN then fails inside the [try] and is reported as a network error. *)
Theorem no_current_user_no_request (s : PinAuth.state) :
  PinAuth.currentUser s = None ->
  let pin := Text.trim (PinAuth.pinInput_value s) in
  let s' := Eff.run (PinAuthHandlers.handleKeydown "Enter") s in
  Spec.requests_made (PinAuth.effects s) (PinAuth.effects s') = []
  ∧ PinAuth.pinError_display s' = "block"
  ∧ (Spec.four_digits pin ->
     PinAuth.pinError_text s' = "Network error. Please try again."
     ∧ Flows.added (PinAuth.effects s) (PinAuth.effects s')
       = [Pin.ConsoleError "PIN verification error:"]).
Proof.
  intros Hu pin s'. subst s'.
  change (PinAuthHandlers.handleKeydown "Enter") with PinAuth.submitPin.
  unfold PinAuth.submitPin, Eff.run, Eff.bind, Eff.gets. fold pin.
  destruct (submitPin_cases pin) as [[E N]|[(E & R & N)|(E & R & F)]];
    rewrite E, ?R; simpl.
  - by rewrite requests_made_nil.
  - by rewrite requests_made_nil.
  - unfold Eff.try_catch, PinAuth.currentUser_id, Eff.bind, Eff.gets.
    rewrite Hu. simpl. unfold Spec.requests_made, Flows.added.
    rewrite drop_app_length. done.
Qed.

Lemma no_current_user_no_request_witness :
  let opened := Eff.run (PinAuthHandlers.input "1234")
                  (Eff.run (PinAuth.showPinForUser (JS.Num 7) "Ada")
                     (PinAuth.mkState "" "" "none" "none" "" "" None [])) in
  let s := Eff.run (PinAuthHandlers.handleKeydown "Escape") opened in
  let s' := Eff.run (PinAuthHandlers.handleKeydown "Enter") s in
  Spec.requests_made (PinAuth.effects s) (PinAuth.effects s') = []
  ∧ PinAuth.pinError_display s' = "block"
  ∧ (Spec.four_digits (Text.trim (PinAuth.pinInput_value s)) ->
     PinAuth.pinError_text s' = "Network error. Please try again."
     ∧ Flows.added (PinAuth.effects s) (PinAuth.effects s')
       = [Pin.ConsoleError "PIN verification error:"]).
Proof.
  intros opened s.
  apply (no_current_user_no_request s).
  reflexivity.
Defined.

(** X12. Creating a PIN: the submit button is disabled while the request
    is pending and enabled again whatever the answer is. The page reloads
    exactly when the server confirmed; otherwise an error is shown, the
    overlay stays open and nothing is reloaded. *)
Theorem create_pin_round (s : PinManagement.state) (r : Pin.settled) :
  Spec.four_digits (Text.trim (PinManagement.pinInput_value s)) ->
  let s1 := Eff.run PinManagement.submitPin s in
  let s2 := Eff.run (PinManagement.submitPin_settled r) s1 in
  PinManagement.pinSubmit_disabled s1 = true
  ∧ PinManagement.pinSubmit_disabled s2 = false
  ∧ PinManagement.pinSubmit_innerHTML s2 = PinManagement.check_html
  ∧ (Pin.LocationReload
       ∈ Flows.added (PinManagement.effects s1) (PinManagement.effects s2)
     ↔ Flows.confirmed r = true)
  ∧ (Flows.confirmed r = false ->
     PinManagement.pinError_display s2 = "flex"
     ∧ PinManagement.pinOverlay_display s2 = PinManagement.pinOverlay_display s
     ∧ PinManagement.pinOverlay_animation s2
       = PinManagement.pinOverlay_animation s
     ∧ PinManagement.body_overflow s2 = PinManagement.body_overflow s).
Proof.
  intros Hf s1 s2.
  assert (E1 : s1 = Eff.run
                      (Eff.bind (PinManagement.set_submit true
                                   PinManagement.spinner_html)
                         (fun _ => PinManagement.emit
                                     (Pin.Fetch "/create_user_pin"
                                        (PinManagement.userId s)
                                        (Text.trim
                                           (PinManagement.pinInput_value s)))))
                      s).
  { subst s1. unfold PinManagement.submitPin, Eff.run, Eff.bind at 1,
      Eff.gets at 1.
    rewrite (four_digits_nonempty _ Hf).
    apply rejected_false_iff in Hf as ->. reflexivity. }
  assert (Hd : PinManagement.pinSubmit_disabled s1 = true) by (by rewrite E1).
  assert (Ho : PinManagement.pinOverlay_display s1
               = PinManagement.pinOverlay_display s) by (by rewrite E1).
  assert (Ha : PinManagement.pinOverlay_animation s1
               = PinManagement.pinOverlay_animation s) by (by rewrite E1).
  assert (Hb : PinManagement.body_overflow s1 = PinManagement.body_overflow s)
    by (by rewrite E1).
  clear E1. clearbody s1. subst s2. split; [done|].
  unfold Flows.added. destruct (Flows.confirmed r) eqn:Hr.
  - rewrite (create_settled_confirmed r s1 Hr). cbn.
    rewrite drop_app_length. (do 2 (split; [done|])).
    split; [|done]. split; [done|]. intros _. right. left.
  - destruct (create_settled_unconfirmed r s1 Hr)
      as (value & msg & logs & -> & Hl). cbn.
    rewrite drop_app_length. (do 2 (split; [done|])).
    split; [split; done|]. intros _. by rewrite Ho, Ha, Hb.
Qed.

Lemma create_pin_round_witness :
  let s := Eff.run (PinManagementHandlers.input "12a34")
             (PinManagement.mkState "" false PinManagement.check_html "" "none"
                "flex" "" "hidden" (JS.Num 7) [] []) in
  let s1 := Eff.run PinManagement.submitPin s in
  let s2 := Eff.run (PinManagement.submitPin_settled
                       (Pin.Response false
                          (Some (Pin.JsonFields (JS.Bool false)
                                   (JS.Str "User already has a PIN"))))) s1 in
  PinManagement.pinSubmit_disabled s1 = true
  ∧ PinManagement.pinSubmit_disabled s2 = false.
Proof.
  intros s.
  pose proof (create_pin_round s
                (Pin.Response false
                   (Some (Pin.JsonFields (JS.Bool false)
                            (JS.Str "User already has a PIN")))))
    as H.
  split; [apply H | apply H]; vm_compute; split; reflexivity.
Defined.

(** X13. Verifying a PIN: the page of the user's entries is opened exactly
    when the server confirmed the PIN and the overlay is open for a user,
    and then it is that user's page. Whatever the answer, the overlay stays
    open for the same user; every answer that does not open the page shows
    an error. *)
Theorem verify_pin_answer (s : PinAuth.state) (r : Pin.settled) :
  let s' := Eff.run (PinAuth.submitPin_settled r) s in
  (forall url,
      Pin.LocationAssign url
        ∈ Flows.added (PinAuth.effects s) (PinAuth.effects s')
      ↔ Flows.confirmed r = true
        ∧ exists u, PinAuth.currentUser s = Some u
                    ∧ url = "/entries?user_id="
                            +:+ JS.to_string (PinAuth.id u))
  ∧ PinAuth.currentUser s' = PinAuth.currentUser s
  ∧ PinAuth.pinOverlay_display s' = PinAuth.pinOverlay_display s
  ∧ (Flows.confirmed r = false ∨ PinAuth.currentUser s = None ->
     PinAuth.pinError_display s' = "block").
Proof.
  intros s'. subst s'. unfold Flows.added.
  assert (Hne : forall url e, e ≠ Pin.LocationAssign url ->
                              Pin.LocationAssign url ∈ [e] -> False).
  { intros url e He Hin. inversion Hin as [|? ? ? Hin']; [done|inversion Hin']. }
  destruct (Flows.confirmed r) eqn:Hr.
  - destruct r as [|[|] [[|success error]|]]; try done. cbn in Hr.
    destruct s as [v et ed od ui bo [u|] es]; settled_unfold; cbn;
      rewrite Hr; cbn; rewrite drop_app_length.
    + split; [|split; [done|split; [done|]]].
      * intros url. split.
        -- intros Hin. split; [done|]. exists u. split; [done|].
           inversion Hin as [|? ? ? Hin']; [done | inversion Hin'].
        -- intros (_ & u' & [= <-] & ->). left.
      * by intros [|].
    + split; [|done]. intros url. split.
      * intros Hin. by apply Hne in Hin.
      * by intros (_ & u' & ? & _).
  - assert (exists v' msg log,
               Eff.run (PinAuth.submitPin_settled r) s
               = PinAuth.mkState v' msg "block" (PinAuth.pinOverlay_display s)
                   (PinAuth.pinUserInfo_text s) (PinAuth.body_overflow s)
                   (PinAuth.currentUser s) (PinAuth.effects s ++ [log])%list
               ∧ forall url, log ≠ Pin.LocationAssign url)
      as (v' & msg & log & -> & Hl).
    { destruct r as [|ok [[|success error]|]];
        try (exists (PinAuth.pinInput_value s),
               "Network error. Please try again.",
               (Pin.ConsoleError "PIN verification error:");
             split; [reflexivity | done]).
      exists "", (if JS.truthy error then JS.to_string error
                  else "Invalid PIN"), Pin.Focus.
      split; [|done]. settled_unfold.
      assert (ok && JS.truthy success = false) as ->
        by (destruct ok; [exact Hr | done]).
      reflexivity. }
    cbn. rewrite drop_app_length. split; [|done].
    intros url. split; [|by intros [? _]].
    intros Hin. exfalso. by apply (Hne url log).
Qed.

(** ** The user cards *)

Section UserCards.
Import UserClickHandler Flows.

Lemma parseInt_from_uint d a :
  parseInt_from (Z.of_N (Unsigned.of_lu a)) (NilEmpty.string_of_uint d)
  = Z.of_N (Unsigned.of_lu (Decimal.revapp d a)).
Proof.
  revert a. induction d; intros a; [done|..];
    cbn [NilEmpty.string_of_uint parseInt_from Decimal.revapp];
    rewrite <- IHd; f_equal; cbn [Unsigned.of_lu];
    unfold digit_value; cbn; lia.
Qed.

Lemma parseInt_uint d :
  parseInt (NilEmpty.string_of_uint d) = Z.of_N (Pos.of_uint d).
Proof.
  unfold parseInt. rewrite Unsigned.of_uint_alt.
  exact (parseInt_from_uint d Decimal.Nil).
Qed.

Lemma uint_digits d :
  Text.forallb_str Text.is_digit (NilEmpty.string_of_uint d) = true.
Proof. induction d; [done|..]; cbn [NilEmpty.string_of_uint]; exact IHd. Qed.

Lemma decimal_nonneg n :
  0 <= n ->
  exists d, JS.to_string (JS.Num n) = NilEmpty.string_of_uint d
            ∧ d ≠ Decimal.Nil ∧ Z.of_N (Pos.of_uint d) = n.
Proof.
  intros Hn. destruct n as [|p|p]; [| |lia].
  - by exists (Decimal.D0 Decimal.Nil).
  - exists (Pos.to_uint p). cbn.
    pose proof (Unsigned.to_uint_nonnil p) as Hnn.
    split; [|split; [done | by rewrite DecimalPos.Unsigned.of_to]].
    unfold NilZero.string_of_uint. by destruct (Pos.to_uint p).
Qed.

(** Printing a non-negative number and reading it back. *)
Lemma parseInt_to_string n :
  0 <= n -> parseInt (JS.to_string (JS.Num n)) = n.
Proof.
  intros Hn. destruct (decimal_nonneg n Hn) as (d & -> & _ & <-).
  apply parseInt_uint.
Qed.

Lemma to_string_digits n :
  0 <= n ->
  Text.forallb_str Text.is_digit (JS.to_string (JS.Num n)) = true
  ∧ JS.to_string (JS.Num n) ≠ "".
Proof.
  intros Hn. destruct (decimal_nonneg n Hn) as (d & -> & Hd & _).
  split; [apply uint_digits|]. by destruct d.
Qed.

Lemma digit_run_append d rest :
  Text.forallb_str Text.is_digit d = true -> digit_run rest = "" ->
  digit_run (d +:+ rest) = d.
Proof.
  intros Hd Hr. induction d as [|c d IH]; [done|].
  cbn in Hd. apply andb_true_iff in Hd as [Hc Hd].
  rewrite append_cons. cbn. by rewrite Hc, IH.
Qed.

Lemma strip_prefix_Some q s t :
  Text.strip_prefix q s = Some t -> s = q +:+ t.
Proof.
  revert s. induction q as [|a q IH]; intros s; cbn.
  - by intros [= ->].
  - destruct s as [|b s]; [done|].
    destruct (Ascii.eqb a b) eqn:E; [|done].
    apply Ascii.eqb_eq in E as ->. intros H. rewrite append_cons.
    f_equal. by apply IH.
Qed.

Lemma strip_prefix_append q t : Text.strip_prefix q (q +:+ t) = Some t.
Proof.
  induction q as [|a q IH]; [done|]. rewrite append_cons. cbn.
  by rewrite Ascii.eqb_refl.
Qed.

(** No match of the pattern starts inside a non-empty part that holds no
    equals sign and is followed by the key. *)
Lemma no_match_before c p rest :
  Text.existsb_str (Ascii.eqb "=") (String c p) = false ->
  Text.strip_prefix "user_id=" (String c p +:+ "user_id=" +:+ rest) = None.
Proof.
  intros He.
  destruct (Text.strip_prefix "user_id=" (String c p +:+ "user_id=" +:+ rest))
    as [t|] eqn:E; [|done].
  exfalso. apply strip_prefix_Some in E.
  destruct p as [|c2 [|c3 [|c4 [|c5 [|c6 [|c7 [|c8 p]]]]]]];
    rewrite ?append_cons, ?append_nil in E; try discriminate E.
  injection E as -> -> -> -> -> -> -> -> _. by cbn in He.
Qed.

(** The leftmost match is the key that follows a prefix without an equals
    sign. *)
Lemma match_user_id_at prefix d rest :
  Text.existsb_str (Ascii.eqb "=") prefix = false ->
  Text.forallb_str Text.is_digit d = true -> d ≠ "" ->
  digit_run rest = "" ->
  match_user_id (prefix +:+ "user_id=" +:+ d +:+ rest) = Some d.
Proof.
  intros He Hd Hne Hr. induction prefix as [|c p IH].
  - rewrite append_nil.
    change (match_user_id ("user_id=" +:+ d +:+ rest))
      with (match Text.strip_prefix "user_id=" ("user_id=" +:+ d +:+ rest) with
            | Some tail =>
                if String.eqb (digit_run tail) ""
                then match_user_id ("ser_id=" +:+ d +:+ rest)
                else Some (digit_run tail)
            | None => match_user_id ("ser_id=" +:+ d +:+ rest)
            end).
    rewrite strip_prefix_append, digit_run_append by done.
    by rewrite eqb_empty_false.
  - pose proof (no_match_before c p (d +:+ rest) He) as Hn.
    rewrite append_cons in Hn |- *. cbn [match_user_id]. rewrite Hn.
    apply IH. cbn in He. by apply orb_false_iff in He as [_ ?].
Qed.

Lemma extract_entries_href prefix n rest :
  Text.existsb_str (Ascii.eqb "=") prefix = false ->
  0 <= n -> digit_run rest = "" ->
  extractUserIdFromHref
    (prefix +:+ "user_id=" +:+ JS.to_string (JS.Num n) +:+ rest) = JS.Num n.
Proof.
  intros He Hn Hr. unfold extractUserIdFromHref.
  destruct (to_string_digits n Hn) as [Hd Hne].
  rewrite match_user_id_at by done. by rewrite parseInt_to_string.
Qed.

Lemma entries_href_shape origin n rest :
  origin +:+ entries_path n +:+ rest
  = (origin +:+ "/entries?") +:+ "user_id=" +:+ JS.to_string (JS.Num n)
    +:+ rest.
Proof.
  unfold entries_path. rewrite !append_assoc. reflexivity.
Qed.

Lemma click_needs_pin href userName r s :
  needs_pin r = true ->
  Eff.run (handleUserClick_settled href userName r) s
  = mkState
      (Eff.run (PinAuth.showPinForUser (extractUserIdFromHref href) userName)
         (pinAuth s))
      (effects s).
Proof.
  destruct r as [|[|] [[|success has_pin]|]]; cbn; try done.
  intros [Hs Hp]%andb_true_iff.
  unfold handleUserClick_settled, Eff.run, Eff.try_catch. cbn.
  by rewrite Hs, Hp.
Qed.

Lemma click_passes href userName r s :
  needs_pin r = false ->
  Eff.run (handleUserClick_settled href userName r) s
  = mkState (pinAuth s) (effects s ++ [LocationAssign href])%list.
Proof.
  destruct r as [|ok [[|success has_pin]|]]; try done.
  intros Hn. unfold handleUserClick_settled, Eff.run, Eff.try_catch.
  destruct ok; [|done]. cbn in Hn |- *.
  destruct (JS.truthy success); [|done]. cbn in Hn |- *. by rewrite Hn.
Qed.

Lemma verify_submit_valid (s : PinAuth.state) u :
  PinAuth.currentUser s = Some u ->
  Spec.four_digits (Text.trim (PinAuth.pinInput_value s)) ->
  Eff.run PinAuth.submitPin s
  = Eff.run (PinAuth.emit
               (Pin.Fetch "/verify_pin" (PinAuth.id u)
                  (Text.trim (PinAuth.pinInput_value s)))) s.
Proof.
  intros Hu Hf.
  unfold PinAuth.submitPin, Eff.run, Eff.bind at 1, Eff.gets at 1.
  rewrite (four_digits_nonempty _ Hf).
  apply rejected_false_iff in Hf as ->.
  unfold Eff.try_catch, PinAuth.currentUser_id, Eff.bind, Eff.gets.
  by rewrite Hu.
Qed.

Lemma verify_settled_confirmed r (s : PinAuth.state) u :
  confirmed r = true -> PinAuth.currentUser s = Some u ->
  Eff.run (PinAuth.submitPin_settled r) s
  = Eff.run (PinAuth.emit
               (Pin.LocationAssign
                  ("/entries?user_id=" +:+ JS.to_string (PinAuth.id u)))) s.
Proof.
  destruct r as [|[|] [[|success error]|]]; cbn; try done.
  intros Hs Hu. settled_unfold. rewrite Hs. cbn. rewrite !Hu. reflexivity.
Qed.

End UserCards.

(** X14. A click on a user card fails open: the PIN overlay is shown, for
    the user of the card, only when the server answered OK with a true
    [success] and a true [has_pin]; in every other case (no PIN, an error
    status, an unreadable or [null] body, a failed request) the browser is
    sent to the card's address and the overlay is left alone. *)
Theorem card_click_fails_open href userName r (s : UserClickHandler.state) :
  let s' := Eff.run (UserClickHandler.handleUserClick_settled href userName r)
              s in
  (Flows.needs_pin r = true ->
   UserClickHandler.effects s' = UserClickHandler.effects s
   ∧ PinAuth.currentUser (UserClickHandler.pinAuth s')
     = Some (PinAuth.mkUser (UserClickHandler.extractUserIdFromHref href)
                            userName)
   ∧ PinAuth.pinOverlay_display (UserClickHandler.pinAuth s') = "flex"
   ∧ PinAuth.pinInput_value (UserClickHandler.pinAuth s') = "")
  ∧ (Flows.needs_pin r = false ->
     UserClickHandler.effects s'
     = (UserClickHandler.effects s
        ++ [UserClickHandler.LocationAssign href])%list
     ∧ UserClickHandler.pinAuth s' = UserClickHandler.pinAuth s).
Proof.
  intros s'. subst s'. split; intros Hn.
  - by rewrite click_needs_pin.
  - by rewrite click_passes.
Qed.

Lemma card_click_fails_open_witness :
  let s := UserClickHandler.mkState
             (PinAuth.mkState "" "" "none" "none" "" "" None []) [] in
  let s' := Eff.run (UserClickHandler.handleUserClick_settled
                       "/entries?user_id=7" "Ada"
                       (UserClickHandler.Response false
                          (Some UserClickHandler.JsonNull))) s in
  UserClickHandler.effects s'
  = (UserClickHandler.effects s
     ++ [UserClickHandler.LocationAssign "/entries?user_id=7"])%list
  ∧ UserClickHandler.pinAuth s' = UserClickHandler.pinAuth s.
Proof.
  intros s.
  apply (card_click_fails_open "/entries?user_id=7" "Ada"
           (UserClickHandler.Response false (Some UserClickHandler.JsonNull))
           s).
  reflexivity.
Defined.

(** X15. The id of a card is read back from its address: for an address
    that ends in the entries path of user [n], possibly followed by other
    parameters, with no equals sign before the path, [extractUserIdFromHref]
    returns [n]. *)
Theorem card_id_is_read_back origin n rest :
  Text.existsb_str (Ascii.eqb "=") origin = false ->
  0 <= n < 2 ^ 53 ->
  UserClickHandler.digit_run rest = "" ->
  UserClickHandler.extractUserIdFromHref
    (origin +:+ Flows.entries_path n +:+ rest) = JS.Num n.
Proof.
  intros Ho Hn Hr. rewrite entries_href_shape.
  apply extract_entries_href; [|lia|done].
  rewrite existsb_str_append, Ho. reflexivity.
Qed.

Lemma card_id_is_read_back_witness :
  UserClickHandler.extractUserIdFromHref
    ("http://localhost:5000" +:+ Flows.entries_path 42 +:+ "&require_pin=true")
  = JS.Num 42.
Proof.
  apply (card_id_is_read_back "http://localhost:5000" 42 "&require_pin=true");
    [reflexivity | lia | reflexivity].
Defined.

(** X16. The way through the PIN overlay ends where the card points to. A
    card with the address of the entries of user [n] is clicked and the
    server says the user has a PIN; the overlay opens, four digits are
    typed among other characters and Enter is pressed; the server confirms.
    Then the click itself does not navigate, the one verification request
    carries the id [n] and the four digits, and the browser is sent to the
    entries path of user [n]. *)
Theorem pin_path_opens_the_card
    origin n userName typed check answer (s : UserClickHandler.state) :
  Text.existsb_str (Ascii.eqb "=") origin = false ->
  0 <= n < 2 ^ 53 ->
  Flows.needs_pin check = true ->
  String.length (PinKeys.digits_only typed) = 4%nat ->
  Flows.confirmed answer = true ->
  let href := origin +:+ Flows.entries_path n in
  let s0 := Eff.run (UserClickHandler.handleUserClick href) s in
  let s1 := Eff.run (UserClickHandler.handleUserClick_settled
                       href userName check) s0 in
  let p2 := Eff.run (PinAuthHandlers.input typed)
              (UserClickHandler.pinAuth s1) in
  let p3 := Eff.run (PinAuthHandlers.handleKeydown "Enter") p2 in
  let p4 := Eff.run (PinAuth.submitPin_settled answer) p3 in
  Flows.added (UserClickHandler.effects s) (UserClickHandler.effects s1)
  = [UserClickHandler.FetchCheck (JS.Num n)]
  ∧ Spec.requests_made (PinAuth.effects p2) (PinAuth.effects p3)
    = [Pin.Fetch "/verify_pin" (JS.Num n) (PinKeys.digits_only typed)]
  ∧ Flows.added (PinAuth.effects p3) (PinAuth.effects p4)
    = [Pin.LocationAssign (Flows.entries_path n)].
Proof.
  intros Ho Hn Hc Hl Ha href s0 s1 p2 p3 p4.
  assert (Hid : UserClickHandler.extractUserIdFromHref href = JS.Num n).
  { subst href. rewrite <- (append_empty_r (Flows.entries_path n)).
    rewrite entries_href_shape.
    apply extract_entries_href; [|lia|done].
    rewrite existsb_str_append, Ho. reflexivity. }
  assert (E1 : s1 = UserClickHandler.mkState
                      (Eff.run (PinAuth.showPinForUser (JS.Num n) userName)
                         (UserClickHandler.pinAuth s))
                      (UserClickHandler.effects s
                       ++ [UserClickHandler.FetchCheck (JS.Num n)])%list).
  { subst s1 s0. rewrite click_needs_pin by done. rewrite Hid.
    unfold UserClickHandler.handleUserClick. rewrite Hid. reflexivity. }
  assert (Hv : PinAuth.pinInput_value p2 = PinKeys.digits_only typed)
    by (subst p2; rewrite E1; reflexivity).
  assert (Hu : PinAuth.currentUser p2
               = Some (PinAuth.mkUser (JS.Num n) userName))
    by (subst p2; rewrite E1; reflexivity).
  assert (Hd : Text.forallb_str Text.is_digit (PinAuth.pinInput_value p2)
               = true) by (rewrite Hv; apply digits_only_digits).
  assert (Hf : Spec.four_digits (Text.trim (PinAuth.pinInput_value p2))).
  { rewrite trim_digits by done. split; [by rewrite Hv | done]. }
  assert (E3 : p3 = Eff.run PinAuth.submitPin p2) by reflexivity.
  split; [|split].
  - rewrite E1. unfold Flows.added. cbn. by rewrite drop_app_length.
  - rewrite E3, (verify_request_of_digits p2 _ Hu Hd), Hv, Hl. reflexivity.
  - assert (Hu3 : PinAuth.currentUser p3
                  = Some (PinAuth.mkUser (JS.Num n) userName)).
    { rewrite E3, (verify_submit_valid p2 _ Hu Hf). exact Hu. }
    clearbody p3. subst p4.
    rewrite (verify_settled_confirmed answer p3 _ Ha Hu3).
    unfold Flows.added. cbn. by rewrite drop_app_length.
Qed.

Lemma pin_path_opens_the_card_witness :
  let s := UserClickHandler.mkState
             (PinAuth.mkState "" "" "none" "none" "" "" None []) [] in
  let href := "http://localhost:5000" +:+ Flows.entries_path 42 in
  let s0 := Eff.run (UserClickHandler.handleUserClick href) s in
  let s1 := Eff.run (UserClickHandler.handleUserClick_settled href "Ada"
                       (UserClickHandler.Response true
                          (Some (UserClickHandler.JsonFields
                                   (JS.Bool true) (JS.Bool true))))) s0 in
  let p2 := Eff.run (PinAuthHandlers.input "12-34")
              (UserClickHandler.pinAuth s1) in
  let p3 := Eff.run (PinAuthHandlers.handleKeydown "Enter") p2 in
  let p4 := Eff.run (PinAuth.submitPin_settled
                       (Pin.Response true
                          (Some (Pin.JsonFields (JS.Bool true)
                                                JS.Undefined)))) p3 in
  Flows.added (PinAuth.effects p3) (PinAuth.effects p4)
  = [Pin.LocationAssign (Flows.entries_path 42)].
Proof.
  intros s.
  refine (proj2 (proj2 (pin_path_opens_the_card
                          "http://localhost:5000" 42 "Ada" "12-34"
                          (UserClickHandler.Response true
                             (Some (UserClickHandler.JsonFields
                                      (JS.Bool true) (JS.Bool true))))
                          (Pin.Response true
                             (Some (Pin.JsonFields (JS.Bool true)
                                                   JS.Undefined)))
                          s _ _ _ _ _)));
    [reflexivity | lia | reflexivity | reflexivity | reflexivity].
Defined.

(** ** The consumption page: display, buttons and the Done button *)

Section OrderViews.
Import BeverageConsumption Spec Flows.

Lemma new_quantity_stored action q :
  (if String.eqb action "increase" then q + 1
   else if String.eqb action "decrease" && (0 <? q) then q - 1 else q)
  = stored action q.
Proof.
  unfold stored.
  destruct (String.eqb_spec action "increase") as [Hi|Hi];
    destruct (String.eqb_spec action "decrease") as [Hd|Hd];
    destruct (Z.ltb_spec 0 q);
    destruct (decide (action = "increase"));
    destruct (decide (action = "decrease" ∧ 0 < q));
    simpl; try reflexivity; try lia; try congruence; exfalso; tauto.
Qed.

(** [updateQuantity] in full: it stores first; it completes when the card
    and its display exist, and throws otherwise with the cards untouched. *)
Lemma updateQuantity_outcome beverageId action s :
  let q := stored action (quantity s beverageId) in
  updateQuantity beverageId action s
  = match cards s !! beverageId with
    | Some c =>
        match quantity_display c with
        | Some _ =>
            Eff.Ret tt (mkState (<[beverageId := q]> (order s))
                          (<[beverageId := refreshed q c]> (cards s)))
        | None => Eff.Throw (mkState (<[beverageId := q]> (order s)) (cards s))
        end
    | None => Eff.Throw (mkState (<[beverageId := q]> (order s)) (cards s))
    end.
Proof.
  intros q.
  unfold updateQuantity, updateQuantityDisplay, Eff.bind, Eff.gets,
    Eff.modify, Eff.throw. fold (quantity s beverageId).
  rewrite new_quantity_stored. fold q. cbn.
  destruct (cards s !! beverageId) as [c|]; [|done].
  destruct (quantity_display c); [|done]. cbn.
  unfold refreshed. by destruct (increase_originally_disabled c).
Qed.

Lemma get_or_zero_Some q : get_or_zero (Some q) = q.
Proof. unfold get_or_zero. destruct (Z.eqb_spec q 0); congruence. Qed.

Lemma quantity_after beverageId action s :
  quantity (Eff.run (updateQuantity beverageId action) s) beverageId
  = stored action (quantity s beverageId).
Proof.
  unfold quantity at 1. rewrite updateQuantity_order, lookup_insert_eq.
  apply get_or_zero_Some.
Qed.

Lemma stored_increase q : stored "increase" q = q + 1.
Proof. unfold stored. by rewrite decide_True. Qed.

Lemma stored_decrease q :
  stored "decrease" q = if decide (0 < q) then q - 1 else q.
Proof.
  unfold stored. rewrite decide_False by done.
  destruct (decide (0 < q)); [by rewrite decide_True | rewrite decide_False];
    [done | tauto].
Qed.

Lemma refreshed_in_sync q c : in_sync q (refreshed q c).
Proof.
  split; [done|]. cbn. intros d. by destruct (decrease_disabled c); intros [= <-].
Qed.


Lemma hasItems_false_iff s :
  QuantityButtons.hasItems s = false
  ↔ forall k q, order s !! k = Some q -> q <= 0.
Proof.
  unfold QuantityButtons.hasItems. split.
  - intros He k q Hk.
    destruct (Z.ltb_spec 0 q) as [Hq|Hq]; [|done].
    assert (Hin : q ∈ (map_to_list (order s)).*2).
    { apply list_elem_of_fmap. exists (k, q). split; [done|].
      by apply elem_of_map_to_list. }
    apply list_elem_of_In in Hin.
    assert (existsb (fun qty => 0 <? qty) (map_to_list (order s)).*2 = true).
    { apply existsb_exists. exists q. split; [done | by apply Z.ltb_lt]. }
    congruence.
  - intros Hall.
    destruct (existsb (fun qty => 0 <? qty) (map_to_list (order s)).*2)
      eqn:E; [|done].
    apply existsb_exists in E as (q & Hin & Hq).
    apply list_elem_of_In, list_elem_of_fmap in Hin as ([k q'] & -> & Hin).
    apply elem_of_map_to_list in Hin. apply Z.ltb_lt in Hq. cbn in Hq.
    specialize (Hall k q' Hin). lia.
Qed.

(** A click that gets through: the button exists and is enabled, the card
    has a display. *)
Lemma click_outcome beverageId b s c :
  cards (QuantityButtons.page s) !! beverageId = Some c ->
  is_Some (quantity_display c) ->
  QuantityButtons.disabled b c = Some false ->
  beverageId ≠ "" ->
  let q := stored (QuantityButtons.action b)
             (quantity (QuantityButtons.page s) beverageId) in
  Eff.run (QuantityButtons.click beverageId b) s
  = QuantityButtons.mkState
      (mkState (<[beverageId := q]> (order (QuantityButtons.page s)))
         (<[beverageId := refreshed q (QuantityButtons.set_disabled b true c)]>
            (cards (QuantityButtons.page s))))
      (QuantityButtons.timers s
       ++ [QuantityButtons.mkTimer beverageId b false])%list.
Proof.
  intros Hc [txt Hd] Hb Hne q.
  unfold QuantityButtons.click, Eff.run, Eff.bind at 1, Eff.gets at 1.
  rewrite Hc, Hb, (eqb_empty_false _ Hne).
  unfold QuantityButtons.set_button, Eff.bind, Eff.modify,
    QuantityButtons.on_page. cbn [QuantityButtons.page QuantityButtons.timers].
  rewrite Hc, updateQuantity_outcome. cbn [cards order].
  rewrite lookup_insert_eq.
  assert (quantity_display (QuantityButtons.set_disabled b true c) = Some txt)
    as -> by (by destruct b).
  cbn. unfold quantity. cbn [order]. fold (quantity (QuantityButtons.page s) beverageId).
  fold q. by rewrite insert_insert_eq.
Qed.

End OrderViews.



(** X18. [updateQuantity] stores before it displays. For a beverage whose
    card or quantity display is missing, the call throws; the order map
    holds the new quantity all the same, and no card is touched. *)
Theorem updateQuantity_without_display beverageId action s :
  (BeverageConsumption.cards s !! beverageId = None
   ∨ exists c, BeverageConsumption.cards s !! beverageId = Some c
               ∧ BeverageConsumption.quantity_display c = None) ->
  let o := BeverageConsumption.updateQuantity beverageId action s in
  Eff.throws o = true
  ∧ BeverageConsumption.cards (Eff.final o) = BeverageConsumption.cards s
  ∧ BeverageConsumption.order (Eff.final o)
    = <[beverageId := Spec.stored action
                        (BeverageConsumption.quantity s beverageId)]>
        (BeverageConsumption.order s).
Proof.
  intros Hc o. subst o. rewrite updateQuantity_outcome.
  destruct Hc as [->|(c & -> & ->)]; done.
Qed.

Lemma updateQuantity_without_display_witness :
  let s := BeverageConsumption.init ∅ in
  let o := BeverageConsumption.updateQuantity "7" "increase" s in
  Eff.throws o = true
  ∧ BeverageConsumption.cards (Eff.final o) = BeverageConsumption.cards s
  ∧ BeverageConsumption.order (Eff.final o)
    = <["7" := Spec.stored "increase" (BeverageConsumption.quantity s "7")]>
        (BeverageConsumption.order s).
Proof.
  intros s.
  apply (updateQuantity_without_display "7" "increase" s).
  left. reflexivity.
Defined.

(** X19. Increase and decrease undo each other in one order only. From a
    quantity that is not negative, an increase followed by a decrease gives
    the quantity back; a decrease followed by an increase gives it back
    unless it was 0, where the decrease does nothing and the result is 1. *)
Theorem increase_decrease_round_trip beverageId s :
  0 <= BeverageConsumption.quantity s beverageId ->
  let up := BeverageConsumption.updateQuantity beverageId "increase" in
  let down := BeverageConsumption.updateQuantity beverageId "decrease" in
  BeverageConsumption.quantity (Eff.run down (Eff.run up s)) beverageId
  = BeverageConsumption.quantity s beverageId
  ∧ BeverageConsumption.quantity (Eff.run up (Eff.run down s)) beverageId
    = Z.max 1 (BeverageConsumption.quantity s beverageId).
Proof.
  intros Hq up down. subst up down. rewrite !quantity_after.
  rewrite !stored_increase, !stored_decrease.
  repeat (destruct (decide _)); lia.
Qed.

Lemma increase_decrease_round_trip_witness :
  let s := BeverageConsumption.init ∅ in
  let up := BeverageConsumption.updateQuantity "7" "increase" in
  let down := BeverageConsumption.updateQuantity "7" "decrease" in
  BeverageConsumption.quantity (Eff.run down (Eff.run up s)) "7"
  = BeverageConsumption.quantity s "7"
  ∧ BeverageConsumption.quantity (Eff.run up (Eff.run down s)) "7"
    = Z.max 1 (BeverageConsumption.quantity s "7").
Proof.
  intros s.
  apply (increase_decrease_round_trip "7" s).
  vm_compute. discriminate.
Defined.

(** X20. The Done button leaves for the index page exactly when nothing is
    selected: after any sequence of [updateQuantity] calls on the freshly
    constructed page, [handleDoneClick] goes home if and only if every
    quantity is 0, however many entries the order map holds by then. *)
Theorem done_goes_home_iff_nothing_selected
    (cs : gmap string BeverageConsumption.card)
    (calls : list (string * string)) :
  let s := BeverageConsumption.updateQuantities
             calls (BeverageConsumption.init cs) in
  QuantityButtons.handleDoneClick s = QuantityButtons.GoHome
  ↔ forall beverageId, BeverageConsumption.quantity s beverageId = 0.
Proof.
  intros s.
  assert (Hs : map_Forall (fun _ q => 0 <= q <= Z.of_nat (List.length calls))
                          (BeverageConsumption.order s)).
  { apply (updateQuantities_bounds calls _ 0); [lia|].
    simpl. apply map_Forall_empty. }
  clearbody s. unfold QuantityButtons.handleDoneClick.
  destruct (QuantityButtons.hasItems s) eqn:E; cbn.
  - split; [done|]. intros Hall. exfalso.
    assert (QuantityButtons.hasItems s = false); [|congruence].
    apply hasItems_false_iff. intros k q Hk.
    specialize (Hall k). unfold BeverageConsumption.quantity in Hall.
    rewrite Hk, get_or_zero_Some in Hall. lia.
  - split; [|done]. intros _ k.
    unfold BeverageConsumption.quantity.
    destruct (BeverageConsumption.order s !! k) as [q|] eqn:Hk; [|done].
    rewrite get_or_zero_Some.
    pose proof (proj1 (hasItems_false_iff s) E k q Hk) as Hle.
    pose proof (Hs k q Hk) as Hb. cbn in Hb. lia.
Qed.

(** X21. The debounce of the quantity buttons does not hold the button:
    the listener disables the clicked button, but [updateQuantity], called
    next, writes the flag again. When the listener returns, a decrease
    button is disabled only if the quantity has reached 0, and an increase
    button only if it carries [data-originally-disabled]; the timer that is
    to enable the button again is pending all the same. *)
Theorem click_leaves_button_enabled beverageId b s c :
  BeverageConsumption.cards (QuantityButtons.page s) !! beverageId = Some c ->
  is_Some (BeverageConsumption.quantity_display c) ->
  QuantityButtons.disabled b c = Some false ->
  beverageId ≠ "" ->
  let s1 := Eff.run (QuantityButtons.click beverageId b) s in
  let q := BeverageConsumption.quantity (QuantityButtons.page s1) beverageId in
  q = Spec.stored (QuantityButtons.action b)
        (BeverageConsumption.quantity (QuantityButtons.page s) beverageId)
  ∧ QuantityButtons.timers s1
    = (QuantityButtons.timers s
       ++ [QuantityButtons.mkTimer beverageId b false])%list
  ∧ exists c1,
      BeverageConsumption.cards (QuantityButtons.page s1) !! beverageId
      = Some c1
      ∧ QuantityButtons.disabled b c1
        = Some (match b with
                | QuantityButtons.Decrease => q =? 0
                | QuantityButtons.Increase =>
                    BeverageConsumption.increase_originally_disabled c
                end).
Proof.
  intros Hc Hd Hb Hne s1 q. subst q s1.
  rewrite (click_outcome beverageId b s c Hc Hd Hb Hne).
  cbn [QuantityButtons.page QuantityButtons.timers].
  set (q := Spec.stored (QuantityButtons.action b)
              (BeverageConsumption.quantity (QuantityButtons.page s)
                 beverageId)).
  assert (Hq : BeverageConsumption.quantity
                 (BeverageConsumption.mkState
                    (<[beverageId := q]>
                       (BeverageConsumption.order (QuantityButtons.page s)))
                    (<[beverageId :=
                         Flows.refreshed q
                           (QuantityButtons.set_disabled b true c)]>
                       (BeverageConsumption.cards (QuantityButtons.page s))))
                 beverageId = q).
  { unfold BeverageConsumption.quantity. cbn [BeverageConsumption.order].
    by rewrite lookup_insert_eq, get_or_zero_Some. }
  rewrite Hq. split; [done|]. split; [done|].
  eexists. cbn [BeverageConsumption.cards]. rewrite lookup_insert_eq.
  split; [reflexivity|].
  destruct b; cbn in Hb |- *; rewrite Hb; cbn.
  - done.
  - by destruct (BeverageConsumption.increase_originally_disabled c).
Qed.

Lemma click_leaves_button_enabled_witness :
  let c := BeverageConsumption.mkCard (Some "0") (Some true) (Some false)
             false in
  let s := QuantityButtons.mkState (BeverageConsumption.init {[ "7" := c ]})
             [] in
  let s1 := Eff.run (QuantityButtons.click "7" QuantityButtons.Increase) s in
  exists c1,
    BeverageConsumption.cards (QuantityButtons.page s1) !! "7" = Some c1
    ∧ QuantityButtons.disabled QuantityButtons.Increase c1 = Some false.
Proof.
  intros c s.
  refine (proj2 (proj2 (click_leaves_button_enabled
                          "7" QuantityButtons.Increase s c _ _ _ _))).
  - vm_compute. reflexivity.
  - by eexists.
  - reflexivity.
  - discriminate.
Defined.

(** X22. The timer of the debounce enables the decrease button at quantity
    0. A click on the decrease button at quantity 1 stores 0 and leaves the
    card in step with it, the decrease button disabled; when the timer of
    that click runs, the button is enabled again although the quantity is
    still 0. *)
Theorem timer_enables_decrease_at_zero beverageId s c :
  BeverageConsumption.cards (QuantityButtons.page s) !! beverageId = Some c ->
  is_Some (BeverageConsumption.quantity_display c) ->
  BeverageConsumption.decrease_disabled c = Some false ->
  beverageId ≠ "" ->
  BeverageConsumption.quantity (QuantityButtons.page s) beverageId = 1 ->
  let s1 := Eff.run (QuantityButtons.click beverageId QuantityButtons.Decrease)
              s in
  exists t c1 c2,
    last (QuantityButtons.timers s1) = Some t
    ∧ BeverageConsumption.cards (QuantityButtons.page s1) !! beverageId
      = Some c1
    ∧ Flows.in_sync 0 c1
    ∧ let s2 := Eff.run (QuantityButtons.timer_fires t) s1 in
      BeverageConsumption.quantity (QuantityButtons.page s2) beverageId = 0
      ∧ BeverageConsumption.cards (QuantityButtons.page s2) !! beverageId
        = Some c2
      ∧ BeverageConsumption.decrease_disabled c2 = Some false
      ∧ ¬ Flows.in_sync 0 c2.
Proof.
  intros Hc Hd Hb Hne Hq s1. subst s1.
  rewrite (click_outcome beverageId QuantityButtons.Decrease s c Hc Hd Hb Hne).
  cbn [QuantityButtons.action]. rewrite Hq, stored_decrease. cbn [decide].
  rewrite decide_True by lia. change (1 - 1) with 0.
  eexists (QuantityButtons.mkTimer beverageId QuantityButtons.Decrease false),
    _, _.
  cbn [QuantityButtons.timers QuantityButtons.page BeverageConsumption.cards].
  split; [by rewrite last_snoc|].
  rewrite lookup_insert_eq. split; [reflexivity|].
  split; [apply refreshed_in_sync|].
  unfold QuantityButtons.timer_fires, Eff.run, QuantityButtons.set_button,
    Eff.modify.
  cbn [negb QuantityButtons.originalDisabled QuantityButtons.timer_card
       QuantityButtons.timer_button Eff.final QuantityButtons.page
       BeverageConsumption.cards BeverageConsumption.order].
  rewrite lookup_insert_eq.
  cbn [QuantityButtons.page BeverageConsumption.cards].
  rewrite lookup_insert_eq.
  split; [|split; [reflexivity|]].
  - unfold BeverageConsumption.quantity. cbn [BeverageConsumption.order].
    by rewrite lookup_insert_eq.
  - cbn. rewrite Hb. cbn. split; [done|].
    intros [_ H]. specialize (H false eq_refl). done.
Qed.

Lemma timer_enables_decrease_at_zero_witness :
  let c := BeverageConsumption.mkCard (Some "1") (Some false) (Some false)
             false in
  let s := QuantityButtons.mkState
             (BeverageConsumption.mkState {[ "7" := 1 ]} {[ "7" := c ]}) [] in
  let s1 := Eff.run (QuantityButtons.click "7" QuantityButtons.Decrease) s in
  exists t c1 c2,
    last (QuantityButtons.timers s1) = Some t
    ∧ BeverageConsumption.cards (QuantityButtons.page s1) !! "7" = Some c1
    ∧ Flows.in_sync 0 c1
    ∧ let s2 := Eff.run (QuantityButtons.timer_fires t) s1 in
      BeverageConsumption.quantity (QuantityButtons.page s2) "7" = 0
      ∧ BeverageConsumption.cards (QuantityButtons.page s2) !! "7" = Some c2
      ∧ BeverageConsumption.decrease_disabled c2 = Some false
      ∧ ¬ Flows.in_sync 0 c2.
Proof.
  intros c s.
  apply (timer_enables_decrease_at_zero "7" s c).
  - vm_compute. reflexivity.
  - by eexists.
  - reflexivity.
  - discriminate.
  - vm_compute. reflexivity.
Defined.

(** ** The search field of the user grid *)

Section SearchField.
Import UserSearchPage Flows.

Lemma fuzzyMatch_string_iff text pattern :
  UserSearch.fuzzyMatch_string text pattern = true
  ↔ sublist (list_ascii_of_string pattern) (list_ascii_of_string text).
Proof.
  unfold UserSearch.fuzzyMatch_string, UserSearch.fuzzyMatch.
  rewrite bool_decide_eq_true, fuzzyLoop_consumed, !drop_0. simpl.
  apply consumed_all_iff_sublist.
Qed.

Lemma isMatch_found term c : isMatch term c = true ↔ found term c.
Proof.
  unfold isMatch, found, occurs_in.
  rewrite !orb_true_iff, !fuzzyMatch_string_iff. tauto.
Qed.

Lemma isMatch_same_person term c c' :
  same_person c c' -> isMatch term c = isMatch term c'.
Proof. intros (E1 & E2 & E3). unfold isMatch. by rewrite E1, E2, E3. Qed.

Lemma filter_from_cards n term cs :
  Forall2 (fun c c' => same_person c c'
                       ∧ hidden c' = negb (isMatch term c))
          cs (filter_from n term cs).1.
Proof.
  revert n. induction cs as [|c cs IH]; intros n; cbn; [constructor|].
  destruct (isMatch term c) eqn:E; cbn; constructor; auto;
    repeat split; by rewrite E.
Qed.

Lemma filter_from_count n term cs :
  (filter_from n term cs).2
  = (n + List.length (filter (fun c => hidden c = false)
                             (filter_from n term cs).1))%nat.
Proof.
  revert n. induction cs as [|c cs IH]; intros n; [cbn; lia|].
  cbn [filter_from]. destruct (isMatch term c); cbn [fst snd].
  - rewrite filter_cons_True by done. cbn [List.length]. rewrite IH. lia.
  - rewrite filter_cons_False by done. apply IH.
Qed.

Lemma filter_from_delays n term cs :
  let visible := filter (fun c => hidden c = false)
                        (filter_from n term cs).1 in
  animationDelay <$> visible = Some <$> seq n (List.length visible).
Proof.
  revert n. induction cs as [|c cs IH]; intros n; [done|].
  cbn [filter_from]. destruct (isMatch term c); cbn [fst snd]; cbn zeta.
  - rewrite filter_cons_True by done. cbn [List.length seq fmap list_fmap].
    f_equal. apply IH.
  - rewrite filter_cons_False by done. apply IH.
Qed.

Lemma show_from_cards n cs :
  Forall2 (fun c c' => same_person c c' ∧ hidden c' = false)
          cs (show_from n cs).
Proof.
  revert n. induction cs as [|c cs IH]; intros n; cbn; constructor; auto.
  repeat split.
Qed.

Lemma show_from_visible n cs :
  filter (fun c => hidden c = false) (show_from n cs) = show_from n cs.
Proof.
  revert n. induction cs as [|c cs IH]; intros n; [done|].
  cbn [show_from]. rewrite filter_cons_True by done. by rewrite IH.
Qed.

Lemma show_from_delays n cs :
  animationDelay <$> show_from n cs
  = Some <$> seq n (List.length (show_from n cs)).
Proof.
  revert n. induction cs as [|c cs IH]; intros n; cbn; [done|].
  f_equal. apply IH.
Qed.

(** The cards after [handleSearch]; an exception of the message says
    nothing about them. *)
Lemma toggle_cards show s :
  cards (Eff.final (toggleNoResultsMessage show s)) = cards s.
Proof.
  unfold toggleNoResultsMessage, Eff.bind, Eff.gets, Eff.modify, Eff.throw,
    Eff.ret.
  destruct show, (noResultsMessage s); cbn; try reflexivity.
  destruct (userGrid s); reflexivity.
Qed.

Lemma handleSearch_cards query s :
  cards (Eff.run (handleSearch query) s)
  = if String.eqb (Text.trim (toLowerCase query)) ""
    then show_from 0 (cards s)
    else (filter_from 0 (Text.trim (toLowerCase query)) (cards s)).1.
Proof.
  unfold handleSearch, Eff.run.
  destruct (String.eqb (Text.trim (toLowerCase query)) "").
  - unfold showAllCards, Eff.bind, Eff.modify. by rewrite toggle_cards.
  - unfold filterCards, Eff.bind at 1 2 3, Eff.gets at 1, Eff.modify at 1.
    match goal with
    | |- context [toggleNoResultsMessage ?b ?t] =>
        pose proof (toggle_cards b t) as H;
        destruct (toggleNoResultsMessage b t)
    end; exact H.
Qed.

Lemma input_cards query s :
  cards (Eff.run (input query) s) = cards (Eff.run (handleSearch query) s).
Proof.
  unfold input, Eff.run, Eff.bind at 1, Eff.modify at 1.
  change (cards (Eff.run (handleSearch query)
                   (mkState query (clearButton_display s) (userGrid s)
                            (noResultsMessage s) (cards s) (focused s)))
          = cards (Eff.run (handleSearch query) s)).
  by rewrite !handleSearch_cards.
Qed.

Lemma toggle_with_grid show s :
  userGrid s = true ∨ show = false ->
  toggleNoResultsMessage show s = Eff.Ret tt (set_noResults show s).
Proof.
  intros Hg.
  unfold toggleNoResultsMessage, Eff.bind, Eff.gets, Eff.modify, Eff.throw,
    Eff.ret.
  destruct s as [v d g m cs f]. cbn in *.
  destruct show, m; cbn; try reflexivity.
  destruct Hg as [->|?]; done.
Qed.

Lemma filterCards_with_grid term s :
  userGrid s = true ->
  let r := filter_from 0 term (cards s) in
  filterCards term s
  = Eff.Ret tt (set_noResults (Nat.eqb r.2 0) (set_cards r.1 s)).
Proof.
  intros Hg r. unfold filterCards, Eff.bind at 1 2, Eff.gets at 1,
    Eff.modify at 1. fold r.
  by rewrite toggle_with_grid by (by left).
Qed.

Lemma input_with_grid query s :
  userGrid s = true ->
  let term := Text.trim (toLowerCase query) in
  Eff.run (input query) s
  = if String.eqb term "" then
      mkState query "none" true false (show_from 0 (cards s)) (focused s)
    else
      let r := filter_from 0 term (cards s) in
      mkState query "block" true (Nat.eqb r.2 0) r.1 (focused s).
Proof.
  intros Hg term.
  unfold input, handleSearch, Eff.run, Eff.bind at 1, Eff.modify at 1.
  fold term. destruct (String.eqb term "").
  - unfold showAllCards, Eff.bind, Eff.modify.
    rewrite toggle_with_grid by (by right). cbn. by rewrite Hg.
  - unfold Eff.bind. rewrite filterCards_with_grid by done. cbn.
    by rewrite Hg.
Qed.

Lemma input_blank query s :
  Text.trim (toLowerCase query) = "" ->
  Eff.run (input query) s
  = mkState query "none" (userGrid s) false (show_from 0 (cards s))
            (focused s).
Proof.
  intros Hb.
  unfold input, handleSearch, Eff.run, Eff.bind at 1, Eff.modify at 1.
  rewrite Hb. cbn [String.eqb].
  unfold showAllCards, Eff.bind, Eff.modify.
  by rewrite toggle_with_grid by (by right).
Qed.

Lemma escape_state s :
  Eff.run (handleKeydown "Escape") s
  = mkState "" "none" (userGrid s) false (show_from 0 (cards s))
            (S (focused s)).
Proof.
  change (handleKeydown "Escape") with clearSearch.
  unfold clearSearch, Eff.run, showAllCards, Eff.bind, Eff.modify.
  by rewrite toggle_with_grid by (by right).
Qed.

Lemma visible_none_iff n term cs :
  Nat.eqb (filter_from n term cs).2 n = true
  ↔ filter (fun c => hidden c = false) (filter_from n term cs).1 = [].
Proof.
  rewrite filter_from_count, Nat.eqb_eq.
  destruct (filter _ _); cbn; split; (done || lia).
Qed.

Lemma Forall2_common {A B C} (P : A -> B -> Prop) (Q : A -> C -> Prop)
    l a b :
  Forall2 P l a -> Forall2 Q l b ->
  Forall2 (fun x y => exists c, P c x ∧ Q c y) a b.
Proof.
  intros Ha. revert b. induction Ha as [|c x l a Hc Ha IH]; intros b Hb.
  - inversion Hb. constructor.
  - inversion Hb as [|? y ? b' Hy Hb']; subst. constructor; [|by apply IH].
    by exists c.
Qed.

Lemma found_narrow t1 t2 c :
  sublist (list_ascii_of_string t1) (list_ascii_of_string t2) ->
  found t2 c -> found t1 c.
Proof.
  intros Hs. unfold found, occurs_in.
  intros [H|[H|H]]; [left | right; left | right; right];
    by etrans; [exact Hs|].
Qed.

End SearchField.

(** X23. A search shows exactly the matches. For a query that is not
    blank, after the input event every card still stands for the same
    person, in the same order, and a card is visible (its class list lacks
    [hidden]) exactly when the lower-cased, trimmed query is a subsequence
    of the lower-cased full, first or last name of the card. *)
Theorem search_shows_the_matches query (s : UserSearchPage.state) :
  let term := Text.trim (UserSearchPage.toLowerCase query) in
  term ≠ "" ->
  Forall2 (fun c c' => Flows.same_person c c'
                       ∧ (UserSearchPage.hidden c' = false
                          ↔ Flows.found term c))
          (UserSearchPage.cards s)
          (UserSearchPage.cards (Eff.run (UserSearchPage.input query) s)).
Proof.
  intros term Hne. rewrite input_cards, handleSearch_cards. fold term.
  rewrite eqb_empty_false by done.
  eapply Forall2_impl; [apply filter_from_cards|].
  intros c c' [Hp Hh]. split; [done|]. rewrite Hh, <- isMatch_found.
  by destruct (UserSearchPage.isMatch term c).
Qed.

Lemma search_shows_the_matches_witness :
  let s := UserSearchPage.mkState "" "none" true false
             [UserSearchPage.mkCard "Ada Lovelace" "Ada" "Lovelace" false None;
              UserSearchPage.mkCard "Alan Turing" "Alan" "Turing" false None]
             0 in
  Forall2 (fun c c' => Flows.same_person c c'
                       ∧ (UserSearchPage.hidden c' = false
                          ↔ Flows.found "tug" c))
          (UserSearchPage.cards s)
          (UserSearchPage.cards (Eff.run (UserSearchPage.input " TuG ") s)).
Proof.
  intros s.
  apply (search_shows_the_matches " TuG " s).
  vm_compute. discriminate.
Defined.

(** X24. The visible cards are staggered. After any input event, blank
    query or not, the cards that are visible carry the animation delays of
    0, 1, 2, ... steps in document order. *)
Theorem visible_cards_are_staggered query (s : UserSearchPage.state) :
  Flows.staggered
    (UserSearchPage.getVisibleCards (Eff.run (UserSearchPage.input query) s)).
Proof.
  unfold Flows.staggered, UserSearchPage.getVisibleCards.
  rewrite input_cards, handleSearch_cards.
  destruct (String.eqb (Text.trim (UserSearchPage.toLowerCase query)) "").
  - rewrite show_from_visible. apply show_from_delays.
  - apply filter_from_delays.
Qed.

(** X25. The message that no users were found is on the page exactly
    after a search that is not blank and leaves no card visible (the grid
    being there to hold it); the clear button is shown exactly for a query
    that is not blank. *)
Theorem no_results_message_iff query (s : UserSearchPage.state) :
  UserSearchPage.userGrid s = true ->
  let term := Text.trim (UserSearchPage.toLowerCase query) in
  let s' := Eff.run (UserSearchPage.input query) s in
  (UserSearchPage.noResultsMessage s' = true
   ↔ term ≠ "" ∧ UserSearchPage.getVisibleCards s' = [])
  ∧ (UserSearchPage.clearButton_display s' = "block" ↔ term ≠ "")
  ∧ (UserSearchPage.clearButton_display s' = "none" ↔ term = "")
  ∧ UserSearchPage.searchInput_value s' = query.
Proof.
  intros Hg term s'. subst s'. rewrite (input_with_grid query s Hg).
  fold term. unfold UserSearchPage.getVisibleCards.
  destruct (String.eqb_spec term "") as [E|E]; cbn.
  - split; [split; [done | by intros [? _]]|].
    split; [split; done|]. done.
  - split; [|split; [split; done|split; [split; done|done]]].
    change 0%nat with 0%nat at 1.
    rewrite (visible_none_iff 0). tauto.
Qed.

Lemma no_results_message_iff_witness :
  let s := UserSearchPage.mkState "" "none" true false
             [UserSearchPage.mkCard "Ada Lovelace" "Ada" "Lovelace" false None]
             0 in
  let s' := Eff.run (UserSearchPage.input "xyz") s in
  UserSearchPage.noResultsMessage s' = true
  ↔ Text.trim (UserSearchPage.toLowerCase "xyz") ≠ ""
    ∧ UserSearchPage.getVisibleCards s' = [].
Proof.
  intros s.
  refine (proj1 (no_results_message_iff "xyz" s _)).
  reflexivity.
Defined.

(** X26. A blank query and the Escape key both show everything: every
    card is visible again, the message is gone and the clear button is
    hidden; Escape also empties the field and focuses it. *)
Theorem blank_query_and_escape_show_all query (s : UserSearchPage.state) :
  Text.trim (UserSearchPage.toLowerCase query) = "" ->
  let a := Eff.run (UserSearchPage.input query) s in
  let b := Eff.run (UserSearchPage.handleKeydown "Escape") s in
  UserSearchPage.cards a = UserSearchPage.cards b
  ∧ Forall2 (fun c c' => Flows.same_person c c'
                         ∧ UserSearchPage.hidden c' = false)
            (UserSearchPage.cards s) (UserSearchPage.cards b)
  ∧ UserSearchPage.noResultsMessage a = false
  ∧ UserSearchPage.noResultsMessage b = false
  ∧ UserSearchPage.clearButton_display a = "none"
  ∧ UserSearchPage.clearButton_display b = "none"
  ∧ UserSearchPage.searchInput_value b = ""
  ∧ UserSearchPage.focused b = S (UserSearchPage.focused s).
Proof.
  intros Hb a b. subst a b.
  rewrite (input_blank query s Hb), escape_state. cbn.
  split; [done|]. split; [apply show_from_cards|]. done.
Qed.

Lemma blank_query_and_escape_show_all_witness :
  let s := UserSearchPage.mkState "ada" "block" true true
             [UserSearchPage.mkCard "Alan Turing" "Alan" "Turing" true None]
             0 in
  UserSearchPage.cards (Eff.run (UserSearchPage.input "  ") s)
  = UserSearchPage.cards (Eff.run (UserSearchPage.handleKeydown "Escape") s).
Proof.
  intros s.
  refine (proj1 (blank_query_and_escape_show_all "  " s _)).
  reflexivity.
Defined.

(** X27. A longer search term never brings a card back: if one term is a
    subsequence of another, every card that [filterCards] leaves visible
    for the longer one is visible for the shorter one too. *)
Theorem longer_term_shows_fewer t1 t2 (s : UserSearchPage.state) :
  sublist (list_ascii_of_string t1) (list_ascii_of_string t2) ->
  Forall2 (fun a b => UserSearchPage.hidden b = false ->
                      UserSearchPage.hidden a = false)
    (UserSearchPage.cards (Eff.run (UserSearchPage.filterCards t1) s))
    (UserSearchPage.cards (Eff.run (UserSearchPage.filterCards t2) s)).
Proof.
  intros Hs.
  assert (Hc : forall t,
             UserSearchPage.cards (Eff.run (UserSearchPage.filterCards t) s)
             = (UserSearchPage.filter_from 0 t (UserSearchPage.cards s)).1).
  { intros t. unfold UserSearchPage.filterCards, Eff.run, Eff.bind at 1 2,
      Eff.gets at 1, Eff.modify at 1, Eff.bind.
    match goal with
    | |- context [UserSearchPage.toggleNoResultsMessage ?x ?y] =>
        pose proof (toggle_cards x y) as H;
        destruct (UserSearchPage.toggleNoResultsMessage x y)
    end; exact H. }
  rewrite !Hc.
  eapply Forall2_impl.
  - exact (Forall2_common _ _ _ _ _
             (filter_from_cards 0 t1 (UserSearchPage.cards s))
             (filter_from_cards 0 t2 (UserSearchPage.cards s))).
  - intros a b (c & [_ Ha] & [_ Hb]) Hv. rewrite Ha. rewrite Hb in Hv.
    apply negb_false_iff in Hv. apply isMatch_found in Hv.
    apply (found_narrow t1 t2 c Hs), isMatch_found in Hv. by rewrite Hv.
Qed.

Lemma longer_term_shows_fewer_witness :
  let s := UserSearchPage.mkState "" "none" true false
             [UserSearchPage.mkCard "Ada Lovelace" "Ada" "Lovelace" false None;
              UserSearchPage.mkCard "Alan Turing" "Alan" "Turing" false None]
             0 in
  Forall2 (fun a b => UserSearchPage.hidden b = false ->
                      UserSearchPage.hidden a = false)
    (UserSearchPage.cards (Eff.run (UserSearchPage.filterCards "al") s))
    (UserSearchPage.cards (Eff.run (UserSearchPage.filterCards "alt") s)).
Proof.
  intros s.
  apply (longer_term_shows_fewer "al" "alt" s).
  cbn. apply sublist_skip, sublist_skip, sublist_nil_l.
Defined.

(** ** The class attribute under applyTheme *)

Section ClassNames.
Import Text Spec Runs.

Lemma whitespace_not_word c :
  is_ascii_whitespace c = true -> is_word c = false.
Proof. destruct c as [[] [] [] [] [] [] [] []]; vm_compute; congruence. Qed.

Lemma word_not_whitespace t :
  forallb_str is_word t = true -> existsb_str is_ascii_whitespace t = false.
Proof.
  induction t as [|c t IH]; [done|]. cbn. intros [Hc Ht]%andb_true_iff.
  rewrite (IH Ht), orb_false_r.
  destruct (is_ascii_whitespace c) eqn:E; [|done].
  apply whitespace_not_word in E. congruence.
Qed.

Lemma word_run_sep x c r :
  is_ascii_whitespace c = true ->
  word_run (x +:+ String c r) = word_run x.
Proof.
  intros Hc. induction x as [|a x IH].
  - rewrite append_nil. cbn. by rewrite (whitespace_not_word c Hc).
  - rewrite append_cons. cbn. by rewrite IH.
Qed.

Lemma strip_prefix_sep p x c r :
  existsb_str (Ascii.eqb c) p = false ->
  strip_prefix p (x +:+ String c r)
  = (fun y => y +:+ String c r) <$> strip_prefix p x.
Proof.
  revert x. induction p as [|a p IH]; intros x Hp; [done|].
  cbn in Hp. apply orb_false_iff in Hp as [Ha Hp].
  destruct x as [|b x].
  - rewrite append_nil. cbn. rewrite Ascii.eqb_sym in Ha. by rewrite Ha.
  - rewrite append_cons. cbn. destruct (Ascii.eqb a b); [by apply IH | done].
Qed.

Lemma whitespace_not_in_theme c :
  is_ascii_whitespace c = true ->
  existsb_str (Ascii.eqb c) "theme-" = false.
Proof. destruct c as [[] [] [] [] [] [] [] []]; vm_compute; congruence. Qed.

(** A match of the pattern never reaches over whitespace. *)
Lemma match_theme_class_sep x c r :
  is_ascii_whitespace c = true ->
  match_theme_class (x +:+ String c r) = match_theme_class x.
Proof.
  intros Hc. unfold match_theme_class.
  rewrite (strip_prefix_sep _ x c r (whitespace_not_in_theme c Hc)).
  destruct (strip_prefix "theme-" x) as [y|]; [|done]. cbn.
  by rewrite word_run_sep.
Qed.

Lemma strip_prefix_length p x y :
  strip_prefix p x = Some y ->
  String.length x = (String.length p + String.length y)%nat.
Proof.
  revert x. induction p as [|a p IH]; intros x; cbn.
  - by intros [= ->].
  - destruct x as [|b x]; [done|]. destruct (Ascii.eqb a b); [|done].
    intros H. cbn. by rewrite (IH x H).
Qed.

Lemma word_run_length x : (word_run x <= String.length x)%nat.
Proof.
  induction x as [|c x IH]; cbn; [lia|]. destruct (is_word c); lia.
Qed.

Lemma match_theme_class_length x n :
  match_theme_class x = Some n -> (1 <= n <= String.length x)%nat.
Proof.
  unfold match_theme_class.
  destruct (strip_prefix "theme-" x) as [y|] eqn:E; [|done].
  apply strip_prefix_length in E.
  pose proof (word_run_length y).
  destruct (word_run y); [done|]. intros [= <-]. cbn in E. lia.
Qed.

(** The replacement works on each side of a whitespace character apart. *)
Lemma drop_theme_classes_sep k x c r :
  is_ascii_whitespace c = true -> (k <= String.length x)%nat ->
  drop_theme_classes_from k (x +:+ String c r)
  = drop_theme_classes_from k x +:+ String c (drop_theme_classes_from 0 r).
Proof.
  intros Hc. revert k. induction x as [|a x IH]; intros k Hk.
  - cbn in Hk. assert (k = 0)%nat as -> by lia.
    rewrite append_nil. cbn [drop_theme_classes_from].
    assert (match_theme_class (String c r) = None) as ->.
    { change (String c r) with ("" +:+ String c r).
      by rewrite match_theme_class_sep. }
    done.
  - rewrite append_cons. cbn [drop_theme_classes_from]. destruct k as [|k].
    + rewrite <- append_cons, match_theme_class_sep by done.
      destruct (match_theme_class (String a x)) as [n|] eqn:E.
      * apply match_theme_class_length in E. cbn in E.
        apply IH. lia.
      * rewrite append_cons. f_equal. apply IH. lia.
    + apply IH. cbn in Hk. lia.
Qed.

Lemma drop_theme_classes_from_ws k x :
  existsb_str is_ascii_whitespace x = false ->
  existsb_str is_ascii_whitespace (drop_theme_classes_from k x) = false.
Proof.
  revert k. induction x as [|a x IH]; intros k Hx; [done|].
  cbn in Hx. apply orb_false_iff in Hx as [Ha Hx].
  cbn [drop_theme_classes_from]. destruct k as [|k]; [|by apply IH].
  destruct (match_theme_class (String a x)); [by apply IH|].
  cbn. by rewrite Ha, IH.
Qed.

Lemma split_ws_from_whole d :
  existsb_str is_ascii_whitespace d = false ->
  split_ws_from "" d = if String.eqb d "" then [] else [d].
Proof.
  intros Hd. rewrite <- (append_empty_r d) at 1.
  rewrite split_ws_from_append, append_nil by done. reflexivity.
Qed.

(** The class tokens of the attribute after the replacement are the
    tokens before it, each with its matches dropped. *)
Lemma split_ws_drop_from x s :
  existsb_str is_ascii_whitespace x = false ->
  split_ws (drop_theme_classes (x +:+ s))
  = filter (fun r => r ≠ "") (drop_theme_classes <$> split_ws_from x s).
Proof.
  revert x. induction s as [|c s IH]; intros x Hx.
  - rewrite append_empty_r. cbn [split_ws_from]. unfold split_ws.
    rewrite split_ws_from_whole by (by apply drop_theme_classes_from_ws).
    destruct (String.eqb_spec x "") as [->|Hne]; [done|].
    cbn [fmap list_fmap].
    destruct (String.eqb_spec (drop_theme_classes x) "") as [E|E].
    + by rewrite filter_cons_False by (by rewrite E; intros ?).
    + by rewrite filter_cons_True.
  - cbn [split_ws_from]. destruct (is_ascii_whitespace c) eqn:Hc.
    + unfold drop_theme_classes at 1, split_ws.
      rewrite drop_theme_classes_sep by (done || lia).
      rewrite split_ws_from_append, append_nil
        by (by apply drop_theme_classes_from_ws).
      cbn [split_ws_from]. rewrite Hc.
      specialize (IH "" eq_refl). rewrite append_nil in IH.
      unfold split_ws, drop_theme_classes at 1 in IH.
      destruct (String.eqb_spec x "") as [->|Hne].
      * cbn. exact IH.
      * cbn [fmap list_fmap]. fold (drop_theme_classes x).
        destruct (String.eqb_spec (drop_theme_classes x) "") as [E|E].
        -- rewrite filter_cons_False by (by rewrite E; intros ?). exact IH.
        -- rewrite filter_cons_True by done. by rewrite IH.
    + replace (x +:+ String c s) with ((x +:+ String c "") +:+ s)
        by (by rewrite append_assoc).
      apply IH. rewrite existsb_str_append, Hx. cbn. by rewrite Hc.
Qed.

Lemma classes_after_replacement className :
  split_ws (drop_theme_classes className) = remaining_classes className.
Proof. exact (split_ws_drop_from "" className eq_refl). Qed.

Lemma ordered_append_NoDup set t :
  NoDup set -> NoDup (Dom.ordered_append set t).
Proof.
  intros Hs. unfold Dom.ordered_append. case_bool_decide; [done|].
  apply NoDup_app. split; [done|]. split.
  - intros x Hx Hin. apply list_elem_of_singleton in Hin as ->. done.
  - apply NoDup_singleton.
Qed.

Lemma fold_ordered_append_NoDup l set :
  NoDup set -> NoDup (fold_left Dom.ordered_append l set).
Proof.
  revert set. induction l as [|t l IH]; intros set Hs; [done|].
  cbn. by apply IH, ordered_append_NoDup.
Qed.

Lemma fold_ordered_append_fresh l set :
  NoDup (set ++ l) ->
  fold_left Dom.ordered_append l set = (set ++ l)%list.
Proof.
  revert set. induction l as [|t l IH]; intros set Hs.
  - by rewrite app_nil_r.
  - cbn. unfold Dom.ordered_append at 2.
    apply NoDup_app in Hs as Hs'. destruct Hs' as (_ & Hd & _).
    rewrite bool_decide_eq_false_2.
    + rewrite IH; [by rewrite <- app_assoc|]. by rewrite <- app_assoc.
    + intros Hin. apply (Hd t Hin). left.
Qed.

Lemma ordered_set_NoDup l : NoDup l -> ordered_set l = l.
Proof. intros Hl. by apply (fold_ordered_append_fresh l []). Qed.

(** The class list that [applyTheme] leaves, from the class attribute it
    finds. *)
Lemma themed_classList t b :
  theme_name t ->
  Dom.classList (themed t b)
  = Dom.ordered_append (ordered_set (remaining_classes (Dom.className b)))
                       ("theme-" +:+ t).
Proof.
  intros Ht. unfold themed. unfold Dom.classList at 1.
  cbn [Dom.className Dom.set_className Dom.setAttribute_theme].
  set (L := Dom.ordered_append _ _).
  assert (HL : L = Dom.ordered_append
                     (ordered_set (remaining_classes (Dom.className b)))
                     ("theme-" +:+ t)).
  { subst L. unfold Dom.classList. cbn [Dom.className Dom.set_className].
    by rewrite classes_after_replacement. }
  assert (Htok : Forall token L).
  { subst L. apply ordered_append_tokens;
      [apply classList_tokens | by apply theme_class_token]. }
  assert (Hnd : NoDup L).
  { rewrite HL. apply ordered_append_NoDup, fold_ordered_append_NoDup.
    constructor. }
  rewrite split_ws_join by done.
  fold (ordered_set L). by rewrite ordered_set_NoDup.
Qed.

Lemma drop_theme_classes_from_all k x :
  (String.length x <= k)%nat -> drop_theme_classes_from k x = "".
Proof.
  revert k. induction x as [|a x IH]; intros k Hk; [done|].
  cbn in Hk. destruct k as [|k]; [lia|]. cbn. apply IH. lia.
Qed.

Lemma word_run_all w :
  forallb_str is_word w = true -> word_run w = String.length w.
Proof.
  induction w as [|c w IH]; [done|]. cbn. intros [Hc Hw]%andb_true_iff.
  by rewrite Hc, IH.
Qed.

(** The class of a word name is dropped as a whole. *)
Lemma drop_theme_class w :
  word_name w -> drop_theme_classes ("theme-" +:+ w) = "".
Proof.
  intros [Hne Hw]. unfold drop_theme_classes.
  change ("theme-" +:+ w) with (String "t" ("heme-" +:+ w)).
  cbn [drop_theme_classes_from].
  assert (match_theme_class (String "t" ("heme-" +:+ w))
          = Some (6 + String.length w)%nat) as ->.
  { unfold match_theme_class.
    change (String "t" ("heme-" +:+ w)) with ("theme-" +:+ w).
    rewrite strip_prefix_append, word_run_all by done.
    destruct w; [done|]. reflexivity. }
  apply drop_theme_classes_from_all.
  change ("heme-" +:+ w) with (String "h" (String "e" (String "m"
    (String "e" (String "-" w))))). cbn. lia.
Qed.

Lemma applyTheme_body t s :
  theme_name t ->
  Page.body (Eff.run (ThemeClient.applyTheme (JS.Str t)) s)
  = themed t (Page.body s).
Proof.
  intros Ht. unfold Eff.run. rewrite applyTheme_name by done.
  unfold logged. cbn. by destruct (Page.THEME_DEBUG s), s.
Qed.

Lemma remaining_of_switch cls t1 :
  Forall token cls -> Forall (fun c => drop_theme_classes c = c) cls ->
  word_name t1 ->
  remaining_classes (join_sp (cls ++ ["theme-" +:+ t1])) = cls.
Proof.
  intros Htok Hplain Hw. unfold remaining_classes.
  rewrite split_ws_join.
  - rewrite fmap_app. cbn [fmap list_fmap]. rewrite (drop_theme_class t1 Hw).
    rewrite filter_app, filter_cons_False, filter_nil, app_nil_r
      by (by intros ?).
    clear Hw. induction cls as [|c cls IH]; [done|].
    inversion Htok as [|? ? [Hne _] Htok']; subst.
    inversion Hplain as [|? ? Hc Hplain']; subst.
    cbn [fmap list_fmap]. rewrite Hc, filter_cons_True by done.
    f_equal. by apply IH.
  - apply Forall_app. split; [done|]. constructor; [|constructor].
    destruct Hw as [Hne Hw]. split; [done|].
    rewrite existsb_str_append. by rewrite (word_not_whitespace t1 Hw).
Qed.

End ClassNames.

(** X28. [applyTheme] works on the class attribute class by class. For a
    theme name, the class list afterwards consists of the classes found
    before, in their order and without repetition, each with its matches of
    the pattern for theme classes dropped and left out if nothing remains of
    it, followed by the class of the theme unless that is among them; the
    attribute [data-theme] holds the name. *)
Theorem applyTheme_acts_per_class t (s : Page.state) :
  Spec.theme_name t ->
  let b := Page.body (Eff.run (ThemeClient.applyTheme (JS.Str t)) s) in
  Dom.classList b
  = Dom.ordered_append
      (Runs.ordered_set
         (Runs.remaining_classes (Dom.className (Page.body s))))
      ("theme-" +:+ t)
  ∧ Dom.data_theme b = Some t.
Proof.
  intros Ht b. subst b. rewrite applyTheme_body by done.
  split; [by apply themed_classList | reflexivity].
Qed.

Lemma applyTheme_acts_per_class_witness :
  let s := Page.fresh (Dom.mkBody None "nav  theme-a-b nav xtheme-old") false in
  Dom.classList (Page.body (Eff.run (ThemeClient.applyTheme (JS.Str "winter"))
                              s))
  = Dom.ordered_append
      (Runs.ordered_set
         (Runs.remaining_classes (Dom.className (Page.body s))))
      "theme-winter".
Proof.
  intros s.
  refine (proj1 (applyTheme_acts_per_class "winter" s _)).
  split; [discriminate | reflexivity].
Defined.

(** X29. A theme switch replaces the theme class and keeps the rest. When
    the class attribute lists some distinct classes without theme parts and
    then the class of a theme whose name is made of word characters,
    applying another theme leaves exactly those classes, in their order,
    and the class of the new theme. *)
Theorem theme_switch_replaces_class cls t1 t2 (s : Page.state) :
  Forall Spec.token cls ->
  NoDup cls ->
  Forall (fun c => Text.drop_theme_classes c = c) cls ->
  Runs.word_name t1 ->
  Spec.theme_name t2 ->
  Dom.className (Page.body s) = Text.join_sp (cls ++ ["theme-" +:+ t1]) ->
  Dom.classList (Page.body (Eff.run (ThemeClient.applyTheme (JS.Str t2)) s))
  = Dom.ordered_append cls ("theme-" +:+ t2).
Proof.
  intros Htok Hnd Hplain Hw Ht Hc.
  rewrite applyTheme_body, themed_classList by done.
  rewrite Hc, remaining_of_switch by done.
  by rewrite ordered_set_NoDup.
Qed.

Lemma theme_switch_replaces_class_witness :
  let s := Page.fresh (Dom.mkBody (Some "coffee") "page dark theme-coffee")
             false in
  Dom.classList (Page.body (Eff.run (ThemeClient.applyTheme (JS.Str "winter"))
                              s))
  = Dom.ordered_append ["page"; "dark"] "theme-winter".
Proof.
  intros s.
  apply (theme_switch_replaces_class ["page"; "dark"] "coffee" "winter" s).
  - repeat constructor; discriminate.
  - apply NoDup_cons. split; [|apply NoDup_singleton].
    intros Hin. inversion Hin as [|? ? ? Hin']; inversion Hin'.
  - repeat constructor.
  - split; [discriminate | reflexivity].
  - split; [discriminate | reflexivity].
  - reflexivity.
Defined.

(** ** The theme that the page shows *)

Section ShownTheme.
Import Text Page Spec Runs Look.

Lemma plain_tail a c : plain (String a c) -> plain c.
Proof.
  intros Hp x y E. apply (Hp (String a x) y). by rewrite append_cons, E.
Qed.

(** The replacement leaves a plain class as it is. *)
Lemma plain_drop c : plain c -> drop_theme_classes c = c.
Proof.
  unfold drop_theme_classes. induction c as [|a c IH]; intros Hp; [done|].
  cbn [drop_theme_classes_from].
  assert (match_theme_class (String a c) = None) as ->.
  { unfold match_theme_class.
    destruct (strip_prefix "theme-" (String a c)) as [rest|] eqn:E; [|done].
    apply strip_prefix_Some in E. by destruct (Hp "" rest). }
  f_equal. apply IH. by apply plain_tail in Hp.
Qed.

Lemma theme_class_drop c : theme_class c -> drop_theme_classes c = "".
Proof. intros (w & Hw & ->). by apply drop_theme_class. Qed.

Lemma theme_class_not_plain t : ¬ plain ("theme-" +:+ t).
Proof. intros Hp. by apply (Hp "" t). Qed.

Lemma elem_of_ordered_set l c : c ∈ ordered_set l ↔ c ∈ l.
Proof.
  unfold ordered_set. rewrite elem_of_fold_ordered_append, elem_of_nil. tauto.
Qed.

Lemma elem_of_classList b c :
  c ∈ Dom.classList b ↔ c ∈ split_ws (Dom.className b).
Proof. apply elem_of_ordered_set. Qed.

(** In a tidy body the classes that remain are the plain ones. *)
Lemma remaining_of_tidy b c :
  tidy b ->
  c ∈ remaining_classes (Dom.className b) ↔ c ∈ Dom.classList b ∧ plain c.
Proof.
  intros Htidy. unfold remaining_classes.
  rewrite list_elem_of_filter, list_elem_of_fmap.
  unfold tidy in Htidy. rewrite Forall_forall in Htidy. split.
  - intros (Hne & c0 & -> & Hin).
    apply elem_of_classList in Hin.
    destruct (Htidy c0 Hin) as [Hp|Ht].
    + by rewrite (plain_drop c0 Hp).
    + by rewrite (theme_class_drop c0 Ht) in Hne.
  - intros [Hin Hp]. split.
    + pose proof (classList_tokens b) as Htok.
      rewrite Forall_forall in Htok. by destruct (Htok c Hin).
    + exists c. split; [by rewrite plain_drop|]. by apply elem_of_classList.
Qed.

(** The body that [applyTheme] leaves shows the theme in place of the
    former one. *)
Lemma switched_themed t b : theme_name t -> switched_to t b (themed t b).
Proof.
  intros Ht. destruct (themed_applied t b Ht) as [Ha Hc].
  split; [done|]. split; [done|]. intros Htidy c.
  rewrite themed_classList, elem_of_ordered_append, elem_of_ordered_set
    by done.
  by rewrite remaining_of_tidy.
Qed.

Lemma body_logged msg s : body (logged msg s) = body s.
Proof. unfold logged. by destruct (THEME_DEBUG s), s. Qed.

Lemma body_note e s : body (note e s) = body s.
Proof. by destruct s. Qed.

Lemma body_shown t v s : body (shown t v s) = themed t (body s).
Proof. unfold shown. rewrite body_logged. by destruct s. Qed.

Lemma body_set_initialized i s : body (set_initialized i s) = body s.
Proof. by destruct s. Qed.

Lemma body_set_currentVersion v s : body (set_currentVersion v s) = body s.
Proof. by destruct s. Qed.

Lemma body_set_body b s : body (set_body b s) = b.
Proof. by destruct s. Qed.

End ShownTheme.

(** Brings the body of a state written with [shown] to [themed]. *)
Ltac shown_body :=
  rewrite ?body_note, ?body_logged, ?body_set_initialized, ?body_shown;
  by apply switched_themed.

(** C3. A theme message whose version is the recorded one and whose theme
    name is not the current theme makes the page show the new theme in
    place of the former one (root attribute and class: in a tidy body the
    classes are then the plain classes it had and the class of the new
    theme) and record it; the version stays and the page neither reloads
    nor navigates. This holds on both paths and in every state of the
    client. *)
Theorem same_version_new_theme_applies_without_reload :
  forall (p : Spec.path) (s : Page.state) (success : JS.value) (t : string),
    Spec.theme_name t ->
    Spec.theme_message p success ->
    JS.Str t ≠ Page.currentTheme s ->
    let s' := Spec.receive p success (JS.Str t) (Page.currentVersion s) s in
    Look.switched_to t (Page.body s) (Page.body s')
    ∧ Page.currentTheme s' = JS.Str t
    ∧ Page.currentVersion s' = Page.currentVersion s
    ∧ Forall (fun e => Spec.navigation e = false) (Spec.emitted s s').
Proof.
  intros p s success t Ht Hm Hne s'. subst s'.
  assert (Hshown :
    let s1 := Spec.shown t (Page.currentVersion s) s in
    Look.switched_to t (Page.body s) (Page.body s1)
    ∧ Page.currentTheme s1 = JS.Str t
    ∧ Page.currentVersion s1 = Page.currentVersion s
    ∧ Forall (fun e => Spec.navigation e = false) (Spec.emitted s s1)).
  { destruct (after_shown t Ht (Page.currentVersion s) s)
      as (_ & Hv & Hc & _ & _ & l & He & Hl).
    split; [shown_body|]. (do 2 (split; [done|])).
    rewrite (emitted_app _ _ _ He). by apply console_log_not_navigation. }
  destruct p as [now|].
  - destruct (Page.initialized s) eqn:Hi.
    + by rewrite (sse_theme_change t Ht).
    + rewrite (sse_initial t Ht) by done.
      destruct (after_sse_initial t Ht (Page.currentVersion s) s)
        as (_ & Hv & Hc & _ & _ & l & He & Hl).
      split; [shown_body|]. (do 2 (split; [done|])).
      rewrite (emitted_app _ _ _ He). by apply console_log_not_navigation.
  - cbn in Hm. destruct (decide (Page.currentVersion s = JS.Null)) as [Hn|Hn].
    + by rewrite (poll_initial t Ht).
    + by rewrite (poll_theme_change t Ht).
Qed.

Lemma same_version_new_theme_applies_without_reload_witness :
  let s := Page.mkState (JS.Str "coffee") (JS.Str "1") true Page.SourceOpen []
             (Dom.mkBody (Some "coffee") "page theme-coffee") None false [] in
  let s' := Spec.receive (Spec.ViaSSE 1000) JS.Undefined (JS.Str "winter")
              (JS.Str "1") s in
  Look.switched_to "winter" (Page.body s) (Page.body s')
  ∧ Page.currentTheme s' = JS.Str "winter"
  ∧ Page.currentVersion s' = JS.Str "1"
  ∧ Forall (fun e => Spec.navigation e = false) (Spec.emitted s s').
Proof.
  intros s.
  apply (same_version_new_theme_applies_without_reload
           (Spec.ViaSSE 1000) s JS.Undefined "winter").
  - split; [done | reflexivity].
  - exact I.
  - discriminate.
Defined.

Section FirstMessage.
Import Page Spec Look.


End FirstMessage.




Section LocalChange.
Import Page Spec Look.

(** The setter on a theme name, with any version. *)
Lemma setLocalTheme_any t now v s :
  theme_name t ->
  ThemeClient.setLocalTheme now (JS.Str t) v s
  = Eff.Ret tt
      (let s1 := logged "[theme] applied" (set_body (themed t (body s)) s) in
       if JS.truthy v then set_currentVersion v s1
       else note (LocationReplace (JS.to_string (JS.Num now)))
              (set_currentVersion (JS.Str (JS.to_string (JS.Num now))) s1)).
Proof.
  intros Ht. unfold ThemeClient.setLocalTheme, Eff.bind.
  rewrite theme_name_truthy, applyTheme_name by done. cbn zeta.
  by destruct (JS.truthy v).
Qed.

(** The admin's action on a theme name, with any version. *)
Lemma change_state nowSet nowRec success t v s :
  theme_name t ->
  JS.truthy success = true ->
  change (mkChange nowSet nowRec success t v) s
  = note ModalHide
      (logged "[theme] admin set"
         (set_LAST_THEME_SET (Some nowRec)
            (let s1 := logged "[theme] applied"
                         (set_body (themed t (body s)) s) in
             if JS.truthy v then set_currentVersion v s1
             else note (LocationReplace (JS.to_string (JS.Num nowSet)))
                    (set_currentVersion
                       (JS.Str (JS.to_string (JS.Num nowSet))) s1)))).
Proof.
  intros Ht Hs. unfold change. cbn.
  unfold ThemeSwitcher.selectTheme_settled, Eff.run, Eff.try_catch, Eff.bind,
    JSON_parse, Eff.ret. rewrite Hs. cbn [negb].
  rewrite setLocalTheme_any by done. unfold Eff.modify.
  rewrite debug_log_logged. reflexivity.
Qed.

(** What a change of the theme made in this window leaves, for a theme
    name and an answer that reports success. *)
Lemma local_change_frame l s :
  theme_name (change_theme l) ->
  JS.truthy (change_success l) = true ->
  let s' := change l s in
  let stamp := JS.to_string (JS.Num (change_nowSet l)) in
  currentTheme s' = currentTheme s
  ∧ currentVersion s' = recorded l
  ∧ initialized s' = initialized s
  ∧ LAST_THEME_SET s' = Some (change_nowRec l)
  ∧ body s' = themed (change_theme l) (body s)
  ∧ exists log,
      effects s' = (effects s ++ log)%list
      ∧ (LocationReload ∉ log)
      ∧ filter (fun e => navigation e = true) log
        = (if JS.truthy (change_version l) then []
           else [LocationReplace stamp]).
Proof.
  destruct l as [nowSet nowRec success t v]. cbn. intros Ht Hs.
  rewrite change_state by done. unfold recorded. cbn.
  destruct s as [ct cv ini src ivs b last dbg eff].
  unfold logged, note. cbn.
  destruct (JS.truthy v), dbg; cbn; (do 5 (split; [done|])).
  - exists [ConsoleLog "[theme] applied"; ConsoleLog "[theme] admin set";
            ModalHide].
    split; [by rewrite <- !app_assoc|]. split; [|done].
    intros Hin. apply list_elem_of_In in Hin. cbn in Hin.
    intuition discriminate.
  - exists [ModalHide]. split; [done|]. split; [|done].
    intros Hin. apply list_elem_of_In in Hin. cbn in Hin.
    intuition discriminate.
  - exists [ConsoleLog "[theme] applied";
            LocationReplace (JS.to_string (JS.Num nowSet));
            ConsoleLog "[theme] admin set"; ModalHide].
    split; [by rewrite <- !app_assoc|]. split; [|done].
    intros Hin. apply list_elem_of_In in Hin. cbn in Hin.
    intuition discriminate.
  - exists [LocationReplace (JS.to_string (JS.Num nowSet)); ModalHide].
    split; [by rewrite <- !app_assoc|]. split; [|done].
    intros Hin. apply list_elem_of_In in Hin. cbn in Hin.
    intuition discriminate.
Qed.

End LocalChange.

(** C7. The setter [window.__setLocalTheme], called with a theme name,
    makes the page show the theme at once in place of the former one. With
    a version that is truthy it records that version and neither reloads
    nor navigates; with any other version (0, the empty string, [null],
    [undefined]) it records the time as the version and replaces the
    location with that stamp, its one navigation. The admin's "change
    theme" action calls it with the theme and version of the server's
    answer and then records the time in [window.__LAST_THEME_SET]; as long
    as fewer than 500ms have passed since that time, no event of the push
    channel makes the page reload. *)
Theorem local_setter_applies_and_records_time :
  forall (s : Page.state) (nowSet nowRec : Z) (success : JS.value)
         (t : string) (version : JS.value),
    Spec.theme_name t ->
    JS.truthy success = true ->
    let stamp := JS.to_string (JS.Num nowSet) in
    let s1 := Eff.run (ThemeClient.setLocalTheme nowSet (JS.Str t) version) s in
    let s2 := Eff.run (ThemeSwitcher.selectTheme_settled nowSet nowRec
                         (ThemeSwitcher.Answered
                            (Page.Parsed
                               (Page.JsonFields success (JS.Str t) version)))) s in
    (Look.switched_to t (Page.body s) (Page.body s1)
     ∧ Page.currentVersion s1
       = (if JS.truthy version then version else JS.Str stamp)
     ∧ filter (fun e => Spec.navigation e = true) (Spec.emitted s s1)
       = (if JS.truthy version then [] else [Page.LocationReplace stamp]))
    ∧ (Look.switched_to t (Page.body s) (Page.body s2)
       ∧ Page.currentVersion s2
         = (if JS.truthy version then version else JS.Str stamp)
       ∧ Page.LAST_THEME_SET s2 = Some nowRec
       ∧ filter (fun e => Spec.navigation e = true) (Spec.emitted s s2)
         = (if JS.truthy version then [] else [Page.LocationReplace stamp]))
    ∧ (forall (now : Z) (raw : Page.parsed),
          nowRec ≠ 0 -> now - nowRec < 500 ->
          Page.LocationReload
          ∉ Spec.emitted s2 (Eff.run (ThemeClient.onThemeEvent now raw) s2)).
Proof.
  intros s nowSet nowRec success t version Ht Hs stamp s1 s2.
  destruct (local_change_frame
              (Look.mkChange nowSet nowRec success t version) s Ht Hs)
    as (_ & Hv2 & _ & Hr2 & Hb2 & log & He2 & _ & Hn2).
  change (Look.change (Look.mkChange nowSet nowRec success t version) s)
    with s2 in Hv2, Hr2, Hb2, He2.
  unfold Look.recorded in Hv2. cbn in Hv2, Hr2, Hb2, Hn2. fold stamp in Hv2, Hn2.
  split; [|split].
  - subst s1. unfold Eff.run. rewrite (setLocalTheme_any t nowSet version s Ht).
    cbn [Eff.final]. fold stamp. cbn zeta.
    destruct (JS.truthy version).
    + split; [|split].
      * rewrite ?body_note, body_set_currentVersion, body_logged,
          body_set_body.
        by apply switched_themed.
      * by destruct s.
      * unfold Spec.emitted, Spec.logged.
        destruct s as [? ? ? ? ? ? ? [|] eff]; cbn;
          rewrite ?drop_app_length, ?drop_all; reflexivity.
    + split; [|split].
      * rewrite ?body_note, body_set_currentVersion, body_logged,
          body_set_body.
        by apply switched_themed.
      * by destruct s.
      * unfold Spec.emitted, Spec.logged, Spec.note.
        destruct s as [? ? ? ? ? ? ? [|] eff]; cbn;
          rewrite <- ?app_assoc, ?drop_app_length; reflexivity.
  - clearbody s2. rewrite Hb2, (emitted_app _ _ _ He2).
    split; [by apply switched_themed|]. done.
  - intros now raw H0 Hnow. apply sse_no_reload_in_window.
    rewrite Hr2. cbn. apply andb_true_iff. split.
    + apply negb_true_iff. lia.
    + lia.
Qed.

Lemma local_setter_applies_and_records_time_witness :
  let s := Page.mkState (JS.Str "coffee") (JS.Str "1") true Page.SourceOpen []
             (Dom.mkBody (Some "coffee") "page theme-coffee") None false [] in
  let s2 := Eff.run (ThemeSwitcher.selectTheme_settled 1000 1001
                       (ThemeSwitcher.Answered
                          (Page.Parsed
                             (Page.JsonFields (JS.Bool true) (JS.Str "winter")
                                              (JS.Str "2"))))) s in
  Look.switched_to "winter" (Page.body s) (Page.body s2)
  ∧ Page.currentVersion s2 = JS.Str "2"
  ∧ Page.LAST_THEME_SET s2 = Some 1001
  ∧ filter (fun e => Spec.navigation e = true) (Spec.emitted s s2) = [].
Proof.
  intros s.
  refine (proj1 (proj2 (local_setter_applies_and_records_time
                          s 1000 1001 (JS.Bool true) "winter" (JS.Str "2")
                          _ _))).
  - split; [done | reflexivity].
  - reflexivity.
Defined.

(** A call with a theme and the version 0 navigates: the setter replaces
    the location with the time as the stamp. *)
Lemma local_setter_with_version_zero_navigates :
  let s := Page.mkState (JS.Str "coffee") (JS.Str "1") true Page.SourceOpen []
             (Dom.mkBody (Some "coffee") "page theme-coffee") None false [] in
  Spec.emitted s
    (Eff.run (ThemeClient.setLocalTheme 1000 (JS.Str "winter") (JS.Num 0)) s)
  = [Page.LocationReplace "1000"].
Proof. vm_compute. reflexivity. Qed.

Section Attempts.
Import Page Spec Look.

(** However an attempt to change the theme ends, it leaves the flag of the
    listener alone, and a version that is recorded stays one. *)
Lemma attempt_frame nowSet nowRec r s :
  let s' := Eff.run (ThemeSwitcher.selectTheme_settled nowSet nowRec r) s in
  initialized s' = initialized s
  ∧ (currentVersion s ≠ JS.Null -> currentVersion s' ≠ JS.Null).
Proof.
  intros s'.
  enough (H : exists cv' b' last' eff',
             s' = mkState (currentTheme s) cv' (initialized s) (es s)
                    (intervals s) b' last' (THEME_DEBUG s) eff'
             ∧ (currentVersion s ≠ JS.Null -> cv' ≠ JS.Null)).
  { destruct H as (cv' & b' & last' & eff' & -> & Hn). by split. }
  subst s'. destruct r as [| |[|[|success theme v]]].
  1-4: handler_unfold; cbn; destruct s; cbn; by eexists _, _, _, _.
  destruct (JS.truthy success) eqn:Hs.
  - unfold ThemeSwitcher.selectTheme_settled, Eff.run, Eff.try_catch,
      JSON_parse. unfold Eff.bind at 1 2. unfold Eff.ret at 1 2.
    rewrite Hs. cbn [negb]. unfold Eff.bind at 1.
    destruct (setLocalTheme_frame nowSet theme v s)
      as [(Ha & b' & E)|(Ha & b' & logs & Hl & E)]; rewrite E.
    + cbn. destruct s; cbn. by eexists _, _, _, _.
    + unfold Eff.bind, Eff.modify. rewrite debug_log_logged.
      destruct (JS.truthy v) eqn:Hv;
        destruct s as [? ? ? ? ? ? ? [|] ?]; cbn;
        eexists _, _, _, _; (split; [reflexivity|]);
        intros _ Hn; cbn in Hn; try discriminate Hn; by rewrite Hn in Hv.
  - handler_unfold. cbn. rewrite Hs. cbn. destruct s; cbn.
    by eexists _, _, _, _.
Qed.

Lemma attempts_frame tries s :
  let s' := attempts tries s in
  initialized s' = initialized s
  ∧ (currentVersion s ≠ JS.Null -> currentVersion s' ≠ JS.Null).
Proof.
  revert s. induction tries as [|[[nowSet nowRec] r] tries IH]; intros s;
    [done|].
  cbn [attempts fold_left fst snd].
  destruct (attempt_frame nowSet nowRec r s) as [Hi Hn].
  destruct (IH (Eff.run (ThemeSwitcher.selectTheme_settled nowSet nowRec r) s))
    as [Hi' Hn'].
  unfold attempts in Hi', Hn'. split; [by rewrite Hi', Hi | auto].
Qed.

End Attempts.

(** C4. The trace of the specification, on the push channel as on polling.
    A client whose handler has not dealt with a message receives
    [{theme:"coffee", version:"1"}] and shows "coffee" without reloading.
    The admin may then try to change the theme in this window, any number
    of times and with any outcome. Where that has not left the version "2"
    recorded and the last change lies more than 500ms back, the message
    [{theme:"winter", version:"2"}] makes the page show "winter" in place
    of what it showed and reload. Then the same message again changes
    nothing at all. *)
Theorem coffee_winter_trace :
  forall (c : Spec.channel) (now1 now2 now3 : Z) (s0 : Page.state)
         (success : JS.value) (tries : list Look.attempt),
    let s1 := Spec.receive (Spec.via c now1) success
                (JS.Str "coffee") (JS.Str "1") s0 in
    let s1' := Look.attempts tries s1 in
    let s2 := Spec.receive (Spec.via c now2) success
                (JS.Str "winter") (JS.Str "2") s1' in
    let s3 := Spec.receive (Spec.via c now3) success
                (JS.Str "winter") (JS.Str "2") s2 in
    Spec.theme_message (Spec.via c now1) success ->
    Look.first_for (Spec.via c now1) s0 ->
    Page.currentVersion s1' ≠ JS.Str "2" ->
    (forall l, Page.LAST_THEME_SET s1' = Some l -> 500 < now2 - l) ->
    Look.switched_to "coffee" (Page.body s0) (Page.body s1)
    ∧ Forall (fun e => Spec.navigation e = false) (Spec.emitted s0 s1)
    ∧ Look.switched_to "winter" (Page.body s1') (Page.body s2)
    ∧ Page.LocationReload ∈ Spec.emitted s1' s2
    ∧ s3 = s2.
Proof.
  intros c now1 now2 now3 s0 success tries s1 s1' s2 s3 Hm Hf Hv' Hold.
  pose proof theme_name_coffee as Hc. pose proof theme_name_winter as Hw.
  assert (Hj' : ThemeClient.justChanged now2 (Page.LAST_THEME_SET s1') = false).
  { apply justChanged_old. intros l E. specialize (Hold l E). lia. }
  destruct (attempts_frame tries s1) as [Hi' Hn']. fold s1' in Hi', Hn'.
  clear Hold. destruct c; cbn [Spec.via] in *; cbn in Hf.
  - (* the push channel *)
    assert (E1 : s1 = Spec.logged "[theme] initial SSE payload"
                        (Page.set_initialized true
                           (Spec.shown "coffee" (JS.Str "1") s0)))
      by (by apply sse_initial).
    destruct (after_sse_initial "coffee" Hc (JS.Str "1") s0)
      as (Hi1 & Hv1 & Ht1 & Hl1 & _ & l1 & He1 & Hc1).
    assert (Hb1 : Look.switched_to "coffee" (Page.body s0) (Page.body s1))
      by (rewrite E1; shown_body).
    rewrite <- E1 in Hi1, Hv1, Ht1, Hl1, He1. clearbody s1. clearbody s1'.
    assert (E2 : s2 = Spec.note Page.LocationReload
                        (Spec.logged "[theme] version change reload"
                           (Spec.shown "winter" (JS.Str "2") s1'))).
    { subst s2. rewrite (sse_version_change "winter" Hw);
        [by rewrite Hj' | by rewrite Hi', Hi1 | by intros E; rewrite <- E in Hv']. }
    destruct (after_sse_reload "winter" Hw (JS.Str "2") s1')
      as (Hi2 & Hv2 & Ht2 & _ & l2 & He2 & Hc2).
    assert (Hb2 : Look.switched_to "winter" (Page.body s1') (Page.body s2))
      by (rewrite E2; shown_body).
    rewrite <- E2 in Hi2, Hv2, Ht2, He2. clearbody s2.
    split; [done|]. split.
    { rewrite (emitted_app _ _ _ He1). by apply console_log_not_navigation. }
    split; [done|]. split.
    { rewrite (emitted_app _ _ _ He2). apply elem_of_app. right.
      apply list_elem_of_here. }
    subst s3. apply (sse_no_change "winter"); by rewrite ?Hi2, ?Hi', ?Hi1.
  - (* polling *)
    cbn in Hm.
    assert (E1 : s1 = Spec.shown "coffee" (JS.Str "1") s0)
      by (by apply poll_initial).
    destruct (after_shown "coffee" Hc (JS.Str "1") s0)
      as (_ & Hv1 & Ht1 & Hl1 & _ & l1 & He1 & Hc1).
    assert (Hb1 : Look.switched_to "coffee" (Page.body s0) (Page.body s1))
      by (rewrite E1; shown_body).
    rewrite <- E1 in Hv1, Ht1, Hl1, He1. clearbody s1.
    assert (Hnn : Page.currentVersion s1' ≠ JS.Null)
      by (apply Hn'; by rewrite Hv1).
    clearbody s1'.
    assert (E2 : s2 = Spec.note Page.LocationReload
                        (Spec.shown "winter" (JS.Str "2") s1')).
    { subst s2. apply (poll_version_change "winter" Hw); [done..|].
      by intros E; rewrite <- E in Hv'. }
    destruct (after_poll_reload "winter" Hw (JS.Str "2") s1')
      as (_ & Hv2 & Ht2 & _ & l2 & He2 & Hc2).
    assert (Hb2 : Look.switched_to "winter" (Page.body s1') (Page.body s2))
      by (rewrite E2; shown_body).
    rewrite <- E2 in Hv2, Ht2, He2. clearbody s2.
    split; [done|]. split.
    { rewrite (emitted_app _ _ _ He1). by apply console_log_not_navigation. }
    split; [done|]. split.
    { rewrite (emitted_app _ _ _ He2). apply elem_of_app. right.
      apply list_elem_of_here. }
    subst s3. apply (poll_no_change "winter"); by rewrite ?Hv2.
Qed.

(** The client has opened the event source. Between the two messages the
    admin changes the theme in this window 900ms before the second one,
    which records the version "1b", and a further attempt is redirected to
    the login page. *)
Lemma coffee_winter_trace_witness :
  let s0 := Eff.run (ThemeClient.initSSE true)
              (Page.fresh (Dom.mkBody None "page") false) in
  let tries :=
    [(1100, 1100,
      ThemeSwitcher.Answered
        (Page.Parsed
           (Page.JsonFields (JS.Bool true) (JS.Str "spring") (JS.Str "1b"))));
     (1500, 1500, ThemeSwitcher.RedirectedToLogin)] in
  let s1 := Spec.receive (Spec.ViaSSE 1000) JS.Undefined
              (JS.Str "coffee") (JS.Str "1") s0 in
  let s1' := Look.attempts tries s1 in
  let s2 := Spec.receive (Spec.ViaSSE 2000) JS.Undefined
              (JS.Str "winter") (JS.Str "2") s1' in
  let s3 := Spec.receive (Spec.ViaSSE 2001) JS.Undefined
              (JS.Str "winter") (JS.Str "2") s2 in
  Page.LAST_THEME_SET s1' = Some 1100
  ∧ Look.switched_to "coffee" (Page.body s0) (Page.body s1)
  ∧ Forall (fun e => Spec.navigation e = false) (Spec.emitted s0 s1)
  ∧ Look.switched_to "winter" (Page.body s1') (Page.body s2)
  ∧ Page.LocationReload ∈ Spec.emitted s1' s2
  ∧ s3 = s2.
Proof.
  intros s0 tries. split; [reflexivity|].
  apply (coffee_winter_trace Spec.SSE 1000 2000 2001 s0 JS.Undefined tries).
  - exact I.
  - reflexivity.
  - discriminate.
  - intros l E. vm_compute in E. injection E as <-. lia.
Defined.

(** The echo of a change made in this window does not reload, however late
    it comes: the admin changes the theme to "winter", which records the
    version "2"; the event [{theme:"winter", version:"2"}] arrives 600ms
    later, outside the window, and has no effect but to show the theme. *)
Lemma echo_outside_window_does_not_reload :
  let s0 := Eff.run (ThemeClient.initSSE true)
              (Page.fresh (Dom.mkBody None "page") false) in
  let tries :=
    [(2000, 2000,
      ThemeSwitcher.Answered
        (Page.Parsed
           (Page.JsonFields (JS.Bool true) (JS.Str "winter") (JS.Str "2"))))] in
  let s1 := Spec.receive (Spec.ViaSSE 1000) JS.Undefined
              (JS.Str "coffee") (JS.Str "1") s0 in
  let s1' := Look.attempts tries s1 in
  let s2 := Spec.receive (Spec.ViaSSE 2600) JS.Undefined
              (JS.Str "winter") (JS.Str "2") s1' in
  Page.LAST_THEME_SET s1' = Some 2000
  ∧ Page.currentTheme s2 = JS.Str "winter"
  ∧ Spec.emitted s1' s2 = [].
Proof. vm_compute. repeat split; reflexivity. Qed.
